(** * Missed-message email notifications (zerver/lib/email_notifications.py)

    A shallow embedding of the email-batching core of
    [zerver/lib/email_notifications.py]: the plain-text and HTML content
    rewriters, [build_message_list], [get_narrow_url], the notification
    emitter [do_send_missedmessage_events_reply_in_zulip] and the bucketer
    [handle_missedmessage_emails], followed by the properties proved about
    them.

    Conventions.  Python [str] is [string], the text as its UTF-8 bytes
    where a character outside ASCII matters; Python [int], message and user
    identifiers and timestamps are [Z]; [None]-able values are [option];
    a Python [dict] is an association list kept in insertion order (module
    [PyDict]); an exception is the [Raised] outcome of the result type. *)

From Stdlib Require Import ZArith List String Ascii Bool Lia.
From Stdlib Require Import Permutation Sorted DecimalString.
Import ListNotations.
Local Open Scope string_scope.
Local Open Scope Z_scope.

(** ** Python primitives used by the module *)

Module Py.

(** The line feed, ["\n"]. *)
Definition LF : ascii := "010"%char.

Definition nl : string := String LF "".

(** [s.split("\n")]: never empty, the empty text gives one empty line. *)
Fixpoint split (s : string) : list string :=
  match s with
  | EmptyString => [""]
  | String c r =>
      if Ascii.eqb c LF then "" :: split r
      else match split r with
           | h :: t => String c h :: t
           | [] => [String c ""]
           end
  end.

(** [sep.join(parts)]. *)
Fixpoint join (sep : string) (parts : list string) : string :=
  match parts with
  | [] => ""
  | [x] => x
  | x :: rest => x ++ sep ++ join sep rest
  end.

(** [c in s] for a single character. *)
Fixpoint contains_char (c : ascii) (s : string) : bool :=
  match s with
  | EmptyString => false
  | String d r => Ascii.eqb c d || contains_char c r
  end.

(** [str(n)] for an integer. *)
Definition str_of_int (n : Z) : string := NilEmpty.string_of_int (Z.to_int n).

(** Truth value of an optional string: [None] and [""] are false. *)
Definition truthy (o : option string) : bool :=
  match o with
  | None => false
  | Some s => negb (String.eqb s "")
  end.

(** [a == b] where [a] is a string and [b] is a string or [None]. *)
Definition str_eq_opt (a : string) (b : option string) : bool :=
  match b with
  | None => false
  | Some s => String.eqb a s
  end.

(** [o or ""]. *)
Definition or_empty (o : option string) : string :=
  match o with
  | Some s => if String.eqb s "" then "" else s
  | None => ""
  end.

Section Sorting.
Context {A : Type}.
Variable key : A -> Z.

(** One step of a stable insertion: [x] came before every element of [l] and
    is put in front of the first element whose key is not smaller. *)
Fixpoint insert_sorted (x : A) (l : list A) : list A :=
  match l with
  | [] => [x]
  | y :: ys => if key x <=? key y then x :: y :: ys else y :: insert_sorted x ys
  end.

(** [sorted(l, key=key)] and [l.sort(key=key)]: ascending and stable, so the
    result is the one any stable sort gives. *)
Fixpoint sorted (l : list A) : list A :=
  match l with
  | [] => []
  | x :: xs => insert_sorted x (sorted xs)
  end.

(** [min(l, key=key)]: the first element with the least key; [None] stands
    for the [ValueError] on an empty list. *)
Fixpoint min_by (l : list A) : option A :=
  match l with
  | [] => None
  | x :: xs =>
      match min_by xs with
      | None => Some x
      | Some m => if key x <=? key m then Some x else Some m
      end
  end.

(** [max(l, key=key)]: the first element with the greatest key. *)
Fixpoint max_by (l : list A) : option A :=
  match l with
  | [] => None
  | x :: xs =>
      match max_by xs with
      | None => Some x
      | Some m => if key m <=? key x then Some x else Some m
      end
  end.

End Sorting.

End Py.

(** ** Insertion-ordered dictionaries *)

Module PyDict.

Section Dict.
Context {K V : Type}.
Variable eqb : K -> K -> bool.

Definition dict := list (K * V).

(** [d.get(k)]. *)
Fixpoint get (k : K) (d : list (K * V)) : option V :=
  match d with
  | [] => None
  | (k', v) :: rest => if eqb k k' then Some v else get k rest
  end.

(** [d[k] = v]: an existing key keeps its place, a new key goes last. *)
Fixpoint set (k : K) (v : V) (d : list (K * V)) : list (K * V) :=
  match d with
  | [] => [(k, v)]
  | (k', v') :: rest =>
      if eqb k k' then (k', v) :: rest else (k', v') :: set k v rest
  end.

(** [d.update(entries)]. *)
Definition update (d : list (K * V)) (entries : list (K * V)) : list (K * V) :=
  fold_left (fun acc kv => set (fst kv) (snd kv) acc) entries d.

Definition keys (d : list (K * V)) : list K := map fst d.

Definition values (d : list (K * V)) : list V := map snd d.

End Dict.

End PyDict.

(** ** Outcomes: a value or a raised exception *)

Inductive Exn : Type :=
| AssertionError (message : string)
| AttributeError
| KeyError
| ValueError
| DoesNotExist
| IndexError.

Inductive Result (A : Type) : Type :=
| Ok (a : A)
| Raised (e : Exn).

Arguments Ok {A} a.
Arguments Raised {A} e.

Definition rbind {A B : Type} (r : Result A) (k : A -> Result B) : Result B :=
  match r with
  | Ok a => k a
  | Raised e => Raised e
  end.

Notation "x <- r ;; k" := (rbind r (fun x => k))
  (at level 61, r at next level, right associativity).

Notation "' p <- r ;; k" := (rbind r (fun x => let p := x in k))
  (at level 61, p pattern, r at next level, right associativity).

(** The computation ends without an exception. *)
Definition returns {A : Type} (r : Result A) : Prop :=
  match r with
  | Ok _ => True
  | Raised _ => False
  end.

(** [for x in xs: acc = step(acc, x)] with exceptions. *)
Fixpoint rfold {A B : Type} (step : B -> A -> Result B) (xs : list A) (acc : B)
  : Result B :=
  match xs with
  | [] => Ok acc
  | x :: rest => acc' <- step acc x ;; rfold step rest acc'
  end.

(** [[f(x) for x in xs]] with exceptions. *)
Fixpoint rmap {A B : Type} (f : A -> Result B) (xs : list A) : Result (list B) :=
  match xs with
  | [] => Ok []
  | x :: rest => y <- f x ;; ys <- rmap f rest ;; Ok (y :: ys)
  end.

(** ** The plain-text content rewriter *)

Module PlainText.

(** What the code reads off a match of [FENCE_RE]: the groups [fence] and
    [lang] ([lang] is [None] when the line carries no tag). *)
Record FenceMatch : Type := mkFenceMatch {
  fence : string;
  lang : option string
}.

Section Rewriter.

(** [FENCE_RE.match(line)].  The pattern lives in
    [zerver/lib/markdown/fenced_code.py], outside these sources, and is a
    parameter here; [FENCE_RE] below is one such pattern. *)
Variable FENCE_RE_match : string -> option FenceMatch.

(** [gettext] under [override_language(language)]: language, then message. *)
Variable gettext : string -> string -> string.

Definition spoiler_title (language : string) : string :=
  gettext language "Open Zulip to see the spoiler content".

(** The line put after an opening spoiler fence, [f"({spoiler_title})"]. *)
Definition redaction_line (language : string) : string :=
  "(" ++ spoiler_title language ++ ")".

(** One turn of the loop of [fix_spoilers_in_text]; the state is
    [(open_fence, output)]. *)
Definition spoiler_step (language : string)
    (st : option string * list string) (line : string)
  : option string * list string :=
  let '(open_fence, output) := st in
  match FENCE_RE_match line with
  | Some m =>
      if Py.str_eq_opt "spoiler" (lang m) then
        (Some (fence m), (output ++ [line; redaction_line language])%list)
      else if Py.str_eq_opt (fence m) open_fence then
        (None, (output ++ [line])%list)
      else
        (open_fence, output)
  | None =>
      if negb (Py.truthy open_fence) then (open_fence, (output ++ [line])%list)
      else (open_fence, output)
  end.

Definition fix_spoilers_in_text (content language : string) : string :=
  let lines := Py.split content in
  let '(_, output) := fold_left (spoiler_step language) lines (None, []) in
  Py.join Py.nl output.

End Rewriter.

(** [add_quote_prefix_in_text]. *)
Definition add_quote_prefix_in_text (content : string) : string :=
  let lines := Py.split content in
  let output := map (fun line => "> " ++ line) lines in
  Py.join Py.nl output.

(** *** A fence pattern *)

(** Longest prefix of [s] whose characters satisfy [p], and the rest. *)
Fixpoint span (p : ascii -> bool) (s : string) : string * string :=
  match s with
  | EmptyString => ("", "")
  | String c r =>
      if p c then let '(a, b) := span p r in (String c a, b)
      else ("", s)
  end.

Definition is_fence_char (c : ascii) : bool :=
  Ascii.eqb c "`" || Ascii.eqb c "~".

Fixpoint has_fence_char (s : string) : bool :=
  match s with
  | EmptyString => false
  | String c r => is_fence_char c || has_fence_char r
  end.

Definition between (lo hi : nat) (c : ascii) : bool :=
  (lo <=? nat_of_ascii c)%nat && (nat_of_ascii c <=? hi)%nat.

(** A character of a language tag: a letter, a digit, or one of [_+,-./#]. *)
Definition is_lang_char (c : ascii) : bool :=
  between 97 122 c || between 65 90 c || between 48 57 c
  || Ascii.eqb c "_" || between 43 46 c || Ascii.eqb c "/" || Ascii.eqb c "#".

Definition strip_char (c : ascii) (s : string) : string :=
  match s with
  | String d r => if Ascii.eqb c d then r else s
  | EmptyString => s
  end.

Definition nonempty (s : string) : bool := negb (String.eqb s "").

(** Modelled from the spec: the fence pattern [FENCE_RE] of
    [zerver.lib.markdown.fenced_code], which is not among the sources.  The
    spec speaks of fence markers with a fence character and length and of an
    opening fence tagged [spoiler]; accordingly a line matches when it starts
    with three or more backticks or three or more tildes (the group [fence]),
    goes on with spaces and then either ends, or carries a tag (the group
    [lang], a run of letters, digits and [_+,-./#], optionally after an opening
    brace and a dot) and free header text.  No backtick or tilde may follow
    the fence. *)
Definition FENCE_RE (line : string) : option FenceMatch :=
  match line with
  | EmptyString => None
  | String c _ =>
      if is_fence_char c then
        let '(f, rest) := span (Ascii.eqb c) line in
        if (3 <=? String.length f)%nat && negb (has_fence_char rest) then
          let '(_, r) := span (Ascii.eqb " ") rest in
          if nonempty r then
            let r1 := strip_char "{" r in
            let r2 := strip_char "." r1 in
            let l := fst (span is_lang_char r2) in
            let l' := fst (span is_lang_char r1) in
            if nonempty l then Some (mkFenceMatch f (Some l))
            else if nonempty l' then Some (mkFenceMatch f (Some l'))
            else None
          else Some (mkFenceMatch f None)
        else None
      else None
  end.

(** A translation catalogue that leaves every message as it is (what
    [gettext] does for a language without a translation). *)
Definition gettext_untranslated (language msgid : string) : string := msgid.

End PlainText.

(** ** The HTML content rewriter: links and inline images *)

Module Html.

(** An [lxml.html.HtmlElement]: its identity as a Python object ([ident]),
    tag, attributes in document order, the text before the first child, the
    child elements and the text after the closing tag ([tail]).  Comments and
    processing instructions are left out: rendered messages hold none. *)
#[local] Set Warnings "-register-all".
Inductive HtmlElement : Type :=
| Element (ident : nat) (tag : string) (attrib : list (string * string))
    (text : option string) (children : list HtmlElement) (tail : option string).

Definition ident (e : HtmlElement) : nat :=
  match e with Element i _ _ _ _ _ => i end.

Definition tag (e : HtmlElement) : string :=
  match e with Element _ t _ _ _ _ => t end.

Definition attrib (e : HtmlElement) : list (string * string) :=
  match e with Element _ _ a _ _ _ => a end.

Definition text (e : HtmlElement) : option string :=
  match e with Element _ _ _ t _ _ => t end.

Definition children (e : HtmlElement) : list HtmlElement :=
  match e with Element _ _ _ _ c _ => c end.

Definition tail (e : HtmlElement) : option string :=
  match e with Element _ _ _ _ _ t => t end.

Definition set_tail (e : HtmlElement) (t : option string) : HtmlElement :=
  match e with Element i tg a tx c _ => Element i tg a tx c t end.

Definition set_children (e : HtmlElement) (c : list HtmlElement) : HtmlElement :=
  match e with Element i tg a tx _ t => Element i tg a tx c t end.

(** [elem.get(name)]. *)
Definition get (e : HtmlElement) (name : string) : option string :=
  PyDict.get String.eqb name (attrib e).

(** [elem.set(name, value)]. *)
Definition set (e : HtmlElement) (name value : string) : HtmlElement :=
  match e with
  | Element i tg a tx c t => Element i tg (PyDict.set String.eqb name value a) tx c t
  end.

(** [elem.find(tag)]: the first child with that tag. *)
Definition find (e : HtmlElement) (tg : string) : option HtmlElement :=
  List.find (fun k => String.eqb (tag k) tg) (children e).

(** White space in the sense of XPath's [normalize-space]. *)
Definition is_space (c : ascii) : bool :=
  Ascii.eqb c " " || Ascii.eqb c "009" || Ascii.eqb c "010" || Ascii.eqb c "013".

Fixpoint fields (s : string) : list string :=
  match s with
  | EmptyString => [""]
  | String c r =>
      if is_space c then "" :: fields r
      else match fields r with
           | h :: t => String c h :: t
           | [] => [String c ""]
           end
  end.

(** The names listed in a [class] attribute. *)
Definition class_names (s : string) : list string :=
  filter (fun w => negb (String.eqb w "")) (fields s).

(** The test of [find_class]: the element has a [class] attribute and
    [name] is one of the names in it. *)
Definition has_class (name : string) (e : HtmlElement) : bool :=
  match get e "class" with
  | Some c => existsb (String.eqb name) (class_names c)
  | None => false
  end.

(** [elem.find_class(name)]: the elements of the tree, [elem] included, that
    carry the class, in document order, each named by its identity. *)
Fixpoint find_class (name : string) (e : HtmlElement) : list nat :=
  match e with
  | Element i _ _ _ cs _ =>
      ((if has_class name e then [i] else []) ++ flat_map (find_class name) cs)%list
  end.

(** Every identity in the tree, in document order. *)
Fixpoint idents (e : HtmlElement) : list nat :=
  match e with
  | Element i _ _ _ cs _ => i :: flat_map idents cs
  end.

(** What [drop_tree] does with the tail of the dropped element: a non-empty
    tail is appended to the text slot before it (the tail of the previous
    sibling, or the text of the parent when there is none). *)
Definition merge_slot (slot dropped_tail : option string) : option string :=
  if Py.truthy dropped_tail
  then Some (Py.or_empty slot ++ Py.or_empty dropped_tail)
  else slot.

Section Forest.
Variable on_child : HtmlElement -> HtmlElement.
Variable i : nat.

(** The children of one element, read with the text slot before them:
    the child with identity [i] is taken out and its tail merged into the
    slot before it; every other child is handed to [on_child]. *)
Fixpoint drop_among (slot : option string) (cs : list HtmlElement)
  : option string * list HtmlElement :=
  match cs with
  | [] => (slot, [])
  | k :: rest =>
      if Nat.eqb (ident k) i then (merge_slot slot (tail k), rest)
      else
        let k' := on_child k in
        let '(slot', rest') := drop_among (tail k') rest in
        (slot, set_tail k' slot' :: rest')
  end.

End Forest.

(** The tree after [x.drop_tree()] for the element [x] of identity [i] below
    the root [e]: [x] leaves its parent with its children and text, its tail
    stays behind.  An identity that is not in the tree belongs to an element
    that left the tree earlier, and the tree stays as it is. *)
Fixpoint drop_below (i : nat) (e : HtmlElement) : HtmlElement :=
  match e with
  | Element id tg a tx cs tl =>
      let '(tx', cs') := drop_among (drop_below i) i tx cs in
      Element id tg a tx' cs' tl
  end.

(** [x.drop_tree()] seen from the root of the fragment; the root has no
    parent, and [drop_tree] asserts there is one. *)
Definition drop_tree (i : nat) (root : HtmlElement) : Result HtmlElement :=
  if Nat.eqb (ident root) i then Raised (AssertionError "")
  else Ok (drop_below i root).

Fixpoint max_ident (e : HtmlElement) : nat :=
  match e with
  | Element i _ _ _ cs _ => fold_right (fun k m => Nat.max (max_ident k) m) i cs
  end.

(** [e.A(image_link, href=image_link, target="_blank", **title_attr)], a new
    element. *)
Definition A (fresh : nat) (image_link : string) (title_attr : list (string * string))
  : HtmlElement :=
  Element fresh "a"
    ([("href", image_link); ("target", "_blank")] ++ title_attr)%list
    (Some image_link) [] None.

(** The test of line 77: the fragment has one child element and its [class]
    attribute reads [message_inline_image]. *)
Definition sole_inline_image (fragment : HtmlElement) : option HtmlElement :=
  match children fragment with
  | [inner] =>
      match get inner "class" with
      | Some c => if String.eqb c "message_inline_image" then Some inner else None
      | None => None
      end
  | _ => None
  end.

(** Lines 77 to 97 of [relative_to_full_url]: the treatment of inline image
    previews.  In the first branch [inner.find("a")] may be [None], and the
    element builder refuses an [href] that is [None]. *)
Definition rewrite_inline_images (fragment : HtmlElement) : Result HtmlElement :=
  match sole_inline_image fragment with
  | Some inner =>
      match find inner "a" with
      | None => Raised AttributeError
      | Some a =>
          let image_link := get a "href" in
          let image_title := get a "title" in
          let title_attr :=
            match image_title with
            | None => []
            | Some t => [("title", t)]
            end in
          (* inner.clear(); inner.tag = "p"; inner.append(e.A(...)) *)
          match image_link with
          | None => Raised KeyError
          | Some link =>
              let anchor := A (S (max_ident fragment)) link title_attr in
              Ok (set_children fragment
                    [Element (ident inner) "p" [] None [anchor] None])
          end
      end
  | None =>
      let inline_image_containers := find_class "message_inline_image" fragment in
      rfold (fun fr container => drop_tree container fr)
        inline_image_containers fragment
  end.

Section Links.

(** [fragment.iterlinks()] of lxml, read as the list of
    (element, attribute, link) it yields. *)
Variable iterlinks : HtmlElement -> list (nat * string * string).

(** [fragment.make_links_absolute(base_url)] of lxml. *)
Variable make_links_absolute : string -> HtmlElement -> HtmlElement.

Fixpoint strip_prefix (p s : string) : option string :=
  match p with
  | EmptyString => Some s
  | String c p' =>
      match s with
      | String d s' => if Ascii.eqb c d then strip_prefix p' s' else None
      | EmptyString => None
      end
  end.

(** [re.match("/?#narrow/", link)] and the [re.sub] that follows it.  The
    replacement is read as plain text: [base_url] is a URL and holds no
    backslash, which [re.sub] would take for an escape. *)
Definition narrow_link (base_url link : string) : option string :=
  match strip_prefix "/#narrow/" link with
  | Some rest => Some (base_url ++ "/#narrow/" ++ rest)
  | None =>
      match strip_prefix "#narrow/" link with
      | Some rest => Some (base_url ++ "/#narrow/" ++ rest)
      | None => None
      end
  end.

(** Apply [f] to the element of identity [i]. *)
Fixpoint update_element (i : nat) (f : HtmlElement -> HtmlElement) (e : HtmlElement)
  : HtmlElement :=
  match e with
  | Element id tg a tx cs tl =>
      let e' := Element id tg a tx (map (update_element i f) cs) tl in
      if Nat.eqb id i then f e' else e'
  end.

(** Lines 64 to 72: narrow links and their titles. *)
Definition rewrite_narrow_links (fragment : HtmlElement) (base_url : string)
  : HtmlElement :=
  fold_left
    (fun fr link_info =>
       let '(elem, attr, link) := link_info in
       match narrow_link base_url link with
       | Some link' =>
           update_element elem
             (fun e =>
                let e := set e attr link' in
                match get e "title" with
                | Some _ => set e "title" link'
                | None => e
                end) fr
       | None => fr
       end)
    (iterlinks fragment) fragment.

Definition relative_to_full_url (fragment : HtmlElement) (base_url : string)
  : Result HtmlElement :=
  let fragment := rewrite_narrow_links fragment base_url in
  fragment <- rewrite_inline_images fragment ;;
  Ok (make_links_absolute base_url fragment).

End Links.

(** *** What the inline-image policy asks for *)

Section Prune.
Variable name : string.
Variable on_child : HtmlElement -> HtmlElement.

(** The children of one element with every child of class [name] deleted;
    the tail of a deleted child joins the text slot before it. *)
Fixpoint prune_among (slot : option string) (cs : list HtmlElement)
  : option string * list HtmlElement :=
  match cs with
  | [] => (slot, [])
  | k :: rest =>
      if has_class name k then prune_among (merge_slot slot (tail k)) rest
      else
        let '(slot', rest') := prune_among (tail k) rest in
        (slot, set_tail (on_child k) slot' :: rest')
  end.

End Prune.

(** The tree without the elements of class [name] below its root: each of
    them is deleted with its whole subtree, everything else stays. *)
Fixpoint prune (name : string) (e : HtmlElement) : HtmlElement :=
  match e with
  | Element id tg a tx cs tl =>
      let '(tx', cs') := prune_among name (prune name) tx cs in
      Element id tg a tx' cs' tl
  end.

End Html.

(** ** The data the module works on *)

Module Model.

(** [Recipient.PERSONAL], [Recipient.STREAM], [Recipient.HUDDLE]. *)
Inductive RecipientType : Type := PERSONAL | STREAM | HUDDLE.

Definition RecipientType_eqb (a b : RecipientType) : bool :=
  match a, b with
  | PERSONAL, PERSONAL | STREAM, STREAM | HUDDLE, HUDDLE => true
  | _, _ => false
  end.

Record Recipient : Type := mkRecipient {
  recipient_id : Z;
  recipient_type : RecipientType;
  type_id : Z
}.

Record Realm : Type := mkRealm {
  realm_name : string;
  uri : string;
  message_content_allowed_in_email_notifications : bool
}.

Record UserProfile : Type := mkUserProfile {
  user_id : Z;
  full_name : string;
  email : string;
  realm : Realm;
  default_language : string;
  emojiset : string;
  is_bot : bool;
  enable_offline_email_notifications : bool;
  message_content_in_email_notifications : bool;
  realm_name_in_notifications : bool
}.

Record Message : Type := mkMessage {
  message_id : Z;
  sender : UserProfile;
  recipient : Recipient;
  topic_name : string;
  date_sent : Z;
  content : string;
  rendered_content : option string
}.

(** [message.sender_id] and [message.recipient_id]. *)
Definition sender_id (m : Message) : Z := user_id (sender m).

Definition message_recipient_id (m : Message) : Z := recipient_id (recipient m).

(** [message.is_stream_message()]. *)
Definition is_stream_message (m : Message) : bool :=
  RecipientType_eqb (recipient_type (recipient m)) STREAM.

Record Stream : Type := mkStream {
  stream_id : Z;
  stream_name : string
}.

(** One entry of a display recipient of a private conversation. *)
Record UserDisplayRecipient : Type := mkUserDisplayRecipient {
  dr_id : Z;
  dr_full_name : string
}.

(** [DisplayRecipientT]: the name of a stream, or the participants. *)
Inductive DisplayRecipient : Type :=
| DisplayStream (name : string)
| DisplayUsers (users : list UserDisplayRecipient).

(** *** The message list handed to the email template *)

(** The [grouping] entry of a header: one of the dictionaries
    [{"user": id}], [{"huddle": id}], [{"stream": id, "topic": topic}]. *)
Inductive Grouping : Type :=
| GUser (user : Z)
| GHuddle (huddle : Z)
| GStream (stream : Z) (topic : string).

(** Equality of two such dictionaries. *)
Definition Grouping_eqb (a b : Grouping) : bool :=
  match a, b with
  | GUser x, GUser y => Z.eqb x y
  | GHuddle x, GHuddle y => Z.eqb x y
  | GStream x s, GStream y t => Z.eqb x y && String.eqb s t
  | _, _ => false
  end.

Record Header : Type := mkHeader {
  h_grouping : Grouping;
  h_plain : string;
  h_html : string;
  h_stream_message : bool
}.

Record Payload : Type := mkPayload {
  p_plain : string;
  p_html : string
}.

Record SenderBlock : Type := mkSenderBlock {
  sb_sender : string;
  sb_content : list Payload
}.

Record RecipientBlock : Type := mkRecipientBlock {
  rb_header : Header;
  rb_senders : list SenderBlock
}.

(** *** Missed-message events and the email *)

(** A missed-message event of the queue. *)
Record Event : Type := mkEvent {
  event_message_id : Z;
  event_trigger : option string;
  event_mentioned_user_group_id : option Z
}.

(** The value kept per message id in [message_ids]. *)
Record TriggerInfo : Type := mkTriggerInfo {
  info_trigger : option string;
  info_mentioned_user_group_id : option Z
}.

(** One entry of [missed_messages]. *)
Record MissedMessage : Type := mkMissedMessage {
  mm_message : Message;
  mm_trigger : option string;
  mm_mentioned_user_group_id : option Z
}.

(** Values of the template context. *)
Inductive Value : Type :=
| VNone
| VBool (b : bool)
| VInt (n : Z)
| VStr (s : string)
| VMessages (blocks : list RecipientBlock).

Definition Context : Type := list (string * Value).

(** [email_dict]. *)
Record EmailDict : Type := mkEmailDict {
  template_prefix : string;
  to_user_ids : list Z;
  from_name : string;
  from_address : string;
  reply_to_email : string;
  context : Context
}.

(** What the module does to the world outside, in the order it happens. *)
Inductive Effect : Type :=
| LogWarning (text : string) (user_profile_id : Z)
| SoftReactivate (user : UserProfile) (unique_triggers : list (option string))
    (mentioned_user_group_name : option string)
| QueuePublish (queue : string) (email : EmailDict)
| SaveLastReminder (user : Z) (last_reminder : Z).

(** *** Collaborators *)

(** The stores, settings and helpers of the rest of the server that the
    module calls; none of them is in these sources. *)
Record Collaborators : Type := mkCollaborators {
  (** [str.lower] *)
  lower : string -> string;
  (** [gettext] under [override_language]: language, then message *)
  gettext : string -> string -> string;
  (** [get_user_profile_by_id]; [None] is [DoesNotExist] *)
  get_user_profile_by_id : Z -> option UserProfile;
  (** [Stream.objects.only("id", "name").get(id=...)] *)
  get_stream : Z -> option Stream;
  get_display_recipient : Recipient -> DisplayRecipient;
  (** the rows of the [Message] table *)
  all_messages : list Message;
  (** the [read] flag of the [UserMessage] row of a user and a message *)
  usermessage_read : Z -> Z -> option bool;
  get_context_for_message : Message -> list Message;
  bulk_access_messages : UserProfile -> list Message -> list Message;
  personal_narrow_url : Realm -> UserProfile -> string;
  huddle_narrow_url : Realm -> list Z -> string;
  topic_narrow_url : Realm -> Stream -> string -> string;
  stream_narrow_url : Realm -> Stream -> string;
  one_click_unsubscribe_link : UserProfile -> string -> string;
  common_context : UserProfile -> Context;
  get_mentioned_user_group_name : list MissedMessage -> UserProfile -> option string;
  create_missed_message_address : UserProfile -> Message -> string;
  get_topic_resolution_and_bare_name : string -> bool * string;
  (** [str(Address(display_name=..., addr_spec=...))] *)
  format_address : string -> string -> string;
  timezone_now : Z;
  (** [settings.EMAIL_GATEWAY_PATTERN] *)
  EMAIL_GATEWAY_PATTERN : string;
  (** [settings.SEND_MISSED_MESSAGE_EMAILS_AS_USER] *)
  SEND_MISSED_MESSAGE_EMAILS_AS_USER : bool;
  (** [FromAddress.NOREPLY] *)
  NOREPLY : string;
  (** [repr(s)] of a set [s] of (recipient id, topic) pairs, given as its
      distinct elements in the order in which they were added: the text
      depends on the order in which Python iterates over the set, which
      follows the hashes of the elements *)
  repr_recipients : list (Z * string) -> string;
  (** [list(s)] of a set [s] of users, given in the same way: a
      rearrangement of the elements in the order of the hash table *)
  list_of_senders : list UserProfile -> list UserProfile
}.

(** The text and markup machinery the content rewriters stand on: regular
    expressions, lxml and BeautifulSoup. *)
Record Rendering : Type := mkRendering {
  FENCE_RE_match : string -> option PlainText.FenceMatch;
  (** the [re.sub] of [fix_plaintext_image_urls]: a Markdown image
      reference, label in brackets and URL in parentheses, becomes the URL *)
  sub_image_urls : string -> string;
  (** the [re.sub] that puts the realm's URI before every [/user_uploads/]
      path: the URI, then the text *)
  sub_user_uploads : string -> string -> string;
  (** [lxml.html.fragment_fromstring(..., create_parent=True)] *)
  fragment_fromstring : string -> Html.HtmlElement;
  iterlinks : Html.HtmlElement -> list (nat * string * string);
  make_links_absolute : string -> Html.HtmlElement -> Html.HtmlElement;
  (** [fix_emojis]: fragment, base URL, emoji set *)
  fix_emojis : Html.HtmlElement -> string -> string -> Result Html.HtmlElement;
  (** [fix_spoilers_in_html]: fragment, language *)
  fix_spoilers_in_html : Html.HtmlElement -> string -> Result Html.HtmlElement;
  (** [lxml.html.tostring(fragment, encoding="unicode")] *)
  tostring : Html.HtmlElement -> string;
  (** the markup of [prepend_sender_to_message]: markup, then sender *)
  prepend_sender_html : string -> string -> string
}.

End Model.

(** ** Narrow links and the message list builder *)

Module MessageList.

Import Model.

Section Builder.

Variable E : Collaborators.
Variable R : Rendering.

(** [get_narrow_url].  The optional arguments are [None] or a value handed
    in by the caller; the assertions of the source are kept. *)
Definition get_narrow_url (user_profile : UserProfile) (message : Message)
    (display_recipient : option DisplayRecipient) (stream : option Stream)
  : Result string :=
  match recipient_type (recipient message) with
  | PERSONAL =>
      match stream, display_recipient with
      | None, None =>
          Ok (personal_narrow_url E (realm user_profile) (sender message))
      | _, _ => Raised (AssertionError "")
      end
  | HUDDLE =>
      match stream with
      | Some _ => Raised (AssertionError "")
      | None =>
          let display_recipient :=
            match display_recipient with
            | None => get_display_recipient E (recipient message)
            | Some d => d
            end in
          match display_recipient with
          | DisplayStream _ => Raised (AssertionError "")
          | DisplayUsers users =>
              let other_user_ids :=
                map dr_id
                  (filter (fun r => negb (Z.eqb (dr_id r) (user_id user_profile))) users) in
              Ok (huddle_narrow_url E (realm user_profile) other_user_ids)
          end
      end
  | STREAM =>
      match display_recipient with
      | Some _ => Raised (AssertionError "")
      | None =>
          stream <- match stream with
                    | Some s => Ok s
                    | None =>
                        match get_stream E (type_id (recipient message)) with
                        | Some s => Ok s
                        | None => Raised DoesNotExist
                        end
                    end ;;
          Ok (topic_narrow_url E (realm user_profile) stream (topic_name message))
      end
  end.

Variable user : UserProfile.
Variable stream_map : list (Z * Stream).

(** [sender_string]. *)
Definition sender_string (message : Message) : string :=
  match recipient_type (recipient message) with
  | STREAM | HUDDLE => full_name (sender message)
  | PERSONAL => ""
  end.

(** [prepend_sender_to_message]. *)
Definition prepend_sender_to_message (message_plain message_html sender : string)
  : string * string :=
  (sender ++ ":" ++ Py.nl ++ message_plain, prepend_sender_html R message_html sender).

(** [build_message_payload]. *)
Definition build_message_payload (message : Message) (sender : option string)
  : Result Payload :=
  let plain := content message in
  let plain := sub_image_urls R plain in
  let plain := sub_user_uploads R (uri (realm user)) plain in
  let plain :=
    PlainText.fix_spoilers_in_text (FENCE_RE_match R) (gettext E) plain
      (default_language user) in
  let plain := PlainText.add_quote_prefix_in_text plain in
  match rendered_content message with
  | None => Raised (AssertionError "")
  | Some rendered =>
      let fragment := fragment_fromstring R rendered in
      fragment <- Html.relative_to_full_url (iterlinks R) (make_links_absolute R)
                    fragment (uri (realm user)) ;;
      fragment <- fix_emojis R fragment (uri (realm user)) (emojiset user) ;;
      fragment <- fix_spoilers_in_html R fragment (default_language user) ;;
      let html := tostring R fragment in
      if Py.truthy sender then
        let '(plain, html) := prepend_sender_to_message plain html (Py.or_empty sender) in
        Ok (mkPayload plain html)
      else Ok (mkPayload plain html)
  end.

(** [build_sender_payload]. *)
Definition build_sender_payload (message : Message) : Result SenderBlock :=
  let sender := sender_string message in
  payload <- build_message_payload message (Some sender) ;;
  Ok (mkSenderBlock sender [payload]).

(** The [grouping] entry that [message_header] computes. *)
Definition grouping_of (message : Message) : Grouping :=
  match recipient_type (recipient message) with
  | PERSONAL => GUser (sender_id message)
  | HUDDLE => GHuddle (message_recipient_id message)
  | STREAM =>
      GStream (message_recipient_id message) (lower E (topic_name message))
  end.

Definition white_link (narrow_link header : string) : string :=
  "<a style='color: #ffffff;' href='" ++ narrow_link ++ "'>" ++ header ++ "</a>".

(** [message_header]. *)
Definition message_header (message : Message) : Result Header :=
  let stream_message := is_stream_message message in
  match recipient_type (recipient message) with
  | PERSONAL =>
      narrow_link <- get_narrow_url user message None None ;;
      let header := "You and " ++ full_name (sender message) in
      let header_html := white_link narrow_link header in
      Ok (mkHeader (grouping_of message) header header_html stream_message)
  | HUDDLE =>
      let display_recipient := get_display_recipient E (recipient message) in
      match display_recipient with
      | DisplayStream _ => Raised (AssertionError "")
      | DisplayUsers users =>
          narrow_link <- get_narrow_url user message (Some display_recipient) None ;;
          let other_recipients :=
            map dr_full_name
              (filter (fun r => negb (Z.eqb (dr_id r) (user_id user))) users) in
          let header := "You and " ++ Py.join ", " other_recipients in
          let header_html := white_link narrow_link header in
          Ok (mkHeader (grouping_of message) header header_html stream_message)
      end
  | STREAM =>
      let stream_id := type_id (recipient message) in
      stream <- match PyDict.get Z.eqb stream_id stream_map with
                | Some s => Ok s
                | None =>
                    match get_stream E stream_id with
                    | Some s => Ok s
                    | None => Raised DoesNotExist
                    end
                end ;;
      narrow_link <- get_narrow_url user message None (Some stream) ;;
      let header := stream_name stream ++ " > " ++ topic_name message in
      let stream_link := stream_narrow_url E (realm user) stream in
      let header_html :=
        "<a href='" ++ stream_link ++ "'>" ++ stream_name stream ++ "</a> > <a href='"
        ++ narrow_link ++ "'>" ++ topic_name message ++ "</a>" in
      Ok (mkHeader (grouping_of message) header header_html stream_message)
  end.

(** [l[-1]], and the list with its last element replaced. *)
Definition last_of {X : Type} (l : list X) : option X :=
  match rev l with
  | [] => None
  | x :: _ => Some x
  end.

Definition set_last {X : Type} (l : list X) (x : X) : list X :=
  (removelast l ++ [x])%list.

(** One turn of the loop over the sorted messages. *)
Definition render_step (messages_to_render : list RecipientBlock) (message : Message)
  : Result (list RecipientBlock) :=
  header <- message_header message ;;
  let collapse :=
    match last_of messages_to_render with
    | Some block =>
        if Grouping_eqb (h_grouping (rb_header block)) (h_grouping header)
        then Some block else None
    | None => None
    end in
  match collapse with
  | Some block =>
      let sender := sender_string message in
      let sender_block := rb_senders block in
      match last_of sender_block with
      | None => Raised IndexError
      | Some last_sender =>
          if String.eqb (sb_sender last_sender) sender then
            payload <- build_message_payload message None ;;
            let last_sender' :=
              mkSenderBlock (sb_sender last_sender)
                (sb_content last_sender ++ [payload])%list in
            Ok (set_last messages_to_render
                  (mkRecipientBlock (rb_header block) (set_last sender_block last_sender')))
          else
            sender_payload <- build_sender_payload message ;;
            Ok (set_last messages_to_render
                  (mkRecipientBlock (rb_header block)
                     (sender_block ++ [sender_payload])%list))
      end
  | None =>
      sender_payload <- build_sender_payload message ;;
      let recipient_block := mkRecipientBlock header [sender_payload] in
      Ok (messages_to_render ++ [recipient_block])%list
  end.

(** [build_message_list]. *)
Definition build_message_list (messages : list Message) : Result (list RecipientBlock) :=
  let messages := Py.sorted date_sent messages in
  rfold render_step messages [].

End Builder.

(** *** Maximal runs *)

Section Runs.
Context {X K : Type}.
Variable key : X -> K.
Variable key_eqb : K -> K -> bool.

(** The list cut into its maximal runs of neighbours with equal keys. *)
Fixpoint runs (l : list X) : list (list X) :=
  match l with
  | [] => []
  | x :: rest =>
      match runs rest with
      | (y :: g) :: gs =>
          if key_eqb (key x) (key y) then (x :: y :: g) :: gs
          else [x] :: (y :: g) :: gs
      | _ => [[x]]
      end
  end.

(** The number of places where the key changes from one element to the
    next. *)
Fixpoint key_changes (l : list X) : nat :=
  match l with
  | x :: ((y :: _) as rest) =>
      ((if key_eqb (key x) (key y) then 0 else 1) + key_changes rest)%nat
  | _ => 0%nat
  end.

End Runs.

End MessageList.

(** ** The notification emitter and the missed-message bucketer *)

Module MissedMessages.

Import Model.

(** [set(l)] read as a list: the distinct elements, each where it first
    occurs.  The order in which Python iterates over the set is another
    matter: where the source depends on it ([repr(recipients)],
    [list(senders)] of two or more senders) the model asks the
    collaborators [repr_recipients] and [list_of_senders]. *)
Fixpoint set_of {X : Type} (eqb : X -> X -> bool) (l : list X) : list X :=
  match l with
  | [] => []
  | x :: rest => x :: filter (fun y => negb (eqb x y)) (set_of eqb rest)
  end.

Definition opt_string_eqb (a b : option string) : bool :=
  match a, b with
  | None, None => true
  | Some x, Some y => String.eqb x y
  | _, _ => false
  end.

Definition recipient_topic_eqb (a b : Z * string) : bool :=
  Z.eqb (fst a) (fst b) && String.eqb (snd a) (snd b).

Definition user_eqb (a b : UserProfile) : bool := Z.eqb (user_id a) (user_id b).

(** The participant summary of a group conversation, lines 466 to 478. *)
Definition huddle_display_name (other_recipients : list string) : string :=
  if Nat.eqb (List.length other_recipients) 2 then
    Py.join " and " other_recipients
  else if Nat.eqb (List.length other_recipients) 3 then
    nth 0 other_recipients "" ++ ", " ++ nth 1 other_recipients ""
    ++ ", and " ++ nth 2 other_recipients ""
  else
    Py.join ", " (firstn 2 other_recipients) ++ ", and "
    ++ Py.str_of_int (Z.of_nat (List.length other_recipients) - 2) ++ " others".

Definition value_of_name (o : option string) : Value :=
  match o with
  | None => VNone
  | Some s => VStr s
  end.

Definition update (c : Context) (entries : list (string * Value)) : Context :=
  PyDict.update String.eqb c entries.

Definition lookup (c : Context) (k : string) : option Value :=
  PyDict.get String.eqb k c.

Section Emitter.

Variable E : Collaborators.
Variable R : Rendering.

(** [message_content_allowed_in_missedmessage_emails]. *)
Definition message_content_allowed_in_missedmessage_emails (user_profile : UserProfile)
  : bool :=
  message_content_allowed_in_email_notifications (realm user_profile)
  && message_content_in_email_notifications user_profile.

(** The set [recipients] of line 399. *)
Definition recipients_of (missed_messages : list MissedMessage) : list (Z * string) :=
  set_of recipient_topic_eqb
    (map (fun msg => (message_recipient_id (mm_message msg),
                      lower E (topic_name (mm_message msg))))
       missed_messages).

(** What [do_send_missedmessage_events_reply_in_zulip] computes before it
    touches anything outside: the email, and the arguments of the soft
    reactivation. *)
Definition missed_message_email (user_profile : UserProfile)
    (missed_messages : list MissedMessage) (message_count : Z)
  : Result (EmailDict * list (option string) * option string) :=
  let recipients := recipients_of missed_messages in
  if negb (Nat.eqb (List.length recipients) 1) then
    Raised (AssertionError
              ("Unexpectedly multiple recipients: " ++ repr_recipients E recipients))
  else
  let unsubscribe_link := one_click_unsubscribe_link E user_profile "missed_messages" in
  let context := common_context E user_profile in
  let context :=
    update context
      [("name", VStr (full_name user_profile));
       ("message_count", VInt message_count);
       ("unsubscribe_link", VStr unsubscribe_link);
       ("realm_name_in_notifications", VBool (realm_name_in_notifications user_profile))] in
  let mentioned_user_group_name :=
    get_mentioned_user_group_name E missed_messages user_profile in
  let triggers := map mm_trigger missed_messages in
  let unique_triggers := set_of opt_string_eqb triggers in
  let has_trigger t := existsb (opt_string_eqb (Some t)) unique_triggers in
  let count_trigger t :=
    Z.of_nat (List.length (filter (opt_string_eqb (Some t)) triggers)) in
  let personal_mentioned :=
    existsb
      (fun message =>
         opt_string_eqb (mm_trigger message) (Some "mentioned")
         && match mm_mentioned_user_group_id message with
            | None => true
            | Some _ => false
            end)
      missed_messages in
  let mention := has_trigger "mentioned" || has_trigger "wildcard_mentioned" in
  let stream_email_notify := has_trigger "stream_email_notify" in
  let context :=
    update context
      [("mention", VBool mention);
       ("personal_mentioned", VBool personal_mentioned);
       ("wildcard_mentioned", VBool (has_trigger "wildcard_mentioned"));
       ("stream_email_notify", VBool stream_email_notify);
       ("mention_count",
        VInt (count_trigger "mentioned" + count_trigger "wildcard_mentioned"));
       ("mentioned_user_group_name", value_of_name mentioned_user_group_name)] in
  let context :=
    update context
      [("reply_to_zulip", VBool (negb (String.eqb (EMAIL_GATEWAY_PATTERN E) "")))] in
  match missed_messages with
  | [] => Raised IndexError
  | first :: _ =>
  let reply_to_address := create_missed_message_address E user_profile (mm_message first) in
  let reply_to_name :=
    if String.eqb reply_to_address (NOREPLY E) then "" else "Zulip" in
  narrow_url <- MessageList.get_narrow_url E user_profile (mm_message first) None None ;;
  let context := update context [("narrow_url", VStr narrow_url)] in
  let senders := set_of user_eqb (map (fun m => sender (mm_message m)) missed_messages) in
  '(context, senders) <-
    match recipient_type (recipient (mm_message first)) with
    | HUDDLE =>
        match get_display_recipient E (recipient (mm_message first)) with
        | DisplayStream _ => Raised (AssertionError "")
        | DisplayUsers display_recipient =>
            let other_recipients :=
              map dr_full_name
                (filter (fun r => negb (Z.eqb (dr_id r) (user_id user_profile)))
                   display_recipient) in
            let context := update context [("group_pm", VBool true)] in
            let context :=
              update context
                [("huddle_display_name", VStr (huddle_display_name other_recipients))] in
            Ok (context, senders)
        end
    | PERSONAL => Ok (update context [("private_message", VBool true)], senders)
    | STREAM =>
        if mention || stream_email_notify then
          let senders :=
            if mention then
              set_of user_eqb
                (map (fun m => sender (mm_message m))
                   (filter
                      (fun m =>
                         opt_string_eqb (mm_trigger m) (Some "mentioned")
                         || opt_string_eqb (mm_trigger m) (Some "wildcard_mentioned"))
                      missed_messages))
            else senders in
          let message := mm_message first in
          match get_stream E (type_id (recipient message)) with
          | None => Raised DoesNotExist
          | Some stream =>
              let '(topic_resolved, topic) :=
                get_topic_resolution_and_bare_name E (topic_name message) in
              Ok (update context
                    [("stream_name", VStr (stream_name stream));
                     ("topic_name", VStr topic);
                     ("topic_resolved", VBool topic_resolved)],
                  senders)
          end
        else Raised (AssertionError "Invalid messages!")
    end ;;
  context <-
    (if negb (message_content_allowed_in_missedmessage_emails user_profile) then
       let realm := realm user_profile in
       Ok (update context
             [("reply_to_zulip", VBool false);
              ("messages", VMessages []);
              ("sender_str", VStr "");
              ("realm_str", VStr (realm_name realm));
              ("huddle_display_name", VStr "");
              ("show_message_content", VBool false);
              ("message_content_disabled_by_user",
               VBool (negb (message_content_in_email_notifications user_profile)));
              ("message_content_disabled_by_realm",
               VBool (negb (message_content_allowed_in_email_notifications realm)))])
     else
       messages <- MessageList.build_message_list E R user_profile []
                     (map mm_message missed_messages) ;;
       Ok (update context
             [("messages", VMessages messages);
              ("sender_str",
               VStr (Py.join ", " (map full_name (list_of_senders E senders))));
              ("realm_str", VStr (realm_name (realm user_profile)));
              ("show_message_content", VBool true)])) ;;
  let from_name := gettext E (default_language user_profile) "Zulip notifications" in
  let from_address := NOREPLY E in
  (* len(senders) == 1, and senders[0]: a set of one element has one order *)
  let '(from_name, from_address, context) :=
    match senders with
    | [sender] =>
        if SEND_MISSED_MESSAGE_EMAILS_AS_USER E then
          (full_name sender, email sender,
           update context [("reply_to_zulip", VBool false)])
        else (from_name, from_address, context)
    | _ => (from_name, from_address, context)
    end in
  let email_dict :=
    mkEmailDict "zerver/emails/missed_message" [user_id user_profile]
      from_name from_address
      (format_address E reply_to_name reply_to_address) context in
  Ok (email_dict, unique_triggers, mentioned_user_group_name)
  end.

(** [do_send_missedmessage_events_reply_in_zulip]: the effects in the order
    they happen, and the outcome. *)
Definition do_send_missedmessage_events_reply_in_zulip (user_profile : UserProfile)
    (missed_messages : list MissedMessage) (message_count : Z)
  : list Effect * Result unit :=
  match missed_message_email user_profile missed_messages message_count with
  | Raised e => ([], Raised e)
  | Ok (email_dict, unique_triggers, mentioned_user_group_name) =>
      ([SoftReactivate user_profile unique_triggers mentioned_user_group_name;
        QueuePublish "email_senders" email_dict;
        SaveLastReminder (user_id user_profile) (timezone_now E)],
       Ok tt)
  end.

(** *** The bucketer *)

(** A bucket key: the recipient id with a sender id or a topic. *)
Definition BucketTup : Type := (Z * (Z + string))%type.

Definition BucketTup_eqb (a b : BucketTup) : bool :=
  Z.eqb (fst a) (fst b)
  && match snd a, snd b with
     | inl x, inl y => Z.eqb x y
     | inr s, inr t => String.eqb s t
     | _, _ => false
     end.

(** The key under which lines 607 to 611 file a message. *)
Definition bucket_of (msg : Message) : BucketTup :=
  match recipient_type (recipient msg) with
  | PERSONAL => (message_recipient_id msg, inl (sender_id msg))
  | _ => (message_recipient_id msg, inr (lower E (topic_name msg)))
  end.

(** [messages_by_bucket[key].append(msg)] on a [defaultdict(list)]. *)
Definition bucket_append (messages_by_bucket : list (BucketTup * list Message))
    (msg : Message) : list (BucketTup * list Message) :=
  let key := bucket_of msg in
  let msgs :=
    match PyDict.get BucketTup_eqb key messages_by_bucket with
    | Some l => l
    | None => []
    end in
  PyDict.set BucketTup_eqb key (msgs ++ [msg])%list messages_by_bucket.

(** Lines 605 to 611. *)
Definition bucket_messages (messages : list Message) : list (BucketTup * list Message) :=
  fold_left bucket_append messages [].

(** Line 613. *)
Definition count_by_bucket (messages_by_bucket : list (BucketTup * list Message))
  : list (BucketTup * Z) :=
  map (fun entry => (fst entry, Z.of_nat (List.length (snd entry)))) messages_by_bucket.

(** Lines 617 to 622: a stream bucket gets its context messages. *)
Definition with_context (user_profile : UserProfile) (msg_list : list Message)
  : Result (list Message) :=
  match Py.min_by date_sent msg_list with
  | None => Raised ValueError
  | Some msg =>
      if is_stream_message msg then
        let context_messages := get_context_for_message E msg in
        let filtered_context_messages :=
          bulk_access_messages E user_profile context_messages in
        Ok (msg_list ++ filtered_context_messages)%list
      else Ok msg_list
  end.

(** Lines 625 to 628. *)
Definition max_message_id (msg_list : list Message) : Result Z :=
  match Py.max_by message_id msg_list with
  | None => Raised ValueError
  | Some msg => Ok (message_id msg)
  end.

(** Lines 634 to 643: the entries handed to the emitter, one per message id. *)
Definition unique_messages (message_ids : list (Z * TriggerInfo))
    (msgs : list Message) : list (Z * MissedMessage) :=
  fold_left
    (fun unique m =>
       let message_info := PyDict.get Z.eqb (message_id m) message_ids in
       PyDict.set Z.eqb (message_id m)
         (mkMissedMessage m
            (match message_info with
             | Some info => info_trigger info
             | None => None
             end)
            (match message_info with
             | Some info => info_mentioned_user_group_id info
             | None => None
             end))
         unique)
    msgs [].

(** The query of lines 592 to 597. *)
Definition unread_messages (user_profile : UserProfile)
    (message_ids : list (Z * TriggerInfo)) : list Message :=
  filter
    (fun m =>
       match usermessage_read E (user_id user_profile) (message_id m) with
       | Some read => negb read
       | None => false
       end
       && existsb (Z.eqb (message_id m)) (PyDict.keys message_ids)
       && negb (String.eqb (content m) "(deleted)"))
    (all_messages E).

(** Lines 567 to 573. *)
Definition message_ids_of (missed_email_events : list Event) : list (Z * TriggerInfo) :=
  fold_left
    (fun d event =>
       PyDict.set Z.eqb (event_message_id event)
         (mkTriggerInfo (event_trigger event) (event_mentioned_user_group_id event)) d)
    missed_email_events [].

(** Lines 605 to 630: the buckets with their context messages, the counts
    taken before the context was added, and the bucket keys in the order in
    which they are sent. *)
Definition prepare_buckets (user_profile : UserProfile) (messages : list Message)
  : Result (list (BucketTup * list Message) * list (BucketTup * Z)
            * list (BucketTup * Z)) :=
  let messages_by_bucket := bucket_messages messages in
  let message_count_by_bucket := count_by_bucket messages_by_bucket in
  messages_by_bucket <-
    rmap (fun entry =>
            msg_list <- with_context user_profile (snd entry) ;;
            Ok (fst entry, msg_list))
      messages_by_bucket ;;
  bucket_tups <-
    rmap (fun entry =>
            max_id <- max_message_id (snd entry) ;;
            Ok (fst entry, max_id))
      messages_by_bucket ;;
  let bucket_tups := Py.sorted snd bucket_tups in
  Ok (messages_by_bucket, message_count_by_bucket, bucket_tups).

(** The loop of lines 633 to 648: one email per bucket, until one raises. *)
Fixpoint send_buckets (user_profile : UserProfile)
    (message_ids : list (Z * TriggerInfo))
    (messages_by_bucket : list (BucketTup * list Message))
    (message_count_by_bucket : list (BucketTup * Z))
    (bucket_tups : list (BucketTup * Z)) : list Effect * Result unit :=
  match bucket_tups with
  | [] => ([], Ok tt)
  | (bucket_tup, ignored_max_id) :: rest =>
      match PyDict.get BucketTup_eqb bucket_tup messages_by_bucket with
      | None => ([], Raised KeyError)
      | Some msg_list =>
          let unique := unique_messages message_ids msg_list in
          match PyDict.get BucketTup_eqb bucket_tup message_count_by_bucket with
          | None => ([], Raised KeyError)
          | Some message_count =>
              match do_send_missedmessage_events_reply_in_zulip user_profile
                      (PyDict.values unique) message_count with
              | (effects, Ok _) =>
                  let '(effects', outcome) :=
                    send_buckets user_profile message_ids messages_by_bucket
                      message_count_by_bucket rest in
                  ((effects ++ effects')%list, outcome)
              | (effects, Raised e) => (effects, Raised e)
              end
          end
      end
  end.

(** [handle_missedmessage_emails]. *)
Definition handle_missedmessage_emails (user_profile_id : Z)
    (missed_email_events : list Event) : list Effect * Result unit :=
  let message_ids := message_ids_of missed_email_events in
  match get_user_profile_by_id E user_profile_id with
  | None => ([], Raised DoesNotExist)
  | Some user_profile =>
      if is_bot user_profile then
        ([LogWarning "Send-email event found for bot user %s. Skipping." user_profile_id],
         Ok tt)
      else if negb (enable_offline_email_notifications user_profile) then ([], Ok tt)
      else
        let messages := unread_messages user_profile message_ids in
        match messages with
        | [] => ([], Ok tt)
        | _ =>
            match prepare_buckets user_profile messages with
            | Raised e => ([], Raised e)
            | Ok (messages_by_bucket, message_count_by_bucket, bucket_tups) =>
                send_buckets user_profile message_ids messages_by_bucket
                  message_count_by_bucket bucket_tups
            end
        end
  end.

End Emitter.

(** The emails put on the queue, in order. *)
Definition published (effects : list Effect) : list EmailDict :=
  flat_map (fun e => match e with
                     | QueuePublish _ email => [email]
                     | _ => []
                     end) effects.

End MissedMessages.

(** ** A small server to run the model on *)

Module Sample.

Import Model.

(** [str.lower] on the ASCII letters. *)
Definition lower_char (c : ascii) : ascii :=
  let n := nat_of_ascii c in
  if ((65 <=? n) && (n <=? 90))%nat then ascii_of_nat (n + 32) else c.

Fixpoint ascii_lower (s : string) : string :=
  match s with
  | EmptyString => EmptyString
  | String c r => String (lower_char c) (ascii_lower r)
  end.

Definition zulip : Realm := mkRealm "Zulip Dev" "http://zulip.example.com" true.

Definition private_realm : Realm := mkRealm "Quiet" "http://quiet.example.com" false.

Definition person (id : Z) (name : string) (r : Realm) : UserProfile :=
  mkUserProfile id name (name ++ "@example.com") r "en" "google" false true true false.

Definition hamlet : UserProfile := person 10 "King Hamlet" zulip.
Definition othello : UserProfile := person 11 "Othello" zulip.
Definition iago : UserProfile := person 12 "Iago" zulip.
Definition cordelia : UserProfile := person 13 "Cordelia" zulip.
Definition prospero : UserProfile := person 14 "Prospero" zulip.

(** Hamlet in an organization that keeps message content out of emails. *)
Definition quiet_hamlet : UserProfile := person 10 "King Hamlet" private_realm.

(** Hamlet when he keeps message content out of his own emails, in an
    organization that allows it. *)
Definition discreet_hamlet : UserProfile :=
  mkUserProfile 10 "King Hamlet" "King Hamlet@example.com" zulip "en" "google"
    false true false false.

Definition denmark : Recipient := mkRecipient 100 STREAM 1.
Definition to_hamlet : Recipient := mkRecipient 200 PERSONAL 10.
Definition huddle : Recipient := mkRecipient 300 HUDDLE 7.

Definition stream_message (id : Z) (from : UserProfile) (topic : string) (sent : Z)
  : Message :=
  mkMessage id from denmark topic sent "hello" (Some "<p>hello</p>").

Definition direct_message (id : Z) (from : UserProfile) (topic : string) (sent : Z)
  : Message :=
  mkMessage id from to_hamlet topic sent "hello" (Some "<p>hello</p>").

Definition huddle_message (id : Z) (from : UserProfile) (sent : Z) : Message :=
  mkMessage id from huddle "" sent "hello" (Some "<p>hello</p>").

(** [repr] of a set of pairs whose topics need no escape, for a hash table
    that keeps the order in which the elements were added. *)
Definition repr_in_order (recipients : list (Z * string)) : string :=
  match recipients with
  | [] => "set()"
  | _ =>
      "{"
      ++ Py.join ", "
           (map (fun p => "(" ++ Py.str_of_int (fst p) ++ ", '" ++ snd p ++ "')")
              recipients)
      ++ "}"
  end.

(** A server that holds [messages], all of them unread by every user, and
    knows the context messages [context_of] of each message. *)
Definition server (users : list UserProfile) (messages : list Message)
    (context_of : Message -> list Message) : Collaborators :=
  {| lower := ascii_lower;
     gettext := PlainText.gettext_untranslated;
     get_user_profile_by_id := fun id => List.find (fun u => Z.eqb (user_id u) id) users;
     get_stream := fun id => if Z.eqb id 1 then Some (mkStream 1 "Denmark") else None;
     get_display_recipient := fun r =>
       match recipient_type r with
       | STREAM => DisplayStream "Denmark"
       | PERSONAL => DisplayUsers [mkUserDisplayRecipient 10 "King Hamlet"]
       | HUDDLE =>
           DisplayUsers
             [mkUserDisplayRecipient 10 "King Hamlet";
              mkUserDisplayRecipient 11 "Othello";
              mkUserDisplayRecipient 12 "Iago";
              mkUserDisplayRecipient 13 "Cordelia";
              mkUserDisplayRecipient 14 "Prospero"]
       end;
     all_messages := messages;
     usermessage_read := fun _ _ => Some false;
     get_context_for_message := context_of;
     bulk_access_messages := fun _ l => l;
     personal_narrow_url := fun r u => uri r ++ "/#narrow/dm/" ++ email u;
     huddle_narrow_url := fun r _ => uri r ++ "/#narrow/dm/group";
     topic_narrow_url := fun r s t => uri r ++ "/#narrow/stream/" ++ stream_name s ++ "/topic/" ++ t;
     stream_narrow_url := fun r s => uri r ++ "/#narrow/stream/" ++ stream_name s;
     one_click_unsubscribe_link := fun _ kind => "/unsubscribe/" ++ kind;
     common_context := fun u => [("realm_uri", VStr (uri (realm u)))];
     get_mentioned_user_group_name := fun _ _ => None;
     create_missed_message_address := fun _ _ => "mm@example.com";
     get_topic_resolution_and_bare_name := fun t => (false, t);
     format_address := fun name addr => name ++ " <" ++ addr ++ ">";
     timezone_now := 1000;
     EMAIL_GATEWAY_PATTERN := "%s@example.com";
     SEND_MISSED_MESSAGE_EMAILS_AS_USER := false;
     NOREPLY := "noreply@example.com";
     repr_recipients := repr_in_order;
     list_of_senders := fun senders => senders |}.

(** Markup machinery that keeps the rendered text as the text of the
    fragment and changes nothing in it. *)
Definition rendering : Rendering :=
  {| FENCE_RE_match := PlainText.FENCE_RE;
     sub_image_urls := fun s => s;
     sub_user_uploads := fun _ s => s;
     fragment_fromstring := fun s => Html.Element 0 "div" [] (Some s) [] None;
     iterlinks := fun _ => [];
     make_links_absolute := fun _ f => f;
     fix_emojis := fun f _ _ => Ok f;
     fix_spoilers_in_html := fun f _ => Ok f;
     tostring := fun f => Py.or_empty (Html.text f);
     prepend_sender_html := fun html sender => "<b>" ++ sender ++ "</b>: " ++ html |}.

(** Markup machinery whose HTML steps always raise. *)
Definition broken_rendering : Rendering :=
  {| FENCE_RE_match := PlainText.FENCE_RE;
     sub_image_urls := fun s => s;
     sub_user_uploads := fun _ s => s;
     fragment_fromstring := fun s => Html.Element 0 "div" [] (Some s) [] None;
     iterlinks := fun _ => [];
     make_links_absolute := fun _ f => f;
     fix_emojis := fun _ _ _ => Raised (AssertionError "");
     fix_spoilers_in_html := fun _ _ => Raised IndexError;
     tostring := fun f => Py.or_empty (Html.text f);
     prepend_sender_html := fun html sender => html |}.

(** The message before [msg] in its conversation, as its context. *)
Definition earlier_message (msg : Message) : list Message :=
  [mkMessage (message_id msg - 1) iago (recipient msg) (topic_name msg)
     (date_sent msg - 1) "earlier" (Some "<p>earlier</p>")].

(** A text with a spoiler and a code block. *)
Definition spoiler_text : string :=
  Py.join Py.nl
    ["before"; "```spoiler header text"; "secret"; "```"; "```python"; "x = 1"; "```"].

(** A code block and nothing else. *)
Definition code_text : string := Py.join Py.nl ["```python"; "print(1)"; "```"].

(** A message that is nothing but an inline image preview. *)
Definition image_only : Html.HtmlElement :=
  Html.Element 0 "div" [] None
    [Html.Element 1 "div" [("class", "message_inline_image")] None
       [Html.Element 2 "a"
          [("href", "https://example.com/logo.png"); ("title", "logo.png")] None
          [Html.Element 3 "img" [("src", "/thumbnail/logo.png")] None [] None]
          None]
       None]
    None.

(** Some text, then nothing but an inline image preview without a title. *)
Definition image_after_text : Html.HtmlElement :=
  Html.Element 0 "div" [] (Some "Look: ")
    [Html.Element 1 "div" [("class", "message_inline_image")] None
       [Html.Element 2 "a" [("href", "https://example.com/logo.png")] None
          [Html.Element 3 "img" [("src", "/thumbnail/logo.png")] None [] None]
          None]
       None]
    None.

(** A message that is nothing but a video preview: an inline image container
    whose class attribute names a second class. *)
Definition video_only : Html.HtmlElement :=
  Html.Element 0 "div" [] None
    [Html.Element 1 "div" [("class", "youtube-video message_inline_image")] None
       [Html.Element 2 "a" [("href", "https://example.com/watch")] None
          [Html.Element 3 "img" [("src", "/thumbnail/watch.jpg")] None [] None]
          None]
       None]
    None.

(** A paragraph followed by an inline image preview and a second paragraph
    that holds another preview. *)
Definition text_and_images : Html.HtmlElement :=
  Html.Element 0 "div" [] None
    [Html.Element 1 "p" [] (Some "See this") [] None;
     Html.Element 2 "div" [("class", "message_inline_image")] None
       [Html.Element 3 "a" [("href", "https://example.com/logo.png")] None
          [Html.Element 4 "img" [("src", "/thumbnail/logo.png")] None [] None]
          None]
       (Some " and ");
     Html.Element 5 "blockquote" [] None
       [Html.Element 6 "div" [("class", "youtube-video message_inline_image")] None
          [] (Some "that")]
       None]
    None.

(** Messages out of order in time, in three runs of topics once sorted. *)
Definition four_messages : list Message :=
  [stream_message 4 othello "Alpha" 40;
   stream_message 1 othello "alpha" 10;
   stream_message 3 iago "beta" 30;
   stream_message 2 iago "alpha" 20].

(** Three conversations whose latest messages are 50, 10 and 30. *)
Definition three_topics : list Message :=
  [stream_message 50 othello "a" 1;
   stream_message 10 othello "b" 2;
   stream_message 30 othello "c" 3].

(** Two unread messages of one topic. *)
Definition two_unread : list Message :=
  [stream_message 7 othello "alpha" 70;
   stream_message 9 cordelia "Alpha" 90].

Definition one_direct : list MissedMessage :=
  [mkMissedMessage (direct_message 1 othello "" 5) (Some "private_message") None].

(** Two direct messages of one sender. *)
Definition two_direct : list Message :=
  [direct_message 1 othello "" 5;
   direct_message 2 othello "" 6].

(** Direct messages of two senders, a group message and stream messages of
    two topics, one of them written in two ways, handed over out of order. *)
Definition mixed_messages : list Message :=
  [direct_message 7 othello "" 70;
   stream_message 5 iago "Alpha" 50;
   direct_message 1 othello "" 10;
   huddle_message 3 cordelia 30;
   stream_message 6 iago "beta" 60;
   direct_message 2 iago "" 20;
   stream_message 4 othello "alpha" 40].

Definition mention_of (m : Message) : Event :=
  mkEvent (message_id m) (Some "mentioned") None.

Definition private_event (m : Message) : Event :=
  mkEvent (message_id m) (Some "private_message") None.

End Sample.

(** ** The migration of the invitation roles *)

Module Migration.

(** A row of [PreregistrationUser] or of [MultiuseInvite]: the column
    [invited_as], and the other columns. *)
Record Row (A : Type) : Type := mkRow {
  fields : A;
  invited_as : Z
}.

Arguments mkRow {A} fields invited_as.
Arguments fields {A} r.
Arguments invited_as {A} r.

(** The two tables that the migration touches. *)
Record Tables (A B : Type) : Type := mkTables {
  PreregistrationUser : list (Row A);
  MultiuseInvite : list (Row B)
}.

Arguments mkTables {A B} PreregistrationUser MultiuseInvite.
Arguments PreregistrationUser {A B} t.
Arguments MultiuseInvite {A B} t.

Definition OLD_INVITE_AS_DICT : list (string * Z) :=
  [("MEMBER", 1); ("REALM_ADMIN", 2); ("GUEST_USER", 3); ("REALM_OWNER", 4)].

Definition NEW_INVITE_AS_DICT : list (string * Z) :=
  [("REALM_OWNER", 100); ("REALM_ADMIN", 200); ("MEMBER", 400); ("GUEST_USER", 600)].

(** [d[k]]. *)
Definition item (d : list (string * Z)) (k : string) : Result Z :=
  match PyDict.get String.eqb k d with
  | Some v => Ok v
  | None => Raised KeyError
  end.

(** [objects.filter(invited_as=old).update(invited_as=new)]. *)
Definition filter_update {A : Type} (old new : Z) (rows : list (Row A)) : list (Row A) :=
  map (fun r => if Z.eqb (invited_as r) old then mkRow (fields r) new else r) rows.

(** One statement of the migration, for the role [role]. *)
Definition update_role {A : Type} (role : string) (rows : list (Row A))
  : Result (list (Row A)) :=
  old <- item OLD_INVITE_AS_DICT role ;;
  new <- item NEW_INVITE_AS_DICT role ;;
  Ok (filter_update old new rows).

(** [update_invite_as_dict_values]. *)
Definition update_invite_as_dict_values {A B : Type} (db : Tables A B)
  : Result (Tables A B) :=
  pre <- update_role "REALM_OWNER" (PreregistrationUser db) ;;
  pre <- update_role "REALM_ADMIN" pre ;;
  pre <- update_role "MEMBER" pre ;;
  pre <- update_role "GUEST_USER" pre ;;
  multi <- update_role "REALM_OWNER" (MultiuseInvite db) ;;
  multi <- update_role "REALM_ADMIN" multi ;;
  multi <- update_role "MEMBER" multi ;;
  multi <- update_role "GUEST_USER" multi ;;
  Ok (mkTables pre multi).

End Migration.

(** ** The welcome emails *)

Module Welcome.

Import Model.

(** A user as the welcome emails read it: the profile, and the fields of the
    user and of the realm that only they need. *)
Record Account : Type := mkAccount {
  profile : UserProfile;
  timezone : string;
  (** [date_joined], a point in time *)
  date_joined : Z;
  delivery_email : string;
  is_realm_admin : bool;
  (** [realm.demo_organization_scheduled_deletion_date] *)
  demo_organization_scheduled_deletion_date : option Z
}.

(** An authentication backend: the LDAP backend with its
    [django_to_ldap_username], or another one. *)
Inductive Backend : Type :=
| ZulipLDAPAuthBackend (django_to_ldap_username : string -> Result string)
| OtherBackend.

(** One call of [send_future_email]. *)
Record FutureEmail : Type := mkFutureEmail {
  fe_template_prefix : string;
  fe_realm : Realm;
  fe_to_user_ids : list Z;
  fe_from_name : option string;
  fe_from_address : string;
  fe_context : Context;
  (** [delay], a [timedelta] in seconds; [None] when it is not given *)
  fe_delay : option Z
}.

(** What the welcome emails need from the rest of the server. *)
Record Settings : Type := mkSettings {
  (** [date.astimezone(zoneinfo.ZoneInfo(tz)).isoweekday()]: the point in
      time, then the name of the zone; an unknown zone is a [KeyError] *)
  local_isoweekday : Z -> string -> Result Z;
  (** [settings.WELCOME_EMAIL_SENDER] *)
  WELCOME_EMAIL_SENDER : option (list (string * string));
  (** [FromAddress.support_placeholder] *)
  support_placeholder : string;
  (** the rows of [UserProfile] *)
  accounts : list Account;
  (** the comparison of [delivery_email__iexact] *)
  iexact : string -> string -> bool;
  email_belongs_to_ldap : Realm -> string -> bool;
  get_backends : list Backend
}.

Section Emails.

Variable E : Collaborators.
Variable S : Settings.

(** [timedelta(days=..., hours=...)], in seconds. *)
Definition timedelta (days hours : Z) : Z := days * 86400 + hours * 3600.

(** [followup_day2_email_delay]. *)
Definition followup_day2_email_delay (user : Account) : Result Z :=
  let days_to_delay := 2 in
  let user_tz := timezone user in
  let user_tz := if String.eqb user_tz "" then "UTC" else user_tz in
  signup_day <- local_isoweekday S (date_joined user) user_tz ;;
  let days_to_delay :=
    if Z.eqb signup_day 5 then 3
    else if Z.eqb signup_day 4 then 1
    else days_to_delay in
  Ok (timedelta days_to_delay (-1)).

(** [d[k]] on a dictionary of strings. *)
Definition item (d : list (string * string)) (k : string) : Result string :=
  match PyDict.get String.eqb k d with
  | Some v => Ok v
  | None => Raised KeyError
  end.

(** The loop over the backends of lines 712 to 718: the LDAP user name that
    the first LDAP backend gives. *)
Fixpoint ldap_username (backends : list Backend) (email : string)
  : Result (option string) :=
  match backends with
  | [] => Ok None
  | ZulipLDAPAuthBackend django_to_ldap_username :: _ =>
      name <- django_to_ldap_username email ;;
      Ok (Some name)
  | OtherBackend :: rest => ldap_username rest email
  end.

Definition other_account_count (user : Account) : Z :=
  Z.of_nat
    (List.length
       (filter
          (fun a =>
             iexact S (delivery_email a) (delivery_email user)
             && negb (Z.eqb (user_id (profile a)) (user_id (profile user))))
          (accounts S))).

(** What [enqueue_welcome_emails] computes before its first email. *)
Definition welcome_email (user : Account) (realm_creation : bool)
  : Result FutureEmail :=
  '(from_name, from_address) <-
    match WELCOME_EMAIL_SENDER S with
    | Some sender =>
        from_name <- item sender "name" ;;
        from_address <- item sender "email" ;;
        Ok (Some from_name, from_address)
    | None => Ok (None, support_placeholder S)
    end ;;
  let realm := realm (profile user) in
  let unsubscribe_link := one_click_unsubscribe_link E (profile user) "welcome" in
  let context := common_context E (profile user) in
  let context :=
    MissedMessages.update context
      [("unsubscribe_link", VStr unsubscribe_link);
       ("keyboard_shortcuts_link", VStr (uri realm ++ "/help/keyboard-shortcuts"));
       ("realm_name", VStr (realm_name realm));
       ("realm_creation", VBool realm_creation);
       ("email", VStr (delivery_email user));
       ("is_realm_admin", VBool (is_realm_admin user));
       ("is_demo_org",
        VBool (match demo_organization_scheduled_deletion_date user with
               | Some _ => true
               | None => false
               end))] in
  let context :=
    MissedMessages.update context
      [("getting_organization_started_link",
        VStr (uri realm ++ "/help/getting-your-organization-started-with-zulip"))] in
  let context :=
    MissedMessages.update context
      [("getting_user_started_link",
        VStr (uri realm ++ "/help/getting-started-with-zulip"))] in
  context <-
    (if email_belongs_to_ldap S realm (delivery_email user) then
       let context := MissedMessages.update context [("ldap", VBool true)] in
       name <- ldap_username (get_backends S) (delivery_email user) ;;
       match name with
       | Some name => Ok (MissedMessages.update context [("ldap_username", VStr name)])
       | None => Ok context
       end
     else Ok context) ;;
  Ok (mkFutureEmail "zerver/emails/followup_day1" realm [user_id (profile user)]
        from_name from_address context None).

(** [enqueue_welcome_emails]: the emails in the order in which they are
    handed to [send_future_email], and the outcome. *)
Definition enqueue_welcome_emails (user : Account) (realm_creation : bool)
  : list FutureEmail * Result unit :=
  match welcome_email user realm_creation with
  | Raised e => ([], Raised e)
  | Ok day1 =>
      if Z.eqb (other_account_count user) 0 then
        match followup_day2_email_delay user with
        | Raised e => ([day1], Raised e)
        | Ok delay =>
            ([day1;
              mkFutureEmail "zerver/emails/followup_day2" (fe_realm day1)
                (fe_to_user_ids day1) (fe_from_name day1) (fe_from_address day1)
                (fe_context day1) (Some delay)],
             Ok tt)
        end
      else ([day1], Ok tt)
  end.

End Emails.

End Welcome.

(** ** The HTML content rewriter: emoji *)

Module Emoji.

Import Html.

(** The byte at position [n] of a text, 256 past its end. *)
Definition byte_at (s : string) (n : nat) : nat :=
  match String.get n s with
  | Some c => nat_of_ascii c
  | None => 256%nat
  end.

(** The text begins with a character that [\s] of Python's [re] matches on
    a [str].  A [str] is held as its UTF-8 bytes; the white space of [re] is
    the characters 9 to 13 and 28 to 32 of ASCII and U+0085, U+00A0, U+1680,
    U+2000 to U+200A, U+2028, U+2029, U+202F, U+205F and U+3000. *)
Definition is_re_space (s : string) : bool :=
  let b0 := byte_at s 0 in
  let b1 := byte_at s 1 in
  let b2 := byte_at s 2 in
  ((9 <=? b0) && (b0 <=? 13)
   || (28 <=? b0) && (b0 <=? 32)
   || (b0 =? 194) && ((b1 =? 133) || (b1 =? 160))
   || (b0 =? 225) && (b1 =? 154) && (b2 =? 128)
   || (b0 =? 226) && (b1 =? 128)
      && ((128 <=? b2) && (b2 <=? 138) || (b2 =? 168) || (b2 =? 169) || (b2 =? 175))
   || (b0 =? 226) && (b1 =? 129) && (b2 =? 159)
   || (b0 =? 227) && (b1 =? 128) && (b2 =? 128))%nat.

(** What [\S+] takes at the start of a text: everything up to the first
    white-space character. *)
Fixpoint non_space_run (s : string) : string :=
  match s with
  | EmptyString => EmptyString
  | String c rest =>
      if is_re_space s then EmptyString else String c (non_space_run rest)
  end.

(** [re.search(r"emoji-(?P<emoji_code>\S+)", classes)]: the group
    [emoji_code] of the leftmost match, [None] when there is no match. *)
Fixpoint search_emoji_code (classes : string) : option string :=
  match classes with
  | EmptyString => None
  | String _ rest =>
      match strip_prefix "emoji-" classes with
      | Some after =>
          let code := non_space_run after in
          if String.eqb code "" then search_emoji_code rest else Some code
      | None => search_emoji_code rest
      end
  end.

(** [make_emoji_img_elem]; [classes] is the [class] attribute of the span,
    which is there since the selector found the span by it, and [fresh] the
    identity of the new element.  The element builder refuses an attribute
    whose value is [None]. *)
Definition make_emoji_img_elem (fresh : nat) (base_url emojiset : string)
    (emoji_span_elem : HtmlElement) (classes : string) : Result HtmlElement :=
  match search_emoji_code classes with
  | None => Raised (AssertionError "")
  | Some emoji_code =>
      let emoji_name := get emoji_span_elem "title" in
      let alt_code := text emoji_span_elem in
      let image_url :=
        base_url ++ "/static/generated/emoji/images-" ++ emojiset ++ "-64/"
        ++ emoji_code ++ ".png" in
      match alt_code, emoji_name with
      | Some alt, Some title =>
          Ok (Element fresh "img"
                [("alt", alt); ("src", image_url); ("title", title);
                 ("style", "height: 20px;")]
                None [] (tail emoji_span_elem))
      | _, _ => Raised KeyError
      end
  end.

(** [fragment.cssselect("span.emoji")]: the [span] elements of the tree, the
    root included, whose [class] attribute names [emoji], in document order,
    each with its [class] attribute. *)
Fixpoint select_span_emoji (e : HtmlElement) : list (HtmlElement * string) :=
  match e with
  | Element _ tg _ _ cs _ =>
      (match get e "class" with
       | Some classes =>
           if String.eqb tg "span" && existsb (String.eqb "emoji") (class_names classes)
           then [(e, classes)] else []
       | None => []
       end ++ flat_map select_span_emoji cs)%list
  end.

(** [parent.replace(old, new)] seen from the root, for the element [old] of
    identity [i]: [new] takes its place, with its own tail.  An element that
    left the tree with an ancestor is replaced where it is now, and the tree
    stays as it is. *)
Fixpoint replace_below (i : nat) (new : HtmlElement) (e : HtmlElement) : HtmlElement :=
  match e with
  | Element id tg a tx cs tl =>
      Element id tg a tx
        (map (fun k => if Nat.eqb (ident k) i then new else replace_below i new k) cs)
        tl
  end.

(** One turn of the first loop of [fix_emojis]; the state is the fragment
    and the identity of the next new element.  The root has no parent. *)
Definition emoji_step (base_url emojiset : string) (root : nat)
    (st : HtmlElement * nat) (selected : HtmlElement * string)
  : Result (HtmlElement * nat) :=
  let '(fragment, fresh) := st in
  let '(elem, classes) := selected in
  img_elem <- make_emoji_img_elem fresh base_url emojiset elem classes ;;
  if Nat.eqb (ident elem) root then Raised AttributeError
  else Ok (replace_below (ident elem) img_elem fragment, S fresh).

(** [del elem.attrib[name]] for an attribute that is there. *)
Definition del_attrib (e : HtmlElement) (name : string) : HtmlElement :=
  match e with
  | Element i tg a tx c t =>
      Element i tg (filter (fun kv => negb (String.eqb (fst kv) name)) a) tx c t
  end.

(** What the second loop does to an element of class [emoji]. *)
Definition restyle (realm_emoji : HtmlElement) : HtmlElement :=
  set (del_attrib realm_emoji "class") "style" "height: 20px;".

(** [fix_emojis]. *)
Definition fix_emojis (fragment : HtmlElement) (base_url emojiset : string)
  : Result HtmlElement :=
  '(fragment, _) <-
    rfold (emoji_step base_url emojiset (ident fragment))
      (select_span_emoji fragment) (fragment, S (max_ident fragment)) ;;
  Ok (fold_left (fun fr i => update_element i restyle fr)
        (find_class "emoji" fragment) fragment).

End Emoji.

(** ** More samples *)

Module MoreSamples.

Import Model.

(** A spoiler that holds a fenced block of another fence, with text before
    and after. *)
Definition spoiler_lines_before : list string := ["before"].
Definition spoiler_lines_inside : list string := ["secret"; "~~~~"; "more"; "~~~~"].
Definition spoiler_lines_after : list string := ["after"].

(** What follows the opening fence of a spoiler that is never closed: a
    second spoiler with a longer fence, and a fence that closes neither. *)
Definition open_spoiler_rest : list string :=
  ["secret"; "````spoiler deeper"; "hidden"; "```"; "to the end"].

(** A stream message that reaches the emitter for no reason that it knows. *)
Definition stray_stream_message : list MissedMessage :=
  [mkMissedMessage (Sample.stream_message 1 Sample.othello "alpha" 5)
     (Some "private_message") None].

(** A direct message, as the bucketer hands it over. *)
Definition one_direct_message : list MissedMessage :=
  [mkMissedMessage (Sample.direct_message 1 Sample.othello "" 5)
     (Some "private_message") None].

(** The links in [href] attributes, in document order: what [iterlinks]
    yields for markup whose only links are anchors. *)
Fixpoint hrefs (e : Html.HtmlElement) : list (nat * string * string) :=
  match e with
  | Html.Element i _ a _ cs _ =>
      (match PyDict.get String.eqb "href" a with
       | Some link => [(i, "href", link)]
       | None => []
       end ++ flat_map hrefs cs)%list
  end.

(** A paragraph with a narrow link, and an inline image preview. *)
Definition link_and_image : Html.HtmlElement :=
  Html.Element 0 "div" [] None
    [Html.Element 1 "p" [] (Some "See ")
       [Html.Element 2 "a"
          [("href", "#narrow/stream/1-Denmark"); ("title", "#narrow/stream/1-Denmark")]
          (Some "Denmark") [] None]
       None;
     Html.Element 3 "div" [("class", "message_inline_image")] None
       [Html.Element 4 "a" [("href", "/user_uploads/1/logo.png")] None [] None]
       (Some "!")]
    None.

(** A paragraph with an emoji span between two words and an image of a
    realm emoji. *)
(** U+00A0, the no-break space, in UTF-8. *)
Definition no_break_space : string :=
  String (ascii_of_nat 194) (String (ascii_of_nat 160) "").

(** The span of an emoji. *)
Definition grinning : Html.HtmlElement :=
  Html.Element 2 "span"
    [("aria-label", "grinning"); ("class", "emoji emoji-1f600");
     ("role", "img"); ("title", "grinning")]
    (Some ":grinning:") [] (Some " there ").

Definition smile : Html.HtmlElement :=
  Html.Element 0 "div" [] None
    [Html.Element 1 "p" [] (Some "Hi ")
       [Html.Element 2 "span"
          [("aria-label", "grinning"); ("class", "emoji emoji-1f600");
           ("role", "img"); ("title", "grinning")]
          (Some ":grinning:") [] (Some " there ");
        Html.Element 3 "img"
          [("class", "emoji"); ("src", "/user_avatars/1/emoji/zulip.png")]
          None [] None]
       None]
    None.

(** A new user, alone with the address, who joined on day 4 of some week. *)
Definition newcomer : Welcome.Account :=
  Welcome.mkAccount Sample.hamlet "" 3 "hamlet@example.com" false None.

(** The same address once more, in capitals, under another id. *)
Definition twin : Welcome.Account :=
  Welcome.mkAccount Sample.othello "Europe/Copenhagen" 3 "HAMLET@EXAMPLE.COM" false None.

Definition settings (accounts : list Welcome.Account) : Welcome.Settings :=
  {| Welcome.local_isoweekday := fun date tz =>
       if String.eqb tz "Mars/Olympus" then Raised KeyError else Ok (date mod 7 + 1);
     Welcome.WELCOME_EMAIL_SENDER := None;
     Welcome.support_placeholder := "SUPPORT";
     Welcome.accounts := accounts;
     Welcome.iexact := fun a b => String.eqb (Sample.ascii_lower a) (Sample.ascii_lower b);
     Welcome.email_belongs_to_ldap := fun _ _ => false;
     Welcome.get_backends := [Welcome.OtherBackend] |}.

End MoreSamples.

(** * Properties *)

(** ** Python primitives *)

Module PyFacts.

Import Py.

Lemma split_not_nil (s : string) : split s <> [].
Proof.
  induction s as [|c r IH]; simpl; [discriminate|].
  destruct (Ascii.eqb c LF); [discriminate|].
  destruct (split r); discriminate.
Qed.

(** No line of [split] holds a line feed. *)
Lemma split_lines_no_LF (s : string) :
  Forall (fun l => contains_char LF l = false) (split s).
Proof.
  induction s as [|c r IH]; simpl.
  - constructor; [reflexivity|constructor].
  - destruct (Ascii.eqb c LF) eqn:E.
    + constructor; [reflexivity|exact IH].
    + destruct (split r) as [|h t]; inversion IH; subst.
      * constructor; [|constructor]. cbn [contains_char].
        rewrite (Ascii.eqb_sym LF c), E. reflexivity.
      * constructor; [|assumption]. cbn [contains_char].
        rewrite (Ascii.eqb_sym LF c), E. simpl. assumption.
Qed.

Lemma split_one_line (x : string) :
  contains_char LF x = false -> split x = [x].
Proof.
  induction x as [|c r IH]; cbn [contains_char split]; intros H; [reflexivity|].
  apply orb_false_iff in H as [Hc Hr].
  rewrite (Ascii.eqb_sym LF c) in Hc. rewrite Hc, (IH Hr). reflexivity.
Qed.

Lemma split_line_then (x r : string) :
  contains_char LF x = false -> split (x ++ String LF r) = x :: split r.
Proof.
  induction x as [|c x IH]; cbn [contains_char split append]; intros H.
  - rewrite Ascii.eqb_refl. reflexivity.
  - apply orb_false_iff in H as [Hc Hr].
    rewrite (Ascii.eqb_sym LF c) in Hc. rewrite Hc, (IH Hr). reflexivity.
Qed.

(** Splitting what [join] glued gives the lines back. *)
Lemma split_join (ls : list string) :
  ls <> [] ->
  Forall (fun l => contains_char LF l = false) ls ->
  split (join nl ls) = ls.
Proof.
  induction ls as [|x rest IH]; intros Hne Hall; [congruence|].
  inversion Hall as [|? ? Hx Hrest]; subst.
  destruct rest as [|y rest'].
  - simpl. apply split_one_line; assumption.
  - change (join nl (x :: y :: rest')) with (x ++ nl ++ join nl (y :: rest'))%string.
    unfold nl at 1. simpl append at 2.
    rewrite split_line_then by assumption.
    f_equal. apply IH; [discriminate|assumption].
Qed.

(** Joining the lines of a text gives the text back. *)
Lemma join_split (s : string) : join nl (split s) = s.
Proof.
  induction s as [|c r IH]; [reflexivity|].
  simpl split. destruct (Ascii.eqb c LF) eqn:E.
  - apply Ascii.eqb_eq in E; subst c.
    pose proof (split_not_nil r) as Hne.
    destruct (split r) as [|h t] eqn:Es; [congruence|].
    change (join nl ("" :: h :: t)) with ("" ++ nl ++ join nl (h :: t))%string.
    rewrite IH. reflexivity.
  - pose proof (split_not_nil r) as Hne.
    destruct (split r) as [|h t] eqn:Es; [congruence|].
    destruct t as [|h' t'].
    + simpl in *. congruence.
    + change (join nl (String c h :: h' :: t'))
        with (String c (h ++ nl ++ join nl (h' :: t')))%string.
      change (join nl (h :: h' :: t')) with (h ++ nl ++ join nl (h' :: t'))%string in IH.
      rewrite IH. reflexivity.
Qed.

Lemma append_assoc (a b c : string) : (a ++ b) ++ c = a ++ (b ++ c).
Proof. induction a as [|x a IH]; simpl; [reflexivity|]. rewrite IH. reflexivity. Qed.

Lemma contains_char_app (c : ascii) (a b : string) :
  contains_char c (a ++ b) = contains_char c a || contains_char c b.
Proof.
  induction a as [|d a IH]; simpl; [reflexivity|].
  rewrite IH, orb_assoc. reflexivity.
Qed.

Section SortFacts.
Context {A : Type}.
Variable key : A -> Z.

Lemma insert_sorted_perm (x : A) (l : list A) :
  Permutation (x :: l) (insert_sorted key x l).
Proof.
  induction l as [|y ys IH]; simpl; [apply Permutation_refl|].
  destruct (key x <=? key y); [apply Permutation_refl|].
  eapply Permutation_trans; [apply perm_swap|]. apply perm_skip, IH.
Qed.

Lemma sorted_perm (l : list A) : Permutation l (sorted key l).
Proof.
  induction l as [|x xs IH]; simpl; [constructor|].
  eapply Permutation_trans; [apply perm_skip, IH|apply insert_sorted_perm].
Qed.

Definition ascending (l : list A) : Prop :=
  Sorted (fun a b => key a <= key b) l.

Lemma insert_sorted_ascending (x : A) (l : list A) :
  ascending l -> ascending (insert_sorted key x l).
Proof.
  unfold ascending. induction l as [|y ys IH]; simpl; intros Hs.
  - repeat constructor.
  - destruct (key x <=? key y) eqn:E.
    + constructor; [assumption|]. constructor. apply Z.leb_le, E.
    + apply Z.leb_gt in E. inversion Hs as [|? ? Hys Hhd]; subst.
      constructor; [apply IH, Hys|].
      destruct ys as [|z zs]; simpl.
      * constructor. lia.
      * destruct (key x <=? key z); constructor; [lia|].
        inversion Hhd; subst. assumption.
Qed.

Lemma sorted_ascending (l : list A) : ascending (sorted key l).
Proof.
  induction l as [|x xs IH]; simpl; [constructor|].
  apply insert_sorted_ascending, IH.
Qed.

(** The sort is stable: elements with one key keep their order. *)
Lemma insert_sorted_filter (k : Z) (x : A) (l : list A) :
  ascending l ->
  filter (fun a => key a =? k) (insert_sorted key x l)
  = filter (fun a => key a =? k) (x :: l).
Proof.
  unfold ascending. induction l as [|y ys IH]; intros Hs; [reflexivity|].
  simpl insert_sorted. destruct (key x <=? key y) eqn:E; [reflexivity|].
  apply Z.leb_gt in E. inversion Hs as [|? ? Hys Hhd]; subst.
  simpl filter at 1. rewrite (IH Hys). simpl.
  destruct (key x =? k) eqn:Ex, (key y =? k) eqn:Ey; try reflexivity.
  apply Z.eqb_eq in Ex, Ey. lia.
Qed.

Lemma sorted_stable (k : Z) (l : list A) :
  filter (fun a => key a =? k) (sorted key l) = filter (fun a => key a =? k) l.
Proof.
  induction l as [|x xs IH]; [reflexivity|].
  simpl sorted. rewrite insert_sorted_filter by apply sorted_ascending.
  simpl. rewrite IH. reflexivity.
Qed.

Lemma sorted_length (l : list A) : List.length (sorted key l) = List.length l.
Proof. symmetry. apply Permutation_length, sorted_perm. Qed.

Lemma min_by_in (l : list A) (m : A) : min_by key l = Some m -> In m l.
Proof.
  revert m. induction l as [|x xs IH]; simpl; intros m H; [discriminate|].
  destruct (min_by key xs) as [m'|].
  - destruct (key x <=? key m'); inversion H; subst; auto.
  - inversion H; auto.
Qed.

Lemma min_by_some (l : list A) : l <> [] -> exists m, min_by key l = Some m.
Proof.
  destruct l as [|x xs]; [congruence|]. intros _. simpl.
  destruct (min_by key xs) as [m'|]; [destruct (key x <=? key m')|]; eauto.
Qed.

Lemma max_by_in (l : list A) (m : A) : max_by key l = Some m -> In m l.
Proof.
  revert m. induction l as [|x xs IH]; simpl; intros m H; [discriminate|].
  destruct (max_by key xs) as [m'|].
  - destruct (key m' <=? key x); inversion H; subst; auto.
  - inversion H; auto.
Qed.

Lemma max_by_some (l : list A) : l <> [] -> exists m, max_by key l = Some m.
Proof.
  destruct l as [|x xs]; [congruence|]. intros _. simpl.
  destruct (max_by key xs) as [m'|]; [destruct (key m' <=? key x)|]; eauto.
Qed.

Lemma max_by_upper (l : list A) (m : A) :
  max_by key l = Some m -> forall a, In a l -> key a <= key m.
Proof.
  revert m. induction l as [|x xs IH]; simpl; intros m H a Ha; [contradiction|].
  destruct (max_by key xs) as [m'|] eqn:E.
  - destruct (key m' <=? key x) eqn:Le; inversion H; subst; clear H.
    + apply Z.leb_le in Le. destruct Ha as [->|Ha]; [lia|].
      specialize (IH m' eq_refl a Ha). lia.
    + apply Z.leb_gt in Le. destruct Ha as [->|Ha]; [lia|].
      apply (IH m eq_refl a Ha).
  - inversion H; subst. destruct Ha as [->|Ha]; [lia|].
    destruct xs; [contradiction|]. simpl in E.
    destruct (max_by key xs); [destruct (key a1 <=? key a0)|]; discriminate.
Qed.

End SortFacts.

End PyFacts.

(** ** The plain-text spoiler rewriter *)

Module PlainTextFacts.

Import PlainText.

Section Loop.

Variable FENCE_RE_match : string -> option FenceMatch.
Variable gettext : string -> string -> string.
Variable language : string.

Local Abbreviation step := (spoiler_step FENCE_RE_match gettext language).
Local Abbreviation redaction := (redaction_line gettext language).

(** What one line appends to [output], and the fence left open after it. *)
Definition line_effect (open_fence : option string) (line : string)
  : option string * list string :=
  match FENCE_RE_match line with
  | Some m =>
      if Py.str_eq_opt "spoiler" (lang m) then (Some (fence m), [line; redaction])
      else if Py.str_eq_opt (fence m) open_fence then (None, [line])
      else (open_fence, [])
  | None =>
      if negb (Py.truthy open_fence) then (open_fence, [line]) else (open_fence, [])
  end.

(** The lines the loop appends when it starts with [open_fence]. *)
Fixpoint emitted (open_fence : option string) (lines : list string) : list string :=
  match lines with
  | [] => []
  | line :: rest =>
      let '(open_fence', chunk) := line_effect open_fence line in
      (chunk ++ emitted open_fence' rest)%list
  end.

Lemma spoiler_step_effect (open_fence : option string) (output : list string) (line : string) :
  step (open_fence, output) line
  = (fst (line_effect open_fence line),
     (output ++ snd (line_effect open_fence line))%list).
Proof.
  unfold spoiler_step, line_effect.
  destruct (FENCE_RE_match line) as [m|].
  - destruct (Py.str_eq_opt "spoiler" (lang m)); [reflexivity|].
    destruct (Py.str_eq_opt (fence m) open_fence); [reflexivity|].
    simpl. rewrite app_nil_r. reflexivity.
  - destruct (negb (Py.truthy open_fence)); [reflexivity|].
    simpl. rewrite app_nil_r. reflexivity.
Qed.

Lemma loop_output (lines : list string) (open_fence : option string) (output : list string) :
  snd (fold_left step lines (open_fence, output))
  = (output ++ emitted open_fence lines)%list.
Proof.
  revert open_fence output.
  induction lines as [|line rest IH]; intros open_fence output; cbn [fold_left].
  - simpl. rewrite app_nil_r. reflexivity.
  - rewrite spoiler_step_effect, IH. cbn [emitted].
    destruct (line_effect open_fence line) as [o chunk]; cbn [fst snd].
    rewrite <- app_assoc. reflexivity.
Qed.

Lemma fix_spoilers_in_text_emitted (content : string) :
  fix_spoilers_in_text FENCE_RE_match gettext content language
  = Py.join Py.nl (emitted None (Py.split content)).
Proof.
  unfold fix_spoilers_in_text.
  pose proof (loop_output (Py.split content) None []) as H.
  destruct (fold_left step (Py.split content) (None, [])) as [o out].
  simpl in H. rewrite H. reflexivity.
Qed.

(** A line that is no fence and stands outside an open spoiler is kept. *)
Lemma plain_line_outside_kept (output : list string) (line : string) :
  FENCE_RE_match line = None ->
  step (None, output) line = (None, (output ++ [line])%list).
Proof. intros H. unfold spoiler_step. rewrite H. reflexivity. Qed.

(** A fence line that opens no spoiler and stands outside an open spoiler is
    dropped: the branch for fence lines appends nothing in that case. *)
Lemma fence_line_outside_dropped (output : list string) (line : string) (m : FenceMatch) :
  FENCE_RE_match line = Some m ->
  Py.str_eq_opt "spoiler" (lang m) = false ->
  step (None, output) line = (None, output).
Proof. intros H Hl. unfold spoiler_step. rewrite H, Hl. reflexivity. Qed.

(** *** Idempotence *)

(** The fence pattern only matches lines that start with a fence character,
    and the fence it reports is not empty. *)
Hypothesis FENCE_RE_fence : forall line m,
  FENCE_RE_match line = Some m ->
  fence m <> "" /\
  exists c rest, line = String c rest /\ is_fence_char c = true.

(** The translated title is one line. *)
Hypothesis title_one_line :
  Py.contains_char Py.LF (spoiler_title gettext language) = false.

Lemma redaction_no_match : FENCE_RE_match redaction = None.
Proof.
  destruct (FENCE_RE_match redaction) as [m|] eqn:E; [|reflexivity].
  destruct (FENCE_RE_fence _ _ E) as [_ (c & rest & Hl & Hc)].
  unfold redaction_line in Hl. simpl in Hl. inversion Hl; subst c.
  discriminate.
Qed.

Lemma empty_no_match : FENCE_RE_match "" = None.
Proof.
  destruct (FENCE_RE_match "") as [m|] eqn:E; [|reflexivity].
  destruct (FENCE_RE_fence _ _ E) as [_ (c & rest & Hl & _)]. discriminate.
Qed.

Lemma redaction_no_LF : Py.contains_char Py.LF redaction = false.
Proof.
  unfold redaction_line. rewrite !PyFacts.contains_char_app.
  rewrite title_one_line. reflexivity.
Qed.

(** The states the loop can be in: no fence open, or a non-empty one. *)
Definition fence_state (open_fence : option string) : Prop :=
  match open_fence with
  | None => True
  | Some f => f <> ""
  end.

Lemma fence_state_truthy (f : string) : f <> "" -> Py.truthy (Some f) = true.
Proof.
  intros H. simpl. destruct (String.eqb_spec f ""); [contradiction|reflexivity].
Qed.

(** Running the loop over its own output changes nothing. *)
Lemma emitted_emitted (lines : list string) (open_fence : option string) :
  fence_state open_fence ->
  emitted open_fence (emitted open_fence lines) = emitted open_fence lines.
Proof.
  revert open_fence.
  induction lines as [|line rest IH]; intros open_fence Hst; [reflexivity|].
  cbn [emitted]. unfold line_effect.
  destruct (FENCE_RE_match line) as [m|] eqn:Em.
  - destruct (FENCE_RE_fence _ _ Em) as [Hf _].
    destruct (Py.str_eq_opt "spoiler" (lang m)) eqn:Es.
    + cbn [app emitted]. unfold line_effect. rewrite Em, Es.
      rewrite redaction_no_match, (fence_state_truthy _ Hf). cbn [negb app].
      rewrite (IH (Some (fence m)) Hf). reflexivity.
    + destruct (Py.str_eq_opt (fence m) open_fence) eqn:Ec.
      * cbn [app emitted]. unfold line_effect. rewrite Em, Es, Ec.
        cbn [app]. rewrite (IH None I). reflexivity.
      * cbn [app]. apply IH, Hst.
  - destruct (negb (Py.truthy open_fence)) eqn:Et.
    + cbn [app emitted]. unfold line_effect. rewrite Em, Et.
      cbn [app]. rewrite (IH open_fence Hst). reflexivity.
    + cbn [app]. apply IH, Hst.
Qed.

Lemma emitted_no_LF (lines : list string) (open_fence : option string) :
  Forall (fun l => Py.contains_char Py.LF l = false) lines ->
  Forall (fun l => Py.contains_char Py.LF l = false) (emitted open_fence lines).
Proof.
  revert open_fence.
  induction lines as [|line rest IH]; intros open_fence Hall; [constructor|].
  inversion Hall as [|? ? Hl Hrest]; subst.
  cbn [emitted]. unfold line_effect.
  destruct (FENCE_RE_match line) as [m|].
  - destruct (Py.str_eq_opt "spoiler" (lang m)).
    + cbn [app]. constructor; [assumption|].
      constructor; [apply redaction_no_LF|]. apply IH, Hrest.
    + destruct (Py.str_eq_opt (fence m) open_fence); cbn [app].
      * constructor; [assumption|]. apply IH, Hrest.
      * apply IH, Hrest.
  - destruct (negb (Py.truthy open_fence)); cbn [app].
    + constructor; [assumption|]. apply IH, Hrest.
    + apply IH, Hrest.
Qed.

Lemma fix_spoilers_in_text_twice (content : string) :
  fix_spoilers_in_text FENCE_RE_match gettext
    (fix_spoilers_in_text FENCE_RE_match gettext content language) language
  = fix_spoilers_in_text FENCE_RE_match gettext content language.
Proof.
  rewrite !fix_spoilers_in_text_emitted.
  destruct (emitted None (Py.split content)) as [|l ls] eqn:E.
  - cbn [Py.join Py.split emitted]. unfold line_effect.
    rewrite empty_no_match. reflexivity.
  - rewrite PyFacts.split_join.
    + rewrite <- E, emitted_emitted; [reflexivity|exact I].
    + discriminate.
    + rewrite <- E. apply emitted_no_LF, PyFacts.split_lines_no_LF.
Qed.

End Loop.

(** The fence pattern [FENCE_RE] meets the assumption made on patterns. *)
Lemma span_same_char_length (c : ascii) (s : string) :
  fst (span (Ascii.eqb c) (String c s)) <> "".
Proof.
  simpl. rewrite Ascii.eqb_refl. destruct (span (Ascii.eqb c) s). discriminate.
Qed.

Lemma FENCE_RE_fence_ok (line : string) (m : FenceMatch) :
  FENCE_RE line = Some m ->
  fence m <> "" /\
  exists c rest, line = String c rest /\ is_fence_char c = true.
Proof.
  unfold FENCE_RE. destruct line as [|c rest]; [discriminate|].
  destruct (is_fence_char c) eqn:Ec; [|discriminate].
  pose proof (span_same_char_length c rest) as Hne.
  destruct (span (Ascii.eqb c) (String c rest)) as [f rest'].
  simpl in Hne. intros H. split; [|eauto].
  destruct ((3 <=? String.length f)%nat && negb (has_fence_char rest')); [|discriminate].
  destruct (span (Ascii.eqb " ") rest') as [sp r].
  destruct (nonempty r).
  - destruct (nonempty (fst (span is_lang_char (strip_char "." (strip_char "{" r))))).
    + inversion H; subst; assumption.
    + destruct (nonempty (fst (span is_lang_char (strip_char "{" r)))); [|discriminate].
      inversion H; subst; assumption.
  - inversion H; subst; assumption.
Qed.

End PlainTextFacts.

(** ** The inline-image policy of the HTML rewriter *)

Module HtmlFacts.

Import Html.

(** Induction over a tree with the property at hand for every child. *)
Lemma HtmlElement_children_ind (P : HtmlElement -> Prop) :
  (forall i tg a tx cs tl, Forall P cs -> P (Element i tg a tx cs tl)) ->
  forall e, P e.
Proof.
  intros H. fix IH 1. intros [i tg a tx cs tl]. apply H.
  induction cs as [|k rest IHcs]; constructor; [apply IH|exact IHcs].
Qed.

Lemma ident_set_tail (e : HtmlElement) (t : option string) :
  ident (set_tail e t) = ident e.
Proof. destruct e; reflexivity. Qed.

Lemma tail_set_tail (e : HtmlElement) (t : option string) :
  tail (set_tail e t) = t.
Proof. destruct e; reflexivity. Qed.

Lemma set_tail_tail (e : HtmlElement) : set_tail e (tail e) = e.
Proof. destruct e; reflexivity. Qed.

Lemma set_tail_set_tail (e : HtmlElement) (s t : option string) :
  set_tail (set_tail e s) t = set_tail e t.
Proof. destruct e; reflexivity. Qed.

Lemma idents_set_tail (e : HtmlElement) (t : option string) :
  idents (set_tail e t) = idents e.
Proof. destruct e; reflexivity. Qed.

Lemma has_class_set_tail (name : string) (e : HtmlElement) (t : option string) :
  has_class name (set_tail e t) = has_class name e.
Proof. destruct e; reflexivity. Qed.

Lemma children_set_tail (e : HtmlElement) (t : option string) :
  children (set_tail e t) = children e.
Proof. destruct e; reflexivity. Qed.

Lemma drop_below_unfold (i id : nat) tg a tx cs tl :
  drop_below i (Element id tg a tx cs tl)
  = Element id tg a (fst (drop_among (drop_below i) i tx cs))
      (snd (drop_among (drop_below i) i tx cs)) tl.
Proof.
  cbn [drop_below]. destruct (drop_among (drop_below i) i tx cs); reflexivity.
Qed.

Lemma prune_unfold (name : string) (id : nat) tg a tx cs tl :
  prune name (Element id tg a tx cs tl)
  = Element id tg a (fst (prune_among name (prune name) tx cs))
      (snd (prune_among name (prune name) tx cs)) tl.
Proof.
  cbn [prune]. destruct (prune_among name (prune name) tx cs); reflexivity.
Qed.

Lemma ident_drop_below (i : nat) (e : HtmlElement) : ident (drop_below i e) = ident e.
Proof. destruct e. rewrite drop_below_unfold. reflexivity. Qed.

Lemma tail_drop_below (i : nat) (e : HtmlElement) : tail (drop_below i e) = tail e.
Proof. destruct e. rewrite drop_below_unfold. reflexivity. Qed.

Lemma drop_below_set_tail (i : nat) (e : HtmlElement) (t : option string) :
  drop_below i (set_tail e t) = set_tail (drop_below i e) t.
Proof. destruct e. cbn [set_tail]. rewrite !drop_below_unfold. reflexivity. Qed.

Lemma ident_prune (name : string) (e : HtmlElement) : ident (prune name e) = ident e.
Proof. destruct e. rewrite prune_unfold. reflexivity. Qed.

Lemma tail_prune (name : string) (e : HtmlElement) : tail (prune name e) = tail e.
Proof. destruct e. rewrite prune_unfold. reflexivity. Qed.

Lemma has_class_prune (name c : string) (e : HtmlElement) :
  has_class c (prune name e) = has_class c e.
Proof. destruct e. rewrite prune_unfold. reflexivity. Qed.

(** *** Dropping an element that is not in the tree *)

Lemma drop_among_absent (i : nat) (cs : list HtmlElement) :
  Forall (fun k => ~ In i (idents k) -> drop_below i k = k) cs ->
  forall slot, ~ In i (flat_map idents cs) ->
  drop_among (drop_below i) i slot cs = (slot, cs).
Proof.
  induction 1 as [|k rest Hk Hrest IH]; intros slot Hni; [reflexivity|].
  cbn [flat_map] in Hni. rewrite in_app_iff in Hni.
  cbn [drop_among].
  destruct (Nat.eqb (ident k) i) eqn:E.
  - apply Nat.eqb_eq in E. exfalso. apply Hni. left.
    destruct k; simpl in *. auto.
  - rewrite Hk by tauto. rewrite IH by tauto. rewrite set_tail_tail. reflexivity.
Qed.

Lemma drop_below_absent (i : nat) (e : HtmlElement) :
  ~ In i (idents e) -> drop_below i e = e.
Proof.
  induction e as [id tg a tx cs tl IH] using HtmlElement_children_ind.
  intros Hni. rewrite drop_below_unfold.
  rewrite drop_among_absent; [reflexivity|exact IH|].
  intros Hin. apply Hni. simpl. auto.
Qed.

(** *** What is left after pruning was there before *)

Lemma idents_prune_among (name : string) (cs : list HtmlElement) :
  Forall (fun k => incl (idents (prune name k)) (idents k)) cs ->
  forall slot,
  incl (flat_map idents (snd (prune_among name (prune name) slot cs)))
       (flat_map idents cs).
Proof.
  induction 1 as [|k rest Hk Hrest IH]; intros slot; [apply incl_refl|].
  cbn [prune_among flat_map].
  destruct (has_class name k).
  - apply incl_appr, IH.
  - specialize (IH (tail k)).
    destruct (prune_among name (prune name) (tail k) rest) as [slot' rest'].
    cbn [snd flat_map] in *. rewrite idents_set_tail.
    apply incl_app; [apply incl_appl, Hk|apply incl_appr, IH].
Qed.

Lemma idents_prune (name : string) (e : HtmlElement) :
  incl (idents (prune name e)) (idents e).
Proof.
  induction e as [id tg a tx cs tl IH] using HtmlElement_children_ind.
  rewrite prune_unfold. cbn [idents].
  apply incl_cons; [left; reflexivity|].
  apply incl_tl, idents_prune_among, IH.
Qed.

Lemma find_class_idents (name : string) (e : HtmlElement) :
  incl (find_class name e) (idents e).
Proof.
  induction e as [id tg a tx cs tl IH] using HtmlElement_children_ind.
  cbn [find_class idents]. apply incl_app.
  - destruct (has_class name _); [|intros x []].
    intros x [<-|[]]. left; reflexivity.
  - apply incl_tl. induction IH as [|k rest Hk Hrest IHr]; [apply incl_refl|].
    cbn [flat_map]. apply incl_app; [apply incl_appl, Hk|apply incl_appr, IHr].
Qed.

Lemma find_class_forest_idents (name : string) (cs : list HtmlElement) :
  incl (flat_map (find_class name) cs) (flat_map idents cs).
Proof.
  induction cs as [|k rest IH]; [apply incl_refl|].
  cbn [flat_map].
  apply incl_app; [apply incl_appl, find_class_idents|apply incl_appr, IH].
Qed.

Lemma NoDup_app_disjoint {X : Type} (l1 l2 : list X) (x : X) :
  NoDup (l1 ++ l2) -> In x l1 -> ~ In x l2.
Proof.
  induction l1 as [|y l1 IH]; simpl; intros Hnd Hin; [contradiction|].
  inversion Hnd as [|? ? Hy Hnd']; subst.
  destruct Hin as [->|Hin]; [|apply IH; assumption].
  intros H2. apply Hy, in_or_app. right. exact H2.
Qed.

(** *** The loop over the containers, level by level *)

(** One [drop_tree] seen from the children of an element and the text slot
    before them. *)
Definition drop_step (st : option string * list HtmlElement) (i : nat)
  : option string * list HtmlElement :=
  drop_among (drop_below i) i (fst st) (snd st).

Lemma drops_at_root (L : list nat) (id : nat) tg a tx cs tl :
  fold_left (fun e i => drop_below i e) L (Element id tg a tx cs tl)
  = Element id tg a (fst (fold_left drop_step L (tx, cs)))
      (snd (fold_left drop_step L (tx, cs))) tl.
Proof.
  revert tx cs. induction L as [|i L IH]; intros tx cs; [reflexivity|].
  cbn [fold_left]. rewrite drop_below_unfold, IH. unfold drop_step at 3 5.
  cbn [fst snd]. rewrite <- surjective_pairing. reflexivity.
Qed.

Lemma drops_absent (L : list nat) (slot : option string) (cs : list HtmlElement) :
  (forall i, In i L -> ~ In i (flat_map idents cs)) ->
  fold_left drop_step L (slot, cs) = (slot, cs).
Proof.
  induction L as [|i L IH]; intros H; [reflexivity|].
  cbn [fold_left]. unfold drop_step at 2. cbn [fst snd].
  rewrite drop_among_absent.
  - apply IH. intros j Hj. apply H. right. exact Hj.
  - apply Forall_forall. intros k _. apply drop_below_absent.
  - apply H. left. reflexivity.
Qed.

(** Containers inside the first child only touch the first child. *)
Lemma drops_in_first (L : list nat) (slot : option string)
    (k : HtmlElement) (rest : list HtmlElement) :
  (forall i, In i L -> ident k <> i /\ ~ In i (flat_map idents rest)) ->
  fold_left drop_step L (slot, k :: rest)
  = (slot, fold_left (fun e i => drop_below i e) L k :: rest).
Proof.
  revert k. induction L as [|i L IH]; intros k H; [reflexivity|].
  cbn [fold_left]. unfold drop_step at 2. cbn [fst snd drop_among].
  destruct (H i (or_introl eq_refl)) as [Hne Hni].
  apply Nat.eqb_neq in Hne. rewrite Hne.
  rewrite drop_among_absent.
  - rewrite set_tail_tail. apply IH. intros j Hj.
    rewrite ident_drop_below. apply H. right. exact Hj.
  - apply Forall_forall. intros k' _. apply drop_below_absent.
  - exact Hni.
Qed.

(** Containers after the first child leave it alone, apart from its tail. *)
Lemma drops_after_first (L : list nat) (slot : option string) (k : HtmlElement) :
  (forall i, In i L -> ident k <> i /\ drop_below i k = k) ->
  forall (s1 : option string) (rest : list HtmlElement),
  fold_left drop_step L (slot, set_tail k s1 :: rest)
  = (slot, set_tail k (fst (fold_left drop_step L (s1, rest)))
           :: snd (fold_left drop_step L (s1, rest))).
Proof.
  induction L as [|i L IH]; intros H s1 rest.
  - reflexivity.
  - cbn [fold_left]. unfold drop_step at 2 4 6. cbn [fst snd drop_among].
    destruct (H i (or_introl eq_refl)) as [Hne Hk].
    apply Nat.eqb_neq in Hne. rewrite ident_set_tail, Hne.
    rewrite drop_below_set_tail, Hk, tail_set_tail.
    destruct (drop_among (drop_below i) i s1 rest) as [s1' rest'].
    rewrite set_tail_set_tail. apply IH.
    intros j Hj. apply H. right. exact Hj.
Qed.

(** The loop of the second branch, on the children of one element. *)
Lemma drops_prune_among (name : string) (cs : list HtmlElement) :
  Forall (fun k =>
            NoDup (idents k) ->
            fold_left (fun e i => drop_below i e)
              (flat_map (find_class name) (children k)) k
            = prune name k) cs ->
  forall slot, NoDup (flat_map idents cs) ->
  fold_left drop_step (flat_map (find_class name) cs) (slot, cs)
  = prune_among name (prune name) slot cs.
Proof.
  induction 1 as [|k rest Hk Hrest IH]; intros slot Hnd; [reflexivity|].
  cbn [flat_map] in *. rewrite fold_left_app.
  pose proof (NoDup_app_remove_r _ _ Hnd) as Hndk.
  pose proof (NoDup_app_remove_l _ _ Hnd) as Hndr.
  assert (Hkid : In (ident k) (idents k)) by (destruct k; left; reflexivity).
  assert (Hsub : forall i, In i (flat_map (find_class name) (children k)) ->
                           In i (idents k) /\ ident k <> i).
  { intros i Hi. destruct k as [id tg a tx cs tl]. cbn [children ident idents] in *.
    inversion Hndk as [|? ? Hid _]; subst.
    apply find_class_forest_idents in Hi. split; [right; exact Hi|].
    intros ->. contradiction. }
  cbn [prune_among].
  destruct (has_class name k) eqn:Ec.
  - assert (Hfc : find_class name k
                  = ident k :: flat_map (find_class name) (children k)).
    { destruct k as [id tg a tx cs tl]. cbn [find_class ident children].
      change (has_class name (Element id tg a tx cs tl)) with
        (has_class name (Element id tg a tx cs tl)).
      rewrite Ec. reflexivity. }
    rewrite Hfc. cbn [fold_left]. unfold drop_step at 3. cbn [fst snd drop_among].
    rewrite Nat.eqb_refl. rewrite drops_absent.
    + apply IH, Hndr.
    + intros i Hi. apply (NoDup_app_disjoint _ _ _ Hnd).
      apply Hsub, Hi.
  - assert (Hfc : find_class name k = flat_map (find_class name) (children k)).
    { destruct k as [id tg a tx cs tl]. cbn [find_class ident children].
      change (has_class name (Element id tg a tx cs tl)) with
        (has_class name (Element id tg a tx cs tl)).
      rewrite Ec. reflexivity. }
    rewrite Hfc. rewrite drops_in_first.
    + rewrite (Hk Hndk). rewrite <- (set_tail_tail (prune name k)) at 1.
      rewrite drops_after_first.
      * rewrite tail_prune, (IH (tail k) Hndr).
        destruct (prune_among name (prune name) (tail k) rest) as [slot' rest'].
        reflexivity.
      * intros i Hi. apply find_class_forest_idents in Hi.
        assert (Hnk : ~ In i (idents k)).
        { intros Hik. apply (NoDup_app_disjoint _ _ _ Hnd Hik Hi). }
        rewrite ident_prune. split.
        -- intros <-. contradiction.
        -- apply drop_below_absent. intros Hip. apply Hnk.
           apply (idents_prune name k), Hip.
    + intros i Hi. destruct (Hsub i Hi) as [Hik Hne]. split; [exact Hne|].
      apply (NoDup_app_disjoint _ _ _ Hnd Hik).
Qed.

(** The loop of the second branch, below any element. *)
Lemma drops_prune (name : string) (e : HtmlElement) :
  NoDup (idents e) ->
  fold_left (fun e i => drop_below i e)
    (flat_map (find_class name) (children e)) e
  = prune name e.
Proof.
  induction e as [id tg a tx cs tl IH] using HtmlElement_children_ind.
  intros Hnd. cbn [children]. rewrite drops_at_root, prune_unfold.
  inversion Hnd as [|? ? _ Hcs]; subst.
  rewrite (drops_prune_among name cs IH tx Hcs). reflexivity.
Qed.

(** No [drop_tree] of the loop hits the root, so none raises. *)
Lemma drop_trees_ok (L : list nat) (e : HtmlElement) :
  ~ In (ident e) L ->
  rfold (fun fr container => drop_tree container fr) L e
  = Ok (fold_left (fun e i => drop_below i e) L e).
Proof.
  revert e. induction L as [|i L IH]; intros e H; [reflexivity|].
  cbn [rfold fold_left]. unfold drop_tree at 1.
  destruct (Nat.eqb (ident e) i) eqn:E.
  - apply Nat.eqb_eq in E. exfalso. apply H. left. symmetry. exact E.
  - cbn [rbind]. apply IH. rewrite ident_drop_below.
    intros Hin. apply H. right. exact Hin.
Qed.

(** Nothing of the class is left below the root of a pruned tree. *)
Lemma prune_among_clean (name : string) (cs : list HtmlElement) :
  Forall (fun k => flat_map (find_class name) (children (prune name k)) = []) cs ->
  forall slot,
  flat_map (find_class name) (snd (prune_among name (prune name) slot cs)) = [].
Proof.
  induction 1 as [|k rest Hk Hrest IH]; intros slot; [reflexivity|].
  cbn [prune_among]. destruct (has_class name k) eqn:Ec; [apply IH|].
  specialize (IH (tail k)).
  destruct (prune_among name (prune name) (tail k) rest) as [slot' rest'].
  cbn [snd flat_map] in *. rewrite IH, app_nil_r.
  assert (Hc : has_class name (prune name k) = false)
    by (rewrite has_class_prune; exact Ec).
  destruct (prune name k) as [id tg a tx cs tl].
  cbn [set_tail find_class].
  change (has_class name (Element id tg a tx cs slot'))
    with (has_class name (Element id tg a tx cs tl)).
  rewrite Hc. exact Hk.
Qed.

Lemma prune_clean (name : string) (e : HtmlElement) :
  flat_map (find_class name) (children (prune name e)) = [].
Proof.
  induction e as [id tg a tx cs tl IH] using HtmlElement_children_ind.
  rewrite prune_unfold. cbn [children]. apply prune_among_clean, IH.
Qed.

End HtmlFacts.

(** ** Lists, dictionaries and maximal runs *)

Module ListFacts.

Import MessageList.

Lemma last_of_snoc {X : Type} (l : list X) (x : X) : last_of (l ++ [x]) = Some x.
Proof. unfold last_of. rewrite rev_unit. reflexivity. Qed.

Lemma last_of_nil {X : Type} : last_of (@nil X) = None.
Proof. reflexivity. Qed.

Lemma last_of_some {X : Type} (l : list X) (x : X) :
  last_of l = Some x -> exists l', l = (l' ++ [x])%list.
Proof.
  destruct l as [|a l] using rev_ind; [discriminate|].
  rewrite last_of_snoc. intros H. inversion H; subst. eauto.
Qed.

Lemma last_of_none {X : Type} (l : list X) : last_of l = None -> l = [].
Proof.
  destruct l as [|a l] using rev_ind; [reflexivity|].
  rewrite last_of_snoc. discriminate.
Qed.

Lemma last_of_cons {X : Type} (a b : X) (l : list X) :
  last_of (a :: b :: l) = last_of (b :: l).
Proof.
  destruct (last_of (b :: l)) as [x|] eqn:E.
  - apply last_of_some in E as [l' E]. rewrite E.
    change (a :: l' ++ [x])%list with ((a :: l') ++ [x])%list.
    apply last_of_snoc.
  - apply last_of_none in E. discriminate.
Qed.

Lemma set_last_snoc {X : Type} (l : list X) (x y : X) :
  set_last (l ++ [y]) x = (l ++ [x])%list.
Proof. unfold set_last. rewrite removelast_last. reflexivity. Qed.

Lemma Forall2_snoc {X Y : Type} (P : X -> Y -> Prop) l1 l2 a b :
  Forall2 P l1 l2 -> P a b -> Forall2 P (l1 ++ [a]) (l2 ++ [b]).
Proof. intros H1 H2. apply Forall2_app; [exact H1|repeat constructor; exact H2]. Qed.

Lemma Forall2_snoc_inv_r {X Y : Type} (P : X -> Y -> Prop) l1 l2 b :
  Forall2 P l1 (l2 ++ [b]) ->
  exists l1' a, l1 = (l1' ++ [a])%list /\ Forall2 P l1' l2 /\ P a b.
Proof.
  intros H. apply Forall2_app_inv_r in H as (l1' & la & H1 & H2 & ->).
  inversion H2 as [|a ? ? ? Hab Hnil]; subst. inversion Hnil; subst.
  exists l1', a. auto.
Qed.

Lemma Forall2_length_eq {X Y : Type} (P : X -> Y -> Prop) l1 l2 :
  Forall2 P l1 l2 -> List.length l1 = List.length l2.
Proof. induction 1; simpl; congruence. Qed.

Section RunFacts.
Context {X K : Type}.
Variable key : X -> K.
Variable key_eqb : K -> K -> bool.

Local Abbreviation runs := (runs key key_eqb).

Lemma runs_cons_cons (a b : X) (l : list X) :
  exists g gs,
    runs (b :: l) = (b :: g) :: gs /\
    runs (a :: b :: l)
    = if key_eqb (key a) (key b) then (a :: b :: g) :: gs
      else [a] :: (b :: g) :: gs.
Proof.
  revert a b. induction l as [|c l IH]; intros a b.
  - exists [], []. split; reflexivity.
  - destruct (IH b c) as (g & gs & H1 & H2).
    assert (Hb : exists g' gs', MessageList.runs key key_eqb (b :: c :: l) = (b :: g') :: gs').
    { rewrite H2. destruct (key_eqb (key b) (key c)); eauto. }
    destruct Hb as (g' & gs' & Hb). exists g', gs'. split; [exact Hb|].
    change (MessageList.runs key key_eqb (a :: b :: c :: l))
      with (match MessageList.runs key key_eqb (b :: c :: l) with
            | (y :: g0) :: gs0 =>
                if key_eqb (key a) (key y) then (a :: y :: g0) :: gs0
                else [a] :: (y :: g0) :: gs0
            | _ => [[a]]
            end).
    rewrite Hb. reflexivity.
Qed.

Lemma runs_head (b : X) (l : list X) :
  exists g gs, runs (b :: l) = (b :: g) :: gs.
Proof.
  destruct l as [|c l]; [exists [], []; reflexivity|].
  destruct (runs_cons_cons b c l) as (g & gs & _ & H). rewrite H.
  destruct (key_eqb (key b) (key c)); eauto.
Qed.

(** The runs, glued, are the list. *)
Lemma concat_runs (l : list X) : List.concat (runs l) = l.
Proof.
  induction l as [|a l IH]; [reflexivity|].
  destruct l as [|b l]; [reflexivity|].
  destruct (runs_cons_cons a b l) as (g & gs & H1 & H2).
  rewrite H2. rewrite H1 in IH.
  destruct (key_eqb (key a) (key b)); simpl in *; rewrite IH; reflexivity.
Qed.

Lemma runs_not_nil (l : list X) : Forall (fun g => g <> []) (runs l).
Proof.
  induction l as [|a l IH]; [constructor|].
  destruct l as [|b l]; [repeat constructor; discriminate|].
  destruct (runs_cons_cons a b l) as (g & gs & H1 & H2).
  rewrite H2. rewrite H1 in IH. inversion IH; subst.
  destruct (key_eqb (key a) (key b)); repeat constructor; try discriminate; assumption.
Qed.

(** Neighbours inside a group have equal keys. *)
Fixpoint chained (g : list X) : Prop :=
  match g with
  | a :: ((b :: _) as rest) => key_eqb (key a) (key b) = true /\ chained rest
  | _ => True
  end.

Lemma runs_chained (l : list X) : Forall chained (runs l).
Proof.
  induction l as [|a l IH]; [constructor|].
  destruct l as [|b l]; [repeat constructor|].
  destruct (runs_cons_cons a b l) as (g & gs & H1 & H2).
  rewrite H2. rewrite H1 in IH. inversion IH; subst.
  destruct (key_eqb (key a) (key b)) eqn:E; repeat constructor; simpl; auto.
Qed.

(** The last element of a group and the first of the next have different
    keys: no group can be made longer. *)
Fixpoint separated (gs : list (list X)) : Prop :=
  match gs with
  | g1 :: ((g2 :: _) as rest) =>
      (forall a b, last_of g1 = Some a -> hd_error g2 = Some b ->
                   key_eqb (key a) (key b) = false)
      /\ separated rest
  | _ => True
  end.

Lemma runs_separated (l : list X) : separated (runs l).
Proof.
  induction l as [|a l IH]; [exact I|].
  destruct l as [|b l]; [exact I|].
  destruct (runs_cons_cons a b l) as (g & gs & H1 & H2).
  rewrite H2. rewrite H1 in IH.
  destruct (key_eqb (key a) (key b)) eqn:E.
  - destruct gs as [|g2 gs]; [exact I|].
    destruct IH as [IH1 IH2]. split; [|exact IH2].
    intros x y Hx Hy. apply IH1; [|exact Hy].
    rewrite last_of_cons in Hx. exact Hx.
  - split; [|exact IH].
    intros x y Hx Hy. inversion Hx; subst. inversion Hy; subst. exact E.
Qed.

(** The number of runs. *)
Lemma length_runs (l : list X) :
  l <> [] -> List.length (runs l) = S (key_changes key key_eqb l).
Proof.
  induction l as [|a l IH]; [congruence|]. intros _.
  destruct l as [|b l]; [reflexivity|].
  destruct (runs_cons_cons a b l) as (g & gs & H1 & H2).
  rewrite H2. specialize (IH ltac:(discriminate)). rewrite H1 in IH.
  cbn [key_changes]. destruct (key_eqb (key a) (key b)); simpl in *; lia.
Qed.

(** *** Adding one element at the end *)

Fixpoint push (gs : list (list X)) (x : X) : list (list X) :=
  match gs with
  | [] => [[x]]
  | [g] =>
      match last_of g with
      | Some y => if key_eqb (key y) (key x) then [g ++ [x]] else [g; [x]]
      | None => [g; [x]]
      end
  | g :: gs' => g :: push gs' x
  end%list.

Lemma push_cons (g g' : list X) (gs : list (list X)) (x : X) :
  push (g :: g' :: gs) x = g :: push (g' :: gs) x.
Proof. reflexivity. Qed.

Lemma push_snoc (gs : list (list X)) (g : list X) (x : X) :
  push (gs ++ [g]) x = (gs ++ push [g] x)%list.
Proof.
  induction gs as [|h gs IH]; [reflexivity|].
  destruct gs as [|h' gs].
  - reflexivity.
  - change ((h :: h' :: gs) ++ [g])%list with (h :: h' :: (gs ++ [g]))%list.
    rewrite push_cons. change (h' :: (gs ++ [g]))%list with ((h' :: gs) ++ [g])%list.
    rewrite IH. reflexivity.
Qed.

Lemma push_head (y : X) (g : list X) (gs : list (list X)) (x : X) :
  exists g' gs', push ((y :: g) :: gs) x = (y :: g') :: gs'.
Proof.
  destruct gs as [|h gs].
  - cbn [push]. destruct (last_of (y :: g)) as [z|]; [|eauto].
    destruct (key_eqb (key z) (key x)); simpl; eauto.
  - rewrite push_cons. eauto.
Qed.

Lemma runs_snoc (l : list X) (x : X) : runs (l ++ [x]) = push (runs l) x.
Proof.
  induction l as [|a l IH]; [reflexivity|].
  destruct l as [|b l].
  - simpl. destruct (key_eqb (key a) (key x)); reflexivity.
  - destruct (runs_cons_cons a b l) as (g & gs & H1 & H2).
    rewrite H2. rewrite H1 in IH.
    destruct (push_head b g gs x) as (g' & gs' & Hp).
    change ((a :: b :: l) ++ [x])%list with (a :: ((b :: l) ++ [x]))%list.
    change (MessageList.runs key key_eqb (a :: (b :: l) ++ [x]))
      with (match MessageList.runs key key_eqb ((b :: l) ++ [x]) with
            | (y :: g0) :: gs0 =>
                if key_eqb (key a) (key y) then (a :: y :: g0) :: gs0
                else [a] :: (y :: g0) :: gs0
            | _ => [[a]]
            end).
    rewrite IH, Hp.
    destruct (key_eqb (key a) (key b)).
    + destruct gs as [|h gs].
      * cbn [push] in *. rewrite last_of_cons.
        destruct (last_of (b :: g)) as [z|].
        -- destruct (key_eqb (key z) (key x)); inversion Hp; subst; reflexivity.
        -- inversion Hp; subst; reflexivity.
      * rewrite push_cons in *. inversion Hp; subst. reflexivity.
    + rewrite push_cons, Hp. reflexivity.
Qed.

(** *** Keys that are compared by equality *)

Hypothesis key_eqb_eq : forall a b, key_eqb a b = true <-> a = b.

Lemma chained_same_key (g : list X) :
  chained g -> forall a b, In a g -> In b g -> key a = key b.
Proof.
  intros Hc.
  assert (H : forall a, In a g -> forall h, hd_error g = Some h -> key a = key h).
  { induction g as [|x g IH]; intros a Ha h Hh; [contradiction|].
    inversion Hh; subst. destruct Ha as [->|Ha]; [reflexivity|].
    destruct g as [|y g]; [contradiction|].
    destruct Hc as [Hxy Hc]. apply key_eqb_eq in Hxy.
    rewrite Hxy. apply IH; [exact Hc|exact Ha|reflexivity]. }
  intros a b Ha Hb. destruct g as [|h g]; [contradiction|].
  rewrite (H a Ha h eq_refl), (H b Hb h eq_refl). reflexivity.
Qed.

Lemma runs_same_key (l : list X) :
  Forall (fun g => forall a b, In a g -> In b g -> key a = key b) (runs l).
Proof.
  pose proof (runs_chained l) as H.
  induction H as [|g gs Hg Hgs IH]; constructor; [|exact IH].
  apply chained_same_key, Hg.
Qed.

End RunFacts.

End ListFacts.

Module PositionFacts.

Import MessageList ListFacts.

Section Positions.
Context {X K : Type}.
Variable key : X -> K.
Variable key_eqb : K -> K -> bool.

(** The number of the group in which position [i] of the glued list falls. *)
Fixpoint run_of_position (gs : list (list X)) (i : nat) : nat :=
  match gs with
  | [] => 0
  | g :: rest =>
      if (i <? List.length g)%nat then 0%nat
      else S (run_of_position rest (i - List.length g))
  end.

Lemma run_of_position_spec (gs : list (list X)) (i : nat) :
  (i < List.length (List.concat gs))%nat ->
  exists pre g post o,
    gs = (pre ++ g :: post)%list /\
    List.length pre = run_of_position gs i /\
    i = (List.length (List.concat pre) + o)%nat /\
    (o < List.length g)%nat.
Proof.
  revert i. induction gs as [|g gs IH]; intros i Hi; [simpl in Hi; lia|].
  cbn [run_of_position]. destruct (i <? List.length g)%nat eqn:Ei.
  - apply Nat.ltb_lt in Ei. exists [], g, gs, i. repeat split; auto.
  - apply Nat.ltb_ge in Ei. cbn [List.concat] in Hi. rewrite length_app in Hi.
    destruct (IH (i - List.length g)%nat ltac:(lia)) as (pre & g' & post & o & -> & Hl & Ho & Hlt).
    exists (g :: pre), g', post, o. repeat split; auto.
    + simpl. rewrite Hl. reflexivity.
    + cbn [List.concat]. rewrite length_app. lia.
Qed.

(** Two positions fall in one run exactly when the key does not change
    anywhere between them. *)
Lemma same_run_adjacent (d : X) (l : list X) (i j : nat) :
  (i <= j < List.length l)%nat ->
  run_of_position (runs key key_eqb l) i = run_of_position (runs key key_eqb l) j
  <-> (forall k, (i <= k < j)%nat ->
                 key_eqb (key (nth k l d)) (key (nth (S k) l d)) = true).
Proof.
  revert i j. induction l as [|a l IH]; intros i j Hij; [simpl in Hij; lia|].
  destruct l as [|b l].
  - simpl in Hij. split; [intros _ k Hk; lia|intros _].
    replace i with 0%nat by lia. replace j with 0%nat by lia. reflexivity.
  - destruct (runs_cons_cons key key_eqb a b l) as (g & gs & H1 & H2).
    rewrite H2. rewrite H1 in IH.
    destruct (key_eqb (key a) (key b)) eqn:Eab.
    + assert (Hpos : forall n,
                 run_of_position ((a :: b :: g) :: gs) n
                 = run_of_position ((b :: g) :: gs) (n - 1)).
      { intros n. cbn [run_of_position List.length].
        destruct n as [|n]; [reflexivity|].
        replace (S n - 1)%nat with n by lia.
        change (S n <? S (S (List.length g)))%nat with (n <? S (List.length g))%nat.
        destruct (n <? S (List.length g))%nat; [reflexivity|].
        replace (S n - S (S (List.length g)))%nat with (n - S (List.length g))%nat by lia.
        reflexivity. }
      rewrite !Hpos.
      destruct i as [|i].
      * destruct j as [|j]; [split; [intros _ k Hk; lia|reflexivity]|].
        replace (S j - 1)%nat with j by lia. cbn [Nat.sub].
        assert (Hj : (0 <= j < List.length (b :: l))%nat) by (simpl in *; lia).
        rewrite (IH 0%nat j Hj). split.
        -- intros H k Hk. destruct k as [|k]; [exact Eab|].
           apply (H k). lia.
        -- intros H k Hk. apply (H (S k)). lia.
      * destruct j as [|j]; [lia|].
        replace (S i - 1)%nat with i by lia. replace (S j - 1)%nat with j by lia.
        assert (Hj : (i <= j < List.length (b :: l))%nat) by (simpl in *; lia).
        rewrite (IH i j Hj). split.
        -- intros H k Hk. destruct k as [|k]; [lia|]. apply (H k). lia.
        -- intros H k Hk. apply (H (S k)). lia.
    + assert (HposS : forall n,
                 run_of_position ([a] :: (b :: g) :: gs) (S n)
                 = S (run_of_position ((b :: g) :: gs) n)).
      { intros n. cbn [run_of_position List.length Nat.ltb Nat.leb].
        replace (S n - 1)%nat with n by lia. reflexivity. }
      destruct i as [|i].
      * destruct j as [|j]; [split; [intros _ k Hk; lia|reflexivity]|].
        rewrite HposS. change (run_of_position ([a] :: (b :: g) :: gs) 0) with 0%nat.
        split; [discriminate|].
        intros H. specialize (H 0%nat ltac:(lia)). simpl in H. congruence.
      * destruct j as [|j]; [lia|].
        rewrite !HposS.
        assert (Hj : (i <= j < List.length (b :: l))%nat) by (simpl in *; lia).
        split.
        -- intros H. apply Nat.succ_inj in H.
           pose proof (proj1 (IH i j Hj) H) as H'.
           intros k Hk. destruct k as [|k]; [lia|]. apply (H' k). lia.
        -- intros H. f_equal. apply (proj2 (IH i j Hj)).
           intros k Hk. apply (H (S k)). lia.
Qed.

Hypothesis key_eqb_eq : forall a b, key_eqb a b = true <-> a = b.

(** Two positions fall in one run exactly when every element between them
    has the key of the first. *)
Lemma same_run_iff (d : X) (l : list X) (i j : nat) :
  (i <= j < List.length l)%nat ->
  run_of_position (runs key key_eqb l) i = run_of_position (runs key key_eqb l) j
  <-> (forall k, (i <= k <= j)%nat -> key (nth k l d) = key (nth i l d)).
Proof.
  intros Hij. rewrite (same_run_adjacent d l i j Hij). split.
  - intros H k Hk.
    assert (Hn : forall n, (i + n <= j)%nat -> key (nth (i + n) l d) = key (nth i l d)).
    { induction n as [|n IHn]; intros Hn; [rewrite Nat.add_0_r; reflexivity|].
      rewrite <- IHn by lia. symmetry. apply key_eqb_eq.
      replace (i + S n)%nat with (S (i + n)) by lia. apply H. lia. }
    replace k with (i + (k - i))%nat by lia. apply Hn. lia.
  - intros H k Hk. apply key_eqb_eq.
    rewrite (H k ltac:(lia)), (H (S k) ltac:(lia)). reflexivity.
Qed.

End Positions.

End PositionFacts.

(** ** The message list builder *)

Module MessageListFacts.

Import Model MessageList ListFacts.

Lemma Grouping_eqb_eq (a b : Grouping) : Grouping_eqb a b = true <-> a = b.
Proof.
  destruct a, b; simpl; split; intros H; try discriminate; try congruence.
  - apply Z.eqb_eq in H. congruence.
  - inversion H. apply Z.eqb_refl.
  - apply Z.eqb_eq in H. congruence.
  - inversion H. apply Z.eqb_refl.
  - apply andb_true_iff in H as [H1 H2].
    apply Z.eqb_eq in H1. apply String.eqb_eq in H2. congruence.
  - inversion H. rewrite Z.eqb_refl, String.eqb_refl. reflexivity.
Qed.

Section BuilderFacts.

Variable E : Collaborators.
Variable R : Rendering.
Variable user : UserProfile.
Variable stream_map : list (Z * Stream).

Local Abbreviation header_of := (message_header E user stream_map).
Local Abbreviation payload_of := (build_message_payload E R user).
Local Abbreviation key := (grouping_of E).

(** A sender block shows a run of messages of one sender: the first message
    rendered with the sender's name, the others without. *)
Definition shows_sender_run (g : list Message) (sb : SenderBlock) : Prop :=
  match g, sb_content sb with
  | m :: rest, p :: ps =>
      sb_sender sb = sender_string m /\
      payload_of m (Some (sender_string m)) = Ok p /\
      Forall2 (fun m' p' => payload_of m' None = Ok p') rest ps
  | _, _ => False
  end.

(** A recipient block shows a run of messages: the header of its first
    message, and one sender block per maximal run of messages with one
    sender string. *)
Definition shows_run (g : list Message) (b : RecipientBlock) : Prop :=
  match g with
  | m :: _ =>
      header_of m = Ok (rb_header b) /\
      Forall2 shows_sender_run (runs sender_string String.eqb g) (rb_senders b)
  | [] => False
  end.

(** The blocks show the maximal runs of equal grouping key of [messages]. *)
Definition shows_runs (messages : list Message) (blocks : list RecipientBlock) : Prop :=
  Forall2 shows_run (runs key Grouping_eqb messages) blocks.

Lemma message_header_grouping (m : Message) (h : Header) :
  header_of m = Ok h -> h_grouping h = key m.
Proof.
  unfold message_header. destruct (recipient_type (recipient m)) eqn:Et.
  - destruct (get_narrow_url E user m None None); simpl; [|discriminate].
    intros H. inversion H. reflexivity.
  - destruct (PyDict.get Z.eqb (type_id (recipient m)) stream_map) as [s|].
    + simpl. destruct (get_narrow_url E user m None (Some s)); simpl; [|discriminate].
      intros H. inversion H. reflexivity.
    + destruct (get_stream E (type_id (recipient m))) as [s|]; simpl; [|discriminate].
      destruct (get_narrow_url E user m None (Some s)); simpl; [|discriminate].
      intros H. inversion H. reflexivity.
  - destruct (get_display_recipient E (recipient m)) as [n|users]; [discriminate|].
    destruct (get_narrow_url E user m (Some (DisplayUsers users)) None);
      simpl; [|discriminate].
    intros H. inversion H. reflexivity.
Qed.

(** The sender string of a block is that of every message of its run. *)
Lemma sender_run_sender (l : list Message) (gs : list (list Message))
    (g : list Message) (sb : SenderBlock) (y : Message) :
  runs sender_string String.eqb l = (gs ++ [g])%list ->
  shows_sender_run g sb -> last_of g = Some y ->
  sender_string y = sb_sender sb.
Proof.
  intros Hr Hs Hy.
  pose proof (runs_same_key sender_string String.eqb String.eqb_eq l) as Hk.
  rewrite Hr in Hk. apply Forall_app in Hk as [_ Hk]. inversion Hk as [|? ? Hg _]; subst.
  unfold shows_sender_run in Hs. destruct g as [|m rest]; [contradiction|].
  destruct (sb_content sb); [contradiction|]. destruct Hs as [-> _].
  apply Hg; [|left; reflexivity].
  apply last_of_some in Hy as [l' Hy]. rewrite Hy. apply in_or_app. right. left. reflexivity.
Qed.

(** The grouping of a block is that of every message of its run. *)
Lemma run_grouping (l : list Message) (gs : list (list Message))
    (g : list Message) (b : RecipientBlock) (y : Message) :
  runs key Grouping_eqb l = (gs ++ [g])%list ->
  shows_run g b -> last_of g = Some y ->
  key y = h_grouping (rb_header b).
Proof.
  intros Hr Hs Hy.
  pose proof (runs_same_key key Grouping_eqb Grouping_eqb_eq l) as Hk.
  rewrite Hr in Hk. apply Forall_app in Hk as [_ Hk]. inversion Hk as [|? ? Hg _]; subst.
  unfold shows_run in Hs. destruct g as [|m rest]; [contradiction|].
  destruct Hs as [Hh _]. rewrite (message_header_grouping _ _ Hh).
  apply Hg; [|left; reflexivity].
  apply last_of_some in Hy as [l' Hy]. rewrite Hy. apply in_or_app. right. left. reflexivity.
Qed.

Lemma last_of_cons_some {X : Type} (a : X) (l : list X) : exists y, last_of (a :: l) = Some y.
Proof.
  destruct (last_of (a :: l)) as [y|] eqn:Hl; [eauto|].
  apply last_of_none in Hl. discriminate.
Qed.

(** One more message in the open recipient block. *)
Lemma sender_blocks_step (g : list Message) (senders : list SenderBlock) (m : Message) :
  g <> [] ->
  Forall2 shows_sender_run (runs sender_string String.eqb g) senders ->
  match last_of senders with
  | None => False
  | Some last_sender =>
      if String.eqb (sb_sender last_sender) (sender_string m) then
        forall payload, payload_of m None = Ok payload ->
          Forall2 shows_sender_run (runs sender_string String.eqb (g ++ [m]))
            (set_last senders
               (mkSenderBlock (sb_sender last_sender)
                  (sb_content last_sender ++ [payload])))
      else
        forall sp, build_sender_payload E R user m = Ok sp ->
          Forall2 shows_sender_run (runs sender_string String.eqb (g ++ [m]))
            (senders ++ [sp])
  end.
Proof.
  intros Hne Hs.
  destruct (last_of senders) as [sb|] eqn:El.
  - apply last_of_some in El as [senders' ->].
    apply Forall2_snoc_inv_r in Hs as (gs & sg & Hr & Hgs & Hsg).
    rewrite runs_snoc, Hr, push_snoc. cbn [push].
    assert (Hsg' := Hsg). unfold shows_sender_run in Hsg'.
    destruct sg as [|m0 rest]; [contradiction|].
    destruct (sb_content sb) as [|p ps] eqn:Ec; [contradiction|].
    destruct (last_of_cons_some m0 rest) as [y Hy]. rewrite Hy.
    rewrite (sender_run_sender g gs (m0 :: rest) sb y Hr Hsg Hy).
    destruct (String.eqb (sb_sender sb) (sender_string m)) eqn:Eq.
    + intros payload Hp. rewrite set_last_snoc. apply Forall2_snoc; [exact Hgs|].
      unfold shows_sender_run. cbn [app sb_content sb_sender].
      destruct Hsg' as (H1 & H2 & H3).
      repeat split; try assumption. apply Forall2_snoc; assumption.
    + intros sp Hsp.
      replace (gs ++ [m0 :: rest; [m]])%list with ((gs ++ [m0 :: rest]) ++ [[m]])%list
        by (rewrite <- app_assoc; reflexivity).
      apply Forall2_snoc.
      * apply Forall2_snoc; assumption.
      * unfold build_sender_payload in Hsp.
        destruct (payload_of m (Some (sender_string m))) as [p'|] eqn:Ep;
          simpl in Hsp; [|discriminate].
        inversion Hsp; subst. unfold shows_sender_run. simpl.
        repeat split; [exact Ep|constructor].
  - apply last_of_none in El. subst senders. apply Forall2_length_eq in Hs.
    destruct g as [|a g]; [congruence|].
    destruct (runs_head sender_string String.eqb a g) as (g' & gs' & Hh).
    rewrite Hh in Hs. discriminate.
Qed.

(** One turn of the loop keeps the blocks in step with the runs. *)
Lemma render_step_shows (p : list Message) (blocks blocks' : list RecipientBlock)
    (m : Message) :
  shows_runs p blocks ->
  render_step E R user stream_map blocks m = Ok blocks' ->
  shows_runs (p ++ [m]) blocks'.
Proof.
  unfold shows_runs, render_step. intros Hinv.
  destruct (header_of m) as [header|] eqn:Eh; [|discriminate].
  cbn [rbind]. rewrite (message_header_grouping _ _ Eh).
  rewrite runs_snoc.
  destruct (last_of blocks) as [b|] eqn:El.
  - apply last_of_some in El as [blocks0 ->].
    apply Forall2_snoc_inv_r in Hinv as (gs & g & Hr & Hgs & Hg).
    rewrite Hr, push_snoc. cbn [push].
    assert (Hg' := Hg). unfold shows_run in Hg'.
    destruct g as [|m0 rest]; [contradiction|]. destruct Hg' as [Hh0 Hsenders].
    destruct (last_of_cons_some m0 rest) as [y Hy]. rewrite Hy.
    rewrite (run_grouping p gs (m0 :: rest) b y Hr Hg Hy).
    destruct (Grouping_eqb (h_grouping (rb_header b)) (key m)) eqn:Eg.
    + pose proof (sender_blocks_step (m0 :: rest) (rb_senders b) m
                    ltac:(discriminate) Hsenders) as Hstep.
      destruct (last_of (rb_senders b)) as [sb|]; [|contradiction].
      destruct (String.eqb (sb_sender sb) (sender_string m)).
      * destruct (payload_of m None) as [payload|] eqn:Ep; [|discriminate].
        cbn [rbind]. intros H. inversion H; subst; clear H.
        rewrite set_last_snoc. apply Forall2_snoc; [exact Hgs|].
        unfold shows_run. cbn [app rb_header rb_senders].
        split; [exact Hh0|]. apply (Hstep payload eq_refl).
      * destruct (build_sender_payload E R user m) as [sp|] eqn:Ep; [|discriminate].
        cbn [rbind]. intros H. inversion H; subst; clear H.
        rewrite set_last_snoc. apply Forall2_snoc; [exact Hgs|].
        unfold shows_run. cbn [app rb_header rb_senders].
        split; [exact Hh0|]. apply (Hstep sp eq_refl).
    + destruct (build_sender_payload E R user m) as [sp|] eqn:Ep; [|discriminate].
      cbn [rbind]. intros H. inversion H; subst; clear H.
      replace (gs ++ [m0 :: rest; [m]])%list with ((gs ++ [m0 :: rest]) ++ [[m]])%list
        by (rewrite <- app_assoc; reflexivity).
      apply Forall2_snoc.
      * apply Forall2_snoc; assumption.
      * unfold shows_run. cbn [rb_header rb_senders]. split; [exact Eh|].
        unfold build_sender_payload in Ep.
        destruct (payload_of m (Some (sender_string m))) as [p'|] eqn:Ep';
          simpl in Ep; [|discriminate].
        inversion Ep; subst. repeat constructor. exact Ep'.
  - apply last_of_none in El. subst blocks.
    assert (Hr : runs key Grouping_eqb p = []).
    { apply Forall2_length_eq in Hinv. destruct (runs key Grouping_eqb p); [reflexivity|discriminate]. }
    rewrite Hr. cbn [push].
    destruct (build_sender_payload E R user m) as [sp|] eqn:Ep; [|discriminate].
    cbn [rbind]. intros H. inversion H; subst; clear H.
    repeat constructor; [exact Eh|]. cbn [rb_senders].
    unfold build_sender_payload in Ep.
    destruct (payload_of m (Some (sender_string m))) as [p'|] eqn:Ep';
      simpl in Ep; [|discriminate].
    inversion Ep; subst. repeat constructor. exact Ep'.
Qed.

Lemma render_loop_shows (l p : list Message) (blocks blocks' : list RecipientBlock) :
  shows_runs p blocks ->
  rfold (render_step E R user stream_map) l blocks = Ok blocks' ->
  shows_runs (p ++ l) blocks'.
Proof.
  revert p blocks. induction l as [|m l IH]; intros p blocks Hinv H.
  - simpl in H. inversion H; subst. rewrite app_nil_r. exact Hinv.
  - cbn [rfold] in H.
    destruct (render_step E R user stream_map blocks m) as [blocks1|] eqn:Es;
      [|discriminate].
    cbn [rbind] in H.
    replace (p ++ m :: l)%list with ((p ++ [m]) ++ l)%list
      by (rewrite <- app_assoc; reflexivity).
    apply (IH _ blocks1); [|exact H].
    apply (render_step_shows p blocks); assumption.
Qed.

(** The loop does not raise when every message renders. *)
Definition renders (m : Message) : Prop :=
  (exists h, header_of m = Ok h) /\
  (forall s, exists p, payload_of m s = Ok p).

Lemma render_step_ok (p : list Message) (blocks : list RecipientBlock) (m : Message) :
  shows_runs p blocks -> renders m ->
  exists blocks', render_step E R user stream_map blocks m = Ok blocks'.
Proof.
  unfold shows_runs, render_step. intros Hinv [[h Hh] Hp].
  rewrite Hh. cbn [rbind].
  assert (Hsp : exists sp, build_sender_payload E R user m = Ok sp).
  { unfold build_sender_payload. destruct (Hp (Some (sender_string m))) as [q ->].
    simpl. eauto. }
  destruct (last_of blocks) as [b|] eqn:El.
  - destruct (Grouping_eqb (h_grouping (rb_header b)) (h_grouping h)).
    + apply last_of_some in El as [blocks0 ->].
      apply Forall2_snoc_inv_r in Hinv as (gs & g & Hr & Hgs & Hg).
      unfold shows_run in Hg. destruct g as [|m0 rest]; [contradiction|].
      destruct Hg as [_ Hsenders].
      destruct (last_of (rb_senders b)) as [sb|] eqn:Els.
      * destruct (String.eqb (sb_sender sb) (sender_string m)).
        -- destruct (Hp None) as [q ->]. simpl. eauto.
        -- destruct Hsp as [sp ->]. simpl. eauto.
      * apply last_of_none in Els. rewrite Els in Hsenders.
        destruct (runs_head sender_string String.eqb m0 rest) as (g' & gs' & Hh').
        rewrite Hh' in Hsenders. inversion Hsenders.
    + destruct Hsp as [sp ->]. simpl. eauto.
  - destruct Hsp as [sp ->]. simpl. eauto.
Qed.

Lemma render_loop_ok (l p : list Message) (blocks : list RecipientBlock) :
  shows_runs p blocks -> Forall renders l ->
  exists blocks', rfold (render_step E R user stream_map) l blocks = Ok blocks'.
Proof.
  revert p blocks. induction l as [|m l IH]; intros p blocks Hinv Hl.
  - simpl. eauto.
  - inversion Hl as [|? ? Hm Hl']; subst. cbn [rfold].
    destruct (render_step_ok p blocks m Hinv Hm) as [blocks1 Hs]. rewrite Hs.
    cbn [rbind]. apply (IH (p ++ [m])%list); [|exact Hl'].
    apply (render_step_shows p blocks); assumption.
Qed.

End BuilderFacts.

End MessageListFacts.

(** ** Dictionaries and sets *)

Module DictFacts.

Section Facts.
Context {K V : Type}.
Variable eqb : K -> K -> bool.
Hypothesis eqb_eq : forall a b, eqb a b = true <-> a = b.

Lemma eqb_refl (a : K) : eqb a a = true.
Proof. apply eqb_eq. reflexivity. Qed.

Lemma eqb_neq (a b : K) : eqb a b = false <-> a <> b.
Proof.
  split.
  - intros H Hab. apply eqb_eq in Hab. congruence.
  - intros H. destruct (eqb a b) eqn:Eab; [|reflexivity].
    apply eqb_eq in Eab. contradiction.
Qed.

Lemma get_set (k0 k : K) (v : V) (d : list (K * V)) :
  PyDict.get eqb k0 (PyDict.set eqb k v d)
  = if eqb k0 k then Some v else PyDict.get eqb k0 d.
Proof.
  induction d as [|[k' v'] d IH]; simpl.
  - reflexivity.
  - destruct (eqb k k') eqn:Ekk'; simpl.
    + apply eqb_eq in Ekk'. subst k'. destruct (eqb k0 k); reflexivity.
    + rewrite IH. destruct (eqb k0 k') eqn:E0; [|reflexivity].
      apply eqb_eq in E0. subst k'.
      destruct (eqb k0 k) eqn:E1; [|reflexivity].
      apply eqb_eq in E1. subst k. rewrite eqb_refl in Ekk'. discriminate.
Qed.

Lemma get_app (k : K) (d1 d2 : list (K * V)) :
  PyDict.get eqb k (d1 ++ d2)
  = match PyDict.get eqb k d1 with
    | Some v => Some v
    | None => PyDict.get eqb k d2
    end.
Proof.
  induction d1 as [|[k' v'] d1 IH]; simpl; [reflexivity|].
  destruct (eqb k k'); [reflexivity|exact IH].
Qed.

(** The last entry for a key wins in [update]. *)
Lemma get_update (k : K) (d entries : list (K * V)) :
  PyDict.get eqb k (PyDict.update eqb d entries)
  = match PyDict.get eqb k (rev entries) with
    | Some v => Some v
    | None => PyDict.get eqb k d
    end.
Proof.
  unfold PyDict.update. revert d.
  induction entries as [|[k' v'] entries IH]; intros d; [reflexivity|].
  cbn [fold_left fst snd rev]. rewrite IH, get_app, get_set. simpl.
  destruct (PyDict.get eqb k (rev entries)); [reflexivity|].
  destruct (eqb k k'); reflexivity.
Qed.

Lemma get_none (k : K) (d : list (K * V)) :
  PyDict.get eqb k d = None <-> ~ In k (PyDict.keys d).
Proof.
  induction d as [|[k' v'] d IH]; simpl; [tauto|].
  destruct (eqb k k') eqn:Ek.
  - apply eqb_eq in Ek. subst. split; [discriminate|]. intros H. exfalso. auto.
  - apply eqb_neq in Ek. rewrite IH. split.
    + intros H [Hk|Hk]; [congruence|contradiction].
    + tauto.
Qed.

Lemma get_some_in (k : K) (v : V) (d : list (K * V)) :
  PyDict.get eqb k d = Some v -> In (k, v) d.
Proof.
  induction d as [|[k' v'] d IH]; simpl; [discriminate|].
  destruct (eqb k k') eqn:Ek.
  - apply eqb_eq in Ek. subst. intros H. inversion H. left. reflexivity.
  - intros H. right. apply IH, H.
Qed.

Lemma in_get_some (k : K) (v : V) (d : list (K * V)) :
  NoDup (PyDict.keys d) -> In (k, v) d -> PyDict.get eqb k d = Some v.
Proof.
  induction d as [|[k' v'] d IH]; simpl; intros Hnd Hin; [contradiction|].
  inversion Hnd as [|? ? Hk' Hnd']; subst.
  destruct Hin as [Heq|Hin].
  - inversion Heq; subst. rewrite eqb_refl. reflexivity.
  - destruct (eqb k k') eqn:Ek.
    + apply eqb_eq in Ek. subst. exfalso. apply Hk'.
      apply (in_map fst) in Hin. exact Hin.
    + apply IH; assumption.
Qed.

Lemma set_absent (k : K) (v : V) (d : list (K * V)) :
  PyDict.get eqb k d = None -> PyDict.set eqb k v d = (d ++ [(k, v)])%list.
Proof.
  induction d as [|[k' v'] d IH]; simpl; [reflexivity|].
  destruct (eqb k k'); [discriminate|]. intros H. rewrite IH by exact H. reflexivity.
Qed.

Lemma set_present (k : K) (v old : V) (d : list (K * V)) :
  PyDict.get eqb k d = Some old ->
  exists d1 d2, d = (d1 ++ (k, old) :: d2)%list /\
                PyDict.get eqb k d1 = None /\
                PyDict.set eqb k v d = (d1 ++ (k, v) :: d2)%list.
Proof.
  induction d as [|[k' v'] d IH]; simpl; [discriminate|].
  destruct (eqb k k') eqn:Ek.
  - apply eqb_eq in Ek. subst k'. intros H. inversion H; subst.
    exists [], d. repeat split.
  - intros H. destruct (IH H) as (d1 & d2 & -> & Hn & Hs).
    exists ((k', v') :: d1), d2. simpl. rewrite Ek, Hs. auto.
Qed.

Lemma keys_set (k : K) (v : V) (d : list (K * V)) :
  PyDict.keys (PyDict.set eqb k v d)
  = match PyDict.get eqb k d with
    | Some _ => PyDict.keys d
    | None => (PyDict.keys d ++ [k])%list
    end.
Proof.
  unfold PyDict.keys.
  induction d as [|[k' v'] d IH]; simpl; [reflexivity|].
  destruct (eqb k k') eqn:Ek; simpl; [reflexivity|].
  rewrite IH. destruct (PyDict.get eqb k d); reflexivity.
Qed.

Lemma set_not_nil (k : K) (v : V) (d : list (K * V)) : PyDict.set eqb k v d <> [].
Proof.
  destruct d as [|[k' v'] d]; simpl; [discriminate|].
  destruct (eqb k k'); discriminate.
Qed.

(** A set of equal elements has one element. *)
Lemma set_of_constant (x : K) (l : list K) :
  l <> [] -> (forall y, In y l -> y = x) -> MissedMessages.set_of eqb l = [x].
Proof.
  induction l as [|a l IH]; [congruence|]. intros _ Hall.
  assert (a = x) by (apply Hall; left; reflexivity). subst a.
  cbn [MissedMessages.set_of]. destruct l as [|b l]; [reflexivity|].
  rewrite IH; [|discriminate|intros y Hy; apply Hall; right; exact Hy].
  simpl. rewrite eqb_refl. reflexivity.
Qed.

Lemma set_of_subset (l : list K) (x : K) :
  In x (MissedMessages.set_of eqb l) -> In x l.
Proof.
  induction l as [|a l IH]; simpl; [tauto|].
  intros [H|H]; [auto|]. apply filter_In in H as [H _]. auto.
Qed.

End Facts.

Lemma BucketTup_eqb_eq (a b : MissedMessages.BucketTup) :
  MissedMessages.BucketTup_eqb a b = true <-> a = b.
Proof.
  destruct a as [r1 [s1|t1]], b as [r2 [s2|t2]];
    unfold MissedMessages.BucketTup_eqb; simpl;
    rewrite ?andb_true_iff, ?andb_false_r, ?Z.eqb_eq, ?String.eqb_eq;
    split; intros H; try discriminate; try (destruct H; congruence);
    try (inversion H; auto).
Qed.

Lemma recipient_topic_eqb_eq (a b : Z * string) :
  MissedMessages.recipient_topic_eqb a b = true <-> a = b.
Proof.
  destruct a as [r1 t1], b as [r2 t2]. unfold MissedMessages.recipient_topic_eqb. simpl.
  rewrite andb_true_iff, Z.eqb_eq, String.eqb_eq.
  split; [intros [-> ->]; reflexivity|intros H; inversion H; auto].
Qed.

(** [for x in xs] with exceptions, element by element. *)
Lemma rmap_ok {X Y : Type} (f : X -> Result Y) (l : list X) (l' : list Y) :
  rmap f l = Ok l' -> Forall2 (fun x y => f x = Ok y) l l'.
Proof.
  revert l'. induction l as [|x l IH]; simpl; intros l' H.
  - inversion H. constructor.
  - destruct (f x) as [y|] eqn:Ef; simpl in H; [|discriminate].
    destruct (rmap f l) as [ys|]; simpl in H; [|discriminate].
    inversion H; subst. constructor; [exact Ef|apply IH; reflexivity].
Qed.

Lemma rmap_total {X Y : Type} (f : X -> Result Y) (l : list X) :
  Forall (fun x => exists y, f x = Ok y) l -> exists l', rmap f l = Ok l'.
Proof.
  induction 1 as [|x l [y Hy] _ [l' IH]]; simpl; [eauto|].
  rewrite Hy, IH. simpl. eauto.
Qed.

End DictFacts.


(** ** The notification emitter *)

Module EmitterFacts.

Import Model MissedMessages.

Lemma lookup_update (c : Context) (entries : list (string * Value)) (k : string) :
  lookup (update c entries) k
  = match PyDict.get String.eqb k (rev entries) with
    | Some v => Some v
    | None => lookup c k
    end.
Proof. apply (DictFacts.get_update String.eqb String.eqb_eq). Qed.

(** Taking [missed_message_email] apart along its control flow: the test at
    the head of the computation is decided, one at a time. *)
Ltac head_destruct x :=
  lazymatch x with
  | match ?y with _ => _ end => head_destruct y
  | rbind ?y _ => head_destruct y
  | _ => let Ex := fresh "Ex" in destruct x eqn:Ex
  end.

Ltac open_head H :=
  repeat (cbn [rbind] in H;
          lazymatch type of H with
          | Raised _ = Ok _ => discriminate H
          | match ?x with _ => _ end = _ => head_destruct x
          | rbind ?x _ = _ => head_destruct x
          end).

(** The same, for a goal that says the computation returns. *)
Ltac open_goal :=
  repeat (cbn [rbind returns];
          lazymatch goal with
          | |- returns (match ?x with _ => _ end) => head_destruct x
          | |- returns (rbind ?x _) => head_destruct x
          end).

(** Reading one entry of the context of the email that [H] speaks of. *)
Ltac read_entry H k :=
  apply (f_equal (fun r => match r with
                           | Ok (e, _, _) => lookup (context e) k
                           | Raised _ => None
                           end)) in H;
  cbn beta iota in H; rewrite <- H; clear H;
  cbn [context]; rewrite ?lookup_update;
  cbv beta iota delta [rev app PyDict.get String.eqb Ascii.eqb Bool.eqb];
  reflexivity.

Lemma returns_ok {A : Type} (r : Result A) : returns r -> exists a, r = Ok a.
Proof. destruct r; simpl; [eauto|tauto]. Qed.

Section Facts.

Variable E : Collaborators.

(** The assertion of line 403 comes first: a list that mixes recipients or
    topics raises before anything else happens. *)
Lemma mixed_recipients_raise (R : Rendering) (user_profile : UserProfile)
    (missed_messages : list MissedMessage) (message_count : Z) :
  List.length (recipients_of E missed_messages) <> 1%nat ->
  do_send_missedmessage_events_reply_in_zulip E R user_profile missed_messages message_count
  = ([], Raised (AssertionError
                   ("Unexpectedly multiple recipients: "
                    ++ repr_recipients E (recipients_of E missed_messages)))).
Proof.
  intros H. unfold do_send_missedmessage_events_reply_in_zulip, missed_message_email.
  apply Nat.eqb_neq in H. rewrite H. reflexivity.
Qed.

(** The effects of the emitter: none when it raises, else the soft
    reactivation, one email on the queue and the reminder time. *)
Lemma emitter_effects (R : Rendering) (user_profile : UserProfile)
    (missed_messages : list MissedMessage) (message_count : Z)
    (effects : list Effect) (outcome : Result unit) :
  do_send_missedmessage_events_reply_in_zulip E R user_profile missed_messages message_count
  = (effects, outcome) ->
  match outcome with
  | Raised e =>
      effects = [] /\
      missed_message_email E R user_profile missed_messages message_count = Raised e
  | Ok _ =>
      exists email unique_triggers group,
        missed_message_email E R user_profile missed_messages message_count
        = Ok (email, unique_triggers, group) /\
        effects = [SoftReactivate user_profile unique_triggers group;
                   QueuePublish "email_senders" email;
                   SaveLastReminder (user_id user_profile) (timezone_now E)]
  end.
Proof.
  unfold do_send_missedmessage_events_reply_in_zulip.
  destruct (missed_message_email E R user_profile missed_messages message_count)
    as [[[email ut] g]|e]; intros H; inversion H; subst; eauto.
Qed.

(** The count handed to the emitter is the [message_count] of the email. *)
Lemma email_message_count (R : Rendering) (user_profile : UserProfile)
    (missed_messages : list MissedMessage) (message_count : Z)
    (email : EmailDict) ut g :
  missed_message_email E R user_profile missed_messages message_count = Ok (email, ut, g) ->
  lookup (context email) "message_count" = Some (VInt message_count).
Proof.
  intros H. unfold missed_message_email in H. cbv zeta in H.
  open_head H; read_entry H "message_count".
Qed.

(** With message content disabled, the email carries no message and no
    sender, and says who disabled the content. *)
Lemma email_without_content (R : Rendering) (user_profile : UserProfile)
    (missed_messages : list MissedMessage) (message_count : Z)
    (email : EmailDict) ut g :
  message_content_allowed_in_missedmessage_emails user_profile = false ->
  missed_message_email E R user_profile missed_messages message_count = Ok (email, ut, g) ->
  lookup (context email) "messages" = Some (VMessages []) /\
  lookup (context email) "sender_str" = Some (VStr "") /\
  lookup (context email) "show_message_content" = Some (VBool false) /\
  lookup (context email) "message_content_disabled_by_user"
  = Some (VBool (negb (message_content_in_email_notifications user_profile))) /\
  lookup (context email) "message_content_disabled_by_realm"
  = Some (VBool (negb (message_content_allowed_in_email_notifications
                         (realm user_profile)))).
Proof.
  intros Hc H. unfold missed_message_email in H. rewrite Hc in H.
  cbv zeta in H. cbn [negb] in H. open_head H.
  all: repeat split.
  all: match goal with
       | |- lookup _ ?k = _ => read_entry H k
       end.
Qed.

(** With message content disabled, the emitter returns once the checks that
    come before the content are passed: one recipient and topic, and for a
    stream a stream that exists and a first message that is a mention or a
    stream notification, for a group the roster of the group. *)
Lemma email_without_content_returns (R : Rendering) (user_profile : UserProfile)
    (first : MissedMessage) (others : list MissedMessage) (message_count : Z) :
  message_content_allowed_in_missedmessage_emails user_profile = false ->
  List.length (recipients_of E (first :: others)) = 1%nat ->
  match recipient_type (recipient (mm_message first)) with
  | PERSONAL => True
  | HUDDLE =>
      exists users,
        get_display_recipient E (recipient (mm_message first)) = DisplayUsers users
  | STREAM =>
      (exists stream,
          get_stream E (type_id (recipient (mm_message first))) = Some stream) /\
      (mm_trigger first = Some "mentioned" \/
       mm_trigger first = Some "wildcard_mentioned" \/
       mm_trigger first = Some "stream_email_notify")
  end ->
  returns (missed_message_email E R user_profile (first :: others) message_count).
Proof.
  intros Hc Hlen Hcase. unfold missed_message_email.
  apply Nat.eqb_eq in Hlen. rewrite Hc, Hlen. cbv zeta. cbn [negb].
  unfold MessageList.get_narrow_url.
  destruct (recipient_type (recipient (mm_message first))) eqn:Ht.
  - open_goal; exact I.
  - destruct Hcase as [[stream Hs] Htr]. rewrite Hs. open_goal; try exact I.
    cbn [map set_of existsb] in *.
    destruct Htr as [H|[H|H]]; rewrite H in *;
      cbn [opt_string_eqb String.eqb Ascii.eqb Bool.eqb orb] in *;
      rewrite ?Bool.orb_true_r in *; discriminate.
  - destruct Hcase as [users Hd]. rewrite Hd. open_goal; exact I.
Qed.

(** With message content disabled, the rewriters have no say in the
    outcome. *)
Lemma email_without_content_rendering (R1 R2 : Rendering) (user_profile : UserProfile)
    (missed_messages : list MissedMessage) (message_count : Z) :
  message_content_allowed_in_missedmessage_emails user_profile = false ->
  missed_message_email E R1 user_profile missed_messages message_count
  = missed_message_email E R2 user_profile missed_messages message_count.
Proof.
  intros Hc. unfold missed_message_email. rewrite Hc. reflexivity.
Qed.

(** The participant summary of a group conversation reaches the email when
    the content may be shown. *)
Lemma email_huddle_display_name (R : Rendering) (user_profile : UserProfile)
    (first : MissedMessage) (others : list MissedMessage) (message_count : Z)
    (email : EmailDict) ut g (users : list UserDisplayRecipient) :
  message_content_allowed_in_missedmessage_emails user_profile = true ->
  recipient_type (recipient (mm_message first)) = HUDDLE ->
  get_display_recipient E (recipient (mm_message first)) = DisplayUsers users ->
  missed_message_email E R user_profile (first :: others) message_count
  = Ok (email, ut, g) ->
  lookup (context email) "huddle_display_name"
  = Some (VStr (huddle_display_name
                  (map dr_full_name
                     (filter (fun r => negb (Z.eqb (dr_id r) (user_id user_profile)))
                        users)))).
Proof.
  intros Hc Ht Hd H. unfold missed_message_email in H.
  rewrite Hc, Ht, Hd in H. cbv zeta in H. cbn [negb] in H.
  open_head H; read_entry H "huddle_display_name".
Qed.

End Facts.

End EmitterFacts.

(** ** The missed-message bucketer *)

Module BucketerFacts.

Import Model MissedMessages DictFacts.

Lemma Forall2_in_r {X Y : Type} (P : X -> Y -> Prop) (l : list X) (l' : list Y) (y : Y) :
  Forall2 P l l' -> In y l' -> exists x, In x l /\ P x y.
Proof.
  induction 1 as [|a b l l' Hab _ IH]; simpl; [contradiction|].
  intros [<-|Hin]; [eauto|]. destruct (IH Hin) as (x & Hx & Hp). eauto.
Qed.

Lemma Forall2_in_l {X Y : Type} (P : X -> Y -> Prop) (l : list X) (l' : list Y) (x : X) :
  Forall2 P l l' -> In x l -> exists y, In y l' /\ P x y.
Proof.
  induction 1 as [|a b l l' Hab _ IH]; simpl; [contradiction|].
  intros [<-|Hin]; [eauto|]. destruct (IH Hin) as (y & Hy & Hp). eauto.
Qed.

Section Facts.

Variable E : Collaborators.

(** [m] belongs under the key [k]. *)
Definition in_bucket (k : BucketTup) (m : Message) : bool :=
  BucketTup_eqb k (bucket_of E m).

Lemma bucket_messages_snoc (msgs : list Message) (m : Message) :
  bucket_messages E (msgs ++ [m]) = bucket_append E (bucket_messages E msgs) m.
Proof. unfold bucket_messages. rewrite fold_left_app. reflexivity. Qed.

(** What the dictionary holds under a key: the messages of that key, in the
    order in which they came, and nothing when there is none. *)
Lemma bucket_get (msgs : list Message) (k : BucketTup) :
  PyDict.get BucketTup_eqb k (bucket_messages E msgs)
  = match filter (in_bucket k) msgs with
    | [] => None
    | l => Some l
    end.
Proof.
  induction msgs as [|m msgs IH] using rev_ind; [reflexivity|].
  rewrite bucket_messages_snoc. unfold bucket_append.
  rewrite (get_set BucketTup_eqb BucketTup_eqb_eq), filter_app.
  cbn [filter]. unfold in_bucket at 2.
  destruct (BucketTup_eqb k (bucket_of E m)) eqn:Ek.
  - apply BucketTup_eqb_eq in Ek. subst k. rewrite IH.
    destruct (filter (in_bucket (bucket_of E m)) msgs); reflexivity.
  - rewrite app_nil_r. exact IH.
Qed.

Lemma bucket_keys_NoDup (msgs : list Message) :
  NoDup (PyDict.keys (bucket_messages E msgs)).
Proof.
  induction msgs as [|m msgs IH] using rev_ind; [constructor|].
  rewrite bucket_messages_snoc. unfold bucket_append.
  rewrite (keys_set BucketTup_eqb).
  destruct (PyDict.get BucketTup_eqb (bucket_of E m) (bucket_messages E msgs)) eqn:Eg;
    [exact IH|].
  apply (get_none BucketTup_eqb BucketTup_eqb_eq) in Eg.
  apply NoDup_app; [exact IH|repeat constructor; intros []|].
  intros a Ha [<-|[]]. contradiction.
Qed.

Lemma bucket_entry (msgs : list Message) (k : BucketTup) (l : list Message) :
  In (k, l) (bucket_messages E msgs) ->
  l = filter (in_bucket k) msgs /\ l <> [].
Proof.
  intros H.
  apply (in_get_some BucketTup_eqb BucketTup_eqb_eq) in H; [|apply bucket_keys_NoDup].
  rewrite bucket_get in H.
  destruct (filter (in_bucket k) msgs); inversion H; subst. split; [reflexivity|discriminate].
Qed.

Lemma bucket_covers (msgs : list Message) (m : Message) :
  In m msgs ->
  exists l, In (bucket_of E m, l) (bucket_messages E msgs) /\ In m l.
Proof.
  intros H.
  assert (Hf : In m (filter (in_bucket (bucket_of E m)) msgs)).
  { apply filter_In. split; [exact H|]. apply BucketTup_eqb_eq. reflexivity. }
  pose proof (bucket_get msgs (bucket_of E m)) as Hg.
  destruct (filter (in_bucket (bucket_of E m)) msgs) as [|a l]; [contradiction|].
  exists (a :: l). split; [|exact Hf].
  apply (get_some_in BucketTup_eqb BucketTup_eqb_eq), Hg.
Qed.

(** The buckets hold every message once. *)
Lemma bucket_values_perm (msgs : list Message) :
  Permutation (List.concat (PyDict.values (bucket_messages E msgs))) msgs.
Proof.
  induction msgs as [|m msgs IH] using rev_ind; [constructor|].
  rewrite bucket_messages_snoc. unfold bucket_append.
  destruct (PyDict.get BucketTup_eqb (bucket_of E m) (bucket_messages E msgs))
    as [old|] eqn:Eg.
  - destruct (set_present BucketTup_eqb BucketTup_eqb_eq _ (old ++ [m])%list _ _ Eg)
      as (d1 & d2 & Hd & _ & Hs).
    rewrite Hs. rewrite Hd in IH. unfold PyDict.values in *.
    rewrite map_app, concat_app in *. cbn [map List.concat snd] in *.
    apply Permutation_trans
      with ((List.concat (map snd d1) ++ old ++ List.concat (map snd d2)) ++ [m])%list.
    + rewrite <- !app_assoc. apply Permutation_app_head.
      apply Permutation_app_head. apply Permutation_app_comm.
    + apply Permutation_app_tail, IH.
  - rewrite (set_absent BucketTup_eqb _ _ _ Eg). unfold PyDict.values.
    rewrite map_app, concat_app. cbn [map List.concat snd app].
    apply Permutation_app_tail, IH.
Qed.

(** *** Context messages and the order of the buckets *)

Lemma with_context_ok (user_profile : UserProfile) (l : list Message) :
  l <> [] ->
  exists msg extra,
    Py.min_by date_sent l = Some msg /\
    with_context E user_profile l = Ok (l ++ extra)%list /\
    extra = if is_stream_message msg
            then bulk_access_messages E user_profile (get_context_for_message E msg)
            else [].
Proof.
  intros Hne. destruct (PyFacts.min_by_some date_sent l Hne) as [msg Hm].
  unfold with_context. rewrite Hm. exists msg.
  destruct (is_stream_message msg); eexists; repeat split.
  rewrite app_nil_r. reflexivity.
Qed.

Lemma max_message_id_ok (l : list Message) :
  l <> [] -> exists msg, Py.max_by message_id l = Some msg /\
                         max_message_id l = Ok (message_id msg).
Proof.
  intros Hne. destruct (PyFacts.max_by_some message_id l Hne) as [msg Hm].
  unfold max_message_id. rewrite Hm. eauto.
Qed.

(** Two dictionaries with the same keys in the same order whose values are
    related entry by entry. *)
Definition entrywise {A B : Type} (P : A -> B -> Prop)
    (d : list (BucketTup * A)) (d' : list (BucketTup * B)) : Prop :=
  Forall2 (fun e e' => fst e' = fst e /\ P (snd e) (snd e')) d d'.

Lemma entrywise_keys {A B : Type} (P : A -> B -> Prop) d d' :
  entrywise P d d' -> PyDict.keys d' = PyDict.keys d.
Proof.
  unfold PyDict.keys. induction 1 as [|e e' d d' [Hk _] _ IH]; simpl; congruence.
Qed.

Lemma entrywise_get {A B : Type} (P : A -> B -> Prop) d d' (k : BucketTup) :
  entrywise P d d' ->
  match PyDict.get BucketTup_eqb k d, PyDict.get BucketTup_eqb k d' with
  | Some v, Some v' => P v v'
  | None, None => True
  | _, _ => False
  end.
Proof.
  induction 1 as [|[k1 v] [k2 v'] d d' [Hk Hv] _ IH]; simpl in *; [exact I|].
  subst k2. destruct (BucketTup_eqb k k1); [exact Hv|exact IH].
Qed.

(** What [prepare_buckets] returns. *)
Lemma prepare_buckets_spec (user_profile : UserProfile) (msgs : list Message)
    mbb counts tups :
  prepare_buckets E user_profile msgs = Ok (mbb, counts, tups) ->
  counts = count_by_bucket (bucket_messages E msgs) /\
  entrywise (fun l l' => with_context E user_profile l = Ok l')
    (bucket_messages E msgs) mbb /\
  exists tups0,
    entrywise (fun l' id => max_message_id l' = Ok id) mbb tups0 /\
    tups = Py.sorted snd tups0.
Proof.
  unfold prepare_buckets.
  destruct (rmap _ (bucket_messages E msgs)) as [mbb0|] eqn:E1; cbn [rbind]; [|discriminate].
  destruct (rmap _ mbb0) as [tups0|] eqn:E2; cbn [rbind]; [|discriminate].
  intros H. inversion H; subst; clear H. split; [reflexivity|]. split.
  - apply rmap_ok in E1. unfold entrywise.
    eapply Forall2_impl; [|exact E1]. intros [k l] [k' l'] Hx. simpl in *.
    destruct (with_context E user_profile l); simpl in Hx; [|discriminate].
    inversion Hx; subst. auto.
  - exists tups0. split; [|reflexivity].
    apply rmap_ok in E2. unfold entrywise.
    eapply Forall2_impl; [|exact E2]. intros [k l] [k' l'] Hx. simpl in *.
    destruct (max_message_id l); simpl in Hx; [|discriminate].
    inversion Hx; subst. auto.
Qed.

(** [prepare_buckets] does not raise. *)
Lemma prepare_buckets_ok (user_profile : UserProfile) (msgs : list Message) :
  exists mbb counts tups,
    prepare_buckets E user_profile msgs = Ok (mbb, counts, tups).
Proof.
  unfold prepare_buckets.
  destruct (rmap_total
              (fun entry : BucketTup * list Message =>
                 msg_list <- with_context E user_profile (snd entry) ;;
                 Ok (fst entry, msg_list))
              (bucket_messages E msgs)) as [mbb0 H1].
  { apply Forall_forall. intros [k l] Hin. apply bucket_entry in Hin as [_ Hne].
    destruct (with_context_ok user_profile l Hne) as (msg & extra & _ & Hw & _).
    simpl. rewrite Hw. simpl. eauto. }
  rewrite H1. cbn [rbind].
  destruct (rmap_total
              (fun entry : BucketTup * list Message =>
                 max_id <- max_message_id (snd entry) ;;
                 Ok (fst entry, max_id))
              mbb0) as [tups0 H2].
  { apply rmap_ok in H1. apply Forall_forall. intros [k l'] Hin.
    destruct (Forall2_in_r _ _ _ _ H1 Hin) as ([k0 l] & Hin0 & Hx).
    simpl in Hx. apply bucket_entry in Hin0 as [_ Hne].
    destruct (with_context_ok user_profile l Hne) as (msg & extra & _ & Hw & _).
    rewrite Hw in Hx. simpl in Hx. inversion Hx; subst.
    destruct (max_message_id_ok (l ++ extra)) as (mx & _ & Hmx).
    { destruct l; [congruence|discriminate]. }
    simpl. rewrite Hmx. simpl. eauto. }
  rewrite H2. cbn [rbind]. eauto.
Qed.

Lemma get_count_by_bucket (d : list (BucketTup * list Message)) (k : BucketTup) :
  PyDict.get BucketTup_eqb k (count_by_bucket d)
  = option_map (fun l => Z.of_nat (List.length l)) (PyDict.get BucketTup_eqb k d).
Proof.
  unfold count_by_bucket. induction d as [|[k' l] d IH]; simpl; [reflexivity|].
  destruct (BucketTup_eqb k k'); [reflexivity|exact IH].
Qed.

(** The count of a bucket is the number of fetched messages under its key. *)
Lemma prepared_count (user_profile : UserProfile) (msgs : list Message)
    mbb counts tups (k : BucketTup) (c : Z) :
  prepare_buckets E user_profile msgs = Ok (mbb, counts, tups) ->
  PyDict.get BucketTup_eqb k counts = Some c ->
  c = Z.of_nat (List.length (filter (in_bucket k) msgs)).
Proof.
  intros Hp Hc. apply prepare_buckets_spec in Hp as (-> & _ & _).
  rewrite get_count_by_bucket, bucket_get in Hc.
  destruct (filter (in_bucket k) msgs); simpl in Hc; inversion Hc. reflexivity.
Qed.

(** The messages of a bucket are the fetched messages under its key,
    followed by the context messages of the earliest of them when that one
    is a stream message. *)
Lemma prepared_messages (user_profile : UserProfile) (msgs : list Message)
    mbb counts tups (k : BucketTup) (l' : list Message) :
  prepare_buckets E user_profile msgs = Ok (mbb, counts, tups) ->
  PyDict.get BucketTup_eqb k mbb = Some l' ->
  exists msg,
    filter (in_bucket k) msgs <> [] /\
    Py.min_by date_sent (filter (in_bucket k) msgs) = Some msg /\
    l' = (filter (in_bucket k) msgs
          ++ (if is_stream_message msg
              then bulk_access_messages E user_profile (get_context_for_message E msg)
              else []))%list.
Proof.
  intros Hp Hg. apply prepare_buckets_spec in Hp as (_ & Hw & _).
  pose proof (entrywise_get _ _ _ k Hw) as Hk. rewrite Hg, bucket_get in Hk.
  destruct (filter (in_bucket k) msgs) as [|a l] eqn:Ef; [contradiction|].
  destruct (with_context_ok user_profile (a :: l) ltac:(discriminate))
    as (msg & extra & Hmin & Hwc & Hex).
  rewrite Hwc in Hk. inversion Hk; subst. exists msg.
  split; [discriminate|]. split; [exact Hmin|reflexivity].
Qed.

(** The order of the buckets: every bucket once, by ascending greatest
    message id. *)
Lemma prepared_order (user_profile : UserProfile) (msgs : list Message)
    mbb counts tups :
  prepare_buckets E user_profile msgs = Ok (mbb, counts, tups) ->
  Permutation (map fst tups) (PyDict.keys (bucket_messages E msgs)) /\
  PyFacts.ascending snd tups /\
  forall k id, In (k, id) tups ->
    exists l' c,
      PyDict.get BucketTup_eqb k mbb = Some l' /\
      PyDict.get BucketTup_eqb k counts = Some c /\
      (exists m, In m l' /\ message_id m = id) /\
      (forall m, In m l' -> message_id m <= id).
Proof.
  intros Hp. pose proof (prepare_buckets_spec _ _ _ _ _ Hp) as (Hc & Hw & tups0 & Hm & Ht).
  pose proof (entrywise_keys _ _ _ Hw) as Hk1.
  pose proof (entrywise_keys _ _ _ Hm) as Hk2.
  assert (Hperm : Permutation tups tups0).
  { subst tups. apply Permutation_sym, PyFacts.sorted_perm. }
  split; [|split].
  - apply Permutation_trans with (map fst tups0); [apply Permutation_map, Hperm|].
    unfold PyDict.keys in *. rewrite Hk2, Hk1. apply Permutation_refl.
  - subst tups. apply PyFacts.sorted_ascending.
  - intros k id Hin. apply (Permutation_in _ Hperm) in Hin.
    destruct (Forall2_in_r _ _ _ _ Hm Hin) as ([k' l'] & Hin' & Hk & Hmax).
    simpl in Hk, Hmax. subst k'.
    assert (Hnd : NoDup (PyDict.keys mbb)).
    { rewrite Hk1. apply bucket_keys_NoDup. }
    pose proof (in_get_some BucketTup_eqb BucketTup_eqb_eq _ _ _ Hnd Hin') as Hg.
    unfold max_message_id in Hmax.
    destruct (Py.max_by message_id l') as [mx|] eqn:Emx; [|discriminate].
    inversion Hmax; subst id.
    destruct (prepared_messages _ _ _ _ _ _ _ Hp Hg) as (msg & Hne & _ & _).
    exists l', (Z.of_nat (List.length (filter (in_bucket k) msgs))).
    split; [exact Hg|]. split.
    + rewrite Hc, get_count_by_bucket, bucket_get.
      destruct (filter (in_bucket k) msgs); [congruence|reflexivity].
    + split.
      * exists mx. split; [apply (PyFacts.max_by_in _ _ _ Emx)|reflexivity].
      * apply (PyFacts.max_by_upper _ _ _ Emx).
Qed.

(** *** The loop over the buckets *)

Lemma published_app (a b : list Effect) :
  published (a ++ b) = (published a ++ published b)%list.
Proof. unfold published. apply flat_map_app. Qed.

(** The email of one bucket. *)
Definition bucket_email (R : Rendering) (user_profile : UserProfile)
    (message_ids : list (Z * TriggerInfo))
    (mbb : list (BucketTup * list Message)) (counts : list (BucketTup * Z))
    (tup : BucketTup * Z) (email : EmailDict) : Prop :=
  exists l c ut g,
    PyDict.get BucketTup_eqb (fst tup) mbb = Some l /\
    PyDict.get BucketTup_eqb (fst tup) counts = Some c /\
    missed_message_email E R user_profile
      (PyDict.values (unique_messages message_ids l)) c
    = Ok (email, ut, g).

(** The emails on the queue are those of the buckets the loop got through,
    one each and in order; it got through all of them when it did not
    raise. *)
Lemma send_buckets_published (R : Rendering) (user_profile : UserProfile)
    message_ids mbb counts (tups : list (BucketTup * Z))
    (effects : list Effect) (outcome : Result unit) :
  send_buckets E R user_profile message_ids mbb counts tups = (effects, outcome) ->
  exists sent rest,
    tups = (sent ++ rest)%list /\
    Forall2 (bucket_email R user_profile message_ids mbb counts) sent (published effects) /\
    (outcome = Ok tt -> rest = []).
Proof.
  revert effects outcome. induction tups as [|[k id] tups IH]; intros effects outcome H.
  - simpl in H. inversion H; subst. exists [], []. repeat split; constructor.
  - cbn [send_buckets] in H.
    destruct (PyDict.get BucketTup_eqb k mbb) as [l|] eqn:Egl.
    2:{ inversion H; subst. exists [], ((k, id) :: tups).
        repeat split; [constructor|discriminate]. }
    destruct (PyDict.get BucketTup_eqb k counts) as [c|] eqn:Egc.
    2:{ inversion H; subst. exists [], ((k, id) :: tups).
        repeat split; [constructor|discriminate]. }
    destruct (do_send_missedmessage_events_reply_in_zulip E R user_profile
                (PyDict.values (unique_messages message_ids l)) c)
      as [eff [u|e]] eqn:Ed.
    + apply EmitterFacts.emitter_effects in Ed as (email & ut & g & Hemail & ->).
      destruct (send_buckets E R user_profile message_ids mbb counts tups)
        as [eff' out'] eqn:Es.
      inversion H; subst; clear H.
      destruct (IH eff' outcome eq_refl) as (sent & rest & -> & Hf & Hr).
      exists ((k, id) :: sent), rest. split; [reflexivity|]. split; [|exact Hr].
      unfold published at 1. cbn [flat_map app]. fold (published eff').
      constructor; [|exact Hf].
      exists l, c, ut, g. auto.
    + apply EmitterFacts.emitter_effects in Ed as (-> & _).
      inversion H; subst. exists [], ((k, id) :: tups).
      repeat split; [constructor|discriminate].
Qed.

(** When the emitter returns for every bucket, the loop returns, with one
    email for each bucket. *)
Lemma send_buckets_returns (R : Rendering) (user_profile : UserProfile)
    message_ids mbb counts (tups : list (BucketTup * Z)) :
  (forall k id, In (k, id) tups ->
     exists l c,
       PyDict.get BucketTup_eqb k mbb = Some l /\
       PyDict.get BucketTup_eqb k counts = Some c /\
       returns (missed_message_email E R user_profile
                  (PyDict.values (unique_messages message_ids l)) c)) ->
  exists effects,
    send_buckets E R user_profile message_ids mbb counts tups = (effects, Ok tt) /\
    Forall2 (bucket_email R user_profile message_ids mbb counts) tups (published effects).
Proof.
  induction tups as [|[k id] tups IH]; intros Hall.
  - exists []. split; [reflexivity|constructor].
  - destruct (Hall k id (or_introl eq_refl)) as (l & c & Hl & Hc & Hr).
    apply EmitterFacts.returns_ok in Hr as [[[email ut] g] Hemail].
    destruct IH as (eff' & Hs & Hf).
    { intros k' id' Hin. apply (Hall k' id'). right. exact Hin. }
    cbn [send_buckets]. rewrite Hl, Hc.
    unfold do_send_missedmessage_events_reply_in_zulip. rewrite Hemail, Hs.
    eexists. split; [reflexivity|].
    unfold published at 1. cbn [flat_map app]. fold (published eff').
    constructor; [|exact Hf].
    exists l, c, ut, g. auto.
Qed.

(** What [handle_missedmessage_emails] does for a user who gets emails and
    has unread messages among the events. *)
Lemma handle_sends (R : Rendering) (user_profile_id : Z) (events : list Event)
    (user_profile : UserProfile) mbb counts tups :
  get_user_profile_by_id E user_profile_id = Some user_profile ->
  is_bot user_profile = false ->
  enable_offline_email_notifications user_profile = true ->
  unread_messages E user_profile (message_ids_of events) <> [] ->
  prepare_buckets E user_profile
    (unread_messages E user_profile (message_ids_of events))
  = Ok (mbb, counts, tups) ->
  handle_missedmessage_emails E R user_profile_id events
  = send_buckets E R user_profile (message_ids_of events) mbb counts tups.
Proof.
  intros Hu Hb He Hne Hp. unfold handle_missedmessage_emails.
  rewrite Hu, Hb, He. cbn [negb].
  destruct (unread_messages E user_profile (message_ids_of events)); [congruence|].
  rewrite Hp. reflexivity.
Qed.

(** *** The entries handed to the emitter *)

Lemma in_set_value {V : Type} (k k0 : Z) (v v0 : V) (d : list (Z * V)) :
  In (k0, v0) (PyDict.set Z.eqb k v d) -> In (k0, v0) d \/ v0 = v.
Proof.
  induction d as [|[k' v'] d IH]; simpl.
  - intros [H|[]]. inversion H. auto.
  - destruct (Z.eqb k k'); simpl.
    + intros [H|H]; [inversion H; auto|auto].
    + intros [H|H]; [auto|]. destruct (IH H); auto.
Qed.

Lemma unique_messages_from (message_ids : list (Z * TriggerInfo))
    (l : list Message) (mm : MissedMessage) :
  In mm (PyDict.values (unique_messages message_ids l)) -> In (mm_message mm) l.
Proof.
  unfold unique_messages.
  assert (H : forall acc,
             (forall e, In e acc -> In (mm_message (snd e)) l) ->
             forall l0, incl l0 l ->
             forall e,
               In e (fold_left
                       (fun unique m =>
                          let message_info := PyDict.get Z.eqb (message_id m) message_ids in
                          PyDict.set Z.eqb (message_id m)
                            (mkMissedMessage m
                               (match message_info with
                                | Some info => info_trigger info
                                | None => None
                                end)
                               (match message_info with
                                | Some info => info_mentioned_user_group_id info
                                | None => None
                                end))
                            unique)
                       l0 acc) ->
               In (mm_message (snd e)) l).
  { intros acc Hacc l0. revert acc Hacc.
    induction l0 as [|m l0 IH]; intros acc Hacc Hincl e He; [apply Hacc, He|].
    cbn [fold_left] in He. apply IH in He; [exact He| |].
    - intros [k0 v0] Hin. apply in_set_value in Hin as [Hin| ->].
      + apply (Hacc _ Hin).
      + simpl. apply Hincl. left. reflexivity.
    - intros x Hx. apply Hincl. right. exact Hx. }
  intros Hin. unfold PyDict.values in Hin. apply in_map_iff in Hin as (e & <- & He).
  apply (H [] ltac:(intros ? []) l (incl_refl l) e He).
Qed.

Lemma unique_messages_not_nil (message_ids : list (Z * TriggerInfo)) (l : list Message) :
  l <> [] -> PyDict.values (unique_messages message_ids l) <> [].
Proof.
  unfold unique_messages. intros Hne.
  destruct l as [|m l] using rev_ind; [congruence|].
  rewrite fold_left_app. cbn [fold_left]. unfold PyDict.values.
  intros H. apply map_eq_nil in H. revert H. apply set_not_nil.
Qed.

End Facts.

End BucketerFacts.

(** ** Sets of recipients *)

Module RecipientFacts.

Import Model MissedMessages DictFacts BucketerFacts.

Lemma set_of_complete {X : Type} (eqb : X -> X -> bool)
    (eqb_eq : forall a b, eqb a b = true <-> a = b) (l : list X) (x : X) :
  In x l -> In x (set_of eqb l).
Proof.
  induction l as [|a l IH]; simpl; [tauto|].
  intros [->|H]; [left; reflexivity|].
  destruct (eqb a x) eqn:Ea.
  - apply eqb_eq in Ea. left. exact Ea.
  - right. apply filter_In. split; [apply IH, H|]. rewrite Ea. reflexivity.
Qed.

Section Facts.

Variable E : Collaborators.

(** The pair the emitter compares. *)
Definition recipient_topic (m : Message) : Z * string :=
  (message_recipient_id m, lower E (topic_name m)).

(** The assertion of the emitter holds exactly for a list that is not empty
    and has one pair throughout. *)
Lemma one_recipient_iff (missed_messages : list MissedMessage) :
  List.length (recipients_of E missed_messages) = 1%nat <->
  missed_messages <> [] /\
  forall a b, In a missed_messages -> In b missed_messages ->
              recipient_topic (mm_message a) = recipient_topic (mm_message b).
Proof.
  unfold recipients_of. split.
  - intros H. split.
    + intros ->. simpl in H. discriminate.
    + destruct (set_of recipient_topic_eqb _) as [|p [|q rest]] eqn:Es;
        simpl in H; try discriminate.
      assert (Hall : forall a, In a missed_messages -> recipient_topic (mm_message a) = p).
      { intros a Ha.
        assert (Hin : In (recipient_topic (mm_message a))
                        (set_of recipient_topic_eqb
                           (map (fun msg => (message_recipient_id (mm_message msg),
                                             lower E (topic_name (mm_message msg))))
                              missed_messages))).
        { apply (set_of_complete _ recipient_topic_eqb_eq).
          apply (in_map (fun msg => recipient_topic (mm_message msg))), Ha. }
        rewrite Es in Hin. destruct Hin as [<-|[]]. reflexivity. }
      intros a b Ha Hb. rewrite (Hall a Ha), (Hall b Hb). reflexivity.
  - intros [Hne Hall]. destruct missed_messages as [|a rest]; [congruence|].
    rewrite (set_of_constant recipient_topic_eqb recipient_topic_eqb_eq
               (recipient_topic (mm_message a))); [reflexivity|discriminate|].
    intros y Hy. apply in_map_iff in Hy as (b & <- & Hb).
    apply (Hall b a); [exact Hb|left; reflexivity].
Qed.

Lemma bucket_of_personal (m : Message) :
  recipient_type (recipient m) = PERSONAL ->
  bucket_of E m = (message_recipient_id m, inl (sender_id m)).
Proof. intros H. unfold bucket_of. rewrite H. reflexivity. Qed.

Lemma bucket_of_topic (m : Message) :
  recipient_type (recipient m) <> PERSONAL ->
  bucket_of E m = (message_recipient_id m, inr (lower E (topic_name m))).
Proof.
  intros H. unfold bucket_of. destruct (recipient_type (recipient m)); congruence.
Qed.

(** Context messages share recipient and topic with the message they are
    fetched for, and the visibility filter only removes messages. *)
Hypothesis context_same_topic : forall msg c,
  In c (get_context_for_message E msg) ->
  recipient_topic c = recipient_topic msg.

Hypothesis access_subset : forall user l c,
  In c (bulk_access_messages E user l) -> In c l.

(** The bucketer hands the emitter one recipient and topic per bucket, as
    long as the direct messages of a bucket agree on the topic. *)
Lemma bucket_one_recipient (user_profile : UserProfile) (msgs : list Message)
    mbb counts tups (message_ids : list (Z * TriggerInfo))
    (k : BucketTup) (l' : list Message) :
  prepare_buckets E user_profile msgs = Ok (mbb, counts, tups) ->
  PyDict.get BucketTup_eqb k mbb = Some l' ->
  (forall m1 m2, In m1 (filter (in_bucket E k) msgs) ->
                 In m2 (filter (in_bucket E k) msgs) ->
                 recipient_type (recipient m1) = PERSONAL ->
                 lower E (topic_name m1) = lower E (topic_name m2)) ->
  List.length (recipients_of E (PyDict.values (unique_messages message_ids l'))) = 1%nat.
Proof.
  intros Hp Hg Hdm.
  destruct (prepared_messages E _ _ _ _ _ _ _ Hp Hg) as (msg & Hne & Hmin & ->).
  set (f := filter (in_bucket E k) msgs) in *.
  assert (Hkey : forall m, In m f -> bucket_of E m = k).
  { intros m Hm. apply filter_In in Hm as [_ Hm]. unfold in_bucket in Hm.
    apply BucketTup_eqb_eq in Hm. congruence. }
  assert (Hf : forall m1 m2, In m1 f -> In m2 f -> recipient_topic m1 = recipient_topic m2).
  { intros m1 m2 H1 H2. pose proof (Hkey m1 H1) as K1. pose proof (Hkey m2 H2) as K2.
    destruct (recipient_type (recipient m1)) eqn:T1.
    - destruct (recipient_type (recipient m2)) eqn:T2.
      + rewrite bucket_of_personal in K1, K2 by assumption.
        unfold recipient_topic. rewrite (Hdm m1 m2 H1 H2 T1).
        f_equal. congruence.
      + rewrite bucket_of_personal in K1 by assumption.
        rewrite bucket_of_topic in K2 by congruence. congruence.
      + rewrite bucket_of_personal in K1 by assumption.
        rewrite bucket_of_topic in K2 by congruence. congruence.
    - rewrite bucket_of_topic in K1 by congruence.
      destruct (recipient_type (recipient m2)) eqn:T2.
      + rewrite bucket_of_personal in K2 by assumption. congruence.
      + rewrite bucket_of_topic in K2 by congruence. unfold recipient_topic. congruence.
      + rewrite bucket_of_topic in K2 by congruence. unfold recipient_topic. congruence.
    - rewrite bucket_of_topic in K1 by congruence.
      destruct (recipient_type (recipient m2)) eqn:T2.
      + rewrite bucket_of_personal in K2 by assumption. congruence.
      + rewrite bucket_of_topic in K2 by congruence. unfold recipient_topic. congruence.
      + rewrite bucket_of_topic in K2 by congruence. unfold recipient_topic. congruence. }
  pose proof (PyFacts.min_by_in _ _ _ Hmin) as Hmsg.
  assert (Hall : forall m,
             In m (f ++ (if is_stream_message msg
                         then bulk_access_messages E user_profile
                                (get_context_for_message E msg)
                         else []))%list ->
             recipient_topic m = recipient_topic msg).
  { intros m Hm. apply in_app_iff in Hm as [Hm|Hm].
    - apply Hf; assumption.
    - destruct (is_stream_message msg); [|contradiction].
      apply context_same_topic. apply (access_subset _ _ _ Hm). }
  apply one_recipient_iff. split.
  - apply unique_messages_not_nil. destruct f; [congruence|discriminate].
  - intros a b Ha Hb. apply unique_messages_from in Ha, Hb.
    rewrite (Hall _ Ha), (Hall _ Hb). reflexivity.
Qed.

End Facts.

End RecipientFacts.

(** * The statements of the specification *)

Module Claims.

Import Model MessageList MissedMessages.

(** C1.  [build_message_list] sorts the messages by send time (a stable,
    ascending sort) and returns one RecipientBlock per maximal run of
    neighbours with equal grouping key, in order.  The grouping key of a
    message is the sender id for a direct message, the recipient id for a
    group message and the recipient id with the lower-cased topic for a
    stream message; two keys are equal when they are of one kind and hold the
    same values.  The builder returns when every message renders; block
    number [n] carries the header of the first message of run number [n], its
    [grouping] entry is the key of every message of the run, and it holds the
    messages of the run grouped by sender; the runs, glued, are the sorted
    list, every run is non-empty with one grouping key throughout,
    neighbouring runs differ in their key, and there is one run more than
    there are changes of key.  Equivalently, two messages of the sorted list
    land in the same block exactly when every message between them has their
    grouping key. *)
Theorem build_message_list_maximal_runs :
  forall (E : Collaborators) (R : Rendering) (user : UserProfile)
         (stream_map : list (Z * Stream)) (messages : list Message),
    let sorted := Py.sorted date_sent messages in
    let groups := runs (grouping_of E) Grouping_eqb sorted in
    ((forall message,
         grouping_of E message
         = match recipient_type (recipient message) with
           | PERSONAL => GUser (sender_id message)
           | HUDDLE => GHuddle (message_recipient_id message)
           | STREAM =>
               GStream (message_recipient_id message) (lower E (topic_name message))
           end) /\
     (forall a b, Grouping_eqb a b = true <-> a = b) /\
     (forall message header,
         message_header E user stream_map message = Ok header ->
         h_grouping header = grouping_of E message)) /\
    (Permutation messages sorted /\ PyFacts.ascending date_sent sorted) /\
    (Forall (MessageListFacts.renders E R user stream_map) messages ->
     exists blocks, build_message_list E R user stream_map messages = Ok blocks) /\
    (forall blocks,
        build_message_list E R user stream_map messages = Ok blocks ->
        Forall2 (MessageListFacts.shows_run E R user stream_map) groups blocks /\
        Forall2 (fun g block =>
                   forall message, In message g ->
                                   h_grouping (rb_header block) = grouping_of E message)
          groups blocks /\
        List.length blocks = List.length groups) /\
    (List.concat groups = sorted /\
     Forall (fun g => g <> [] /\
                      forall a b, In a g -> In b g -> grouping_of E a = grouping_of E b)
       groups /\
     ListFacts.separated (grouping_of E) Grouping_eqb groups /\
     (sorted <> [] ->
      List.length groups = S (key_changes (grouping_of E) Grouping_eqb sorted))) /\
    (forall (d : Message) (i j : nat),
        (i <= j < List.length sorted)%nat ->
        PositionFacts.run_of_position groups i = PositionFacts.run_of_position groups j
        <-> (forall k, (i <= k <= j)%nat ->
                       grouping_of E (nth k sorted d) = grouping_of E (nth i sorted d))).
Proof.
  intros E R user stream_map messages sorted groups.
  assert (Hkeys : Forall (fun g => g <> [] /\
                                   forall a b, In a g -> In b g ->
                                               grouping_of E a = grouping_of E b)
                    groups).
  { pose proof (ListFacts.runs_not_nil (grouping_of E) Grouping_eqb sorted) as H1.
    pose proof (ListFacts.runs_same_key (grouping_of E) Grouping_eqb
                  MessageListFacts.Grouping_eqb_eq sorted) as H2.
    fold groups in H1, H2. clear - H1 H2.
    induction H1; inversion H2; subst; constructor; auto. }
  split.
  { split; [reflexivity|]. split.
    - intros a b. split; [apply MessageListFacts.Grouping_eqb_eq|].
      intros <-. destruct a; simpl;
        rewrite ?Z.eqb_refl, ?String.eqb_refl; reflexivity.
    - intros message header.
      apply (MessageListFacts.message_header_grouping E user stream_map). }
  split; [split; [apply PyFacts.sorted_perm|apply PyFacts.sorted_ascending]|].
  split.
  { intros Hr. unfold build_message_list.
    apply (MessageListFacts.render_loop_ok E R user stream_map _ []).
    - constructor.
    - apply (Permutation_Forall (PyFacts.sorted_perm date_sent messages) Hr). }
  split.
  { intros blocks Hb. unfold build_message_list in Hb.
    pose proof (MessageListFacts.render_loop_shows E R user stream_map _ [] [] blocks
                  (Forall2_nil _) Hb) as Hs.
    split; [exact Hs|]. split.
    - change (Forall2 (MessageListFacts.shows_run E R user stream_map) groups blocks)
        in Hs.
      clearbody groups. clear - Hs Hkeys.
      revert Hkeys.
      induction Hs as [|g block gs bs Hg _ IH]; intros Hkeys; [constructor|].
      inversion Hkeys as [|? ? [_ Hsame] Hrest]; subst.
      constructor; [|apply IH, Hrest].
      intros message Hin. unfold MessageListFacts.shows_run in Hg.
      destruct g as [|first rest]; [contradiction|]. destruct Hg as [Hh _].
      rewrite (MessageListFacts.message_header_grouping E user stream_map _ _ Hh).
      apply Hsame; [left; reflexivity|exact Hin].
    - symmetry. apply (ListFacts.Forall2_length_eq _ _ _ Hs). }
  split.
  { split; [apply ListFacts.concat_runs|]. split; [exact Hkeys|]. split.
    - apply ListFacts.runs_separated.
    - apply ListFacts.length_runs. }
  intros d i j Hij.
  apply (PositionFacts.same_run_iff (grouping_of E) Grouping_eqb
           MessageListFacts.Grouping_eqb_eq d sorted i j Hij).
Qed.

(** Direct messages of two senders, a group message and stream messages in
    the topics alpha, Alpha and beta, handed over out of order: sorted, they
    fall into six runs, the two spellings of alpha in one of them and the
    two runs of one sender apart, and six blocks come back. *)
Lemma build_message_list_maximal_runs_witness :
  exists blocks,
    build_message_list (Sample.server [Sample.hamlet] Sample.mixed_messages (fun _ => []))
      Sample.rendering Sample.hamlet [] Sample.mixed_messages = Ok blocks /\
    List.length blocks = 6%nat /\
    map (fun block => h_grouping (rb_header block)) blocks
    = [GUser 11; GUser 12; GHuddle 300; GStream 100 "alpha"; GStream 100 "beta";
       GUser 11] /\
    map (fun block => List.length (rb_senders block)) blocks
    = [1; 1; 1; 2; 1; 1]%nat.
Proof.
  destruct (build_message_list (Sample.server [Sample.hamlet] Sample.mixed_messages (fun _ => []))
              Sample.rendering Sample.hamlet [] Sample.mixed_messages) as [blocks|e] eqn:Hb.
  - exists blocks. split; [reflexivity|].
    destruct (build_message_list_maximal_runs
                (Sample.server [Sample.hamlet] Sample.mixed_messages (fun _ => []))
                Sample.rendering Sample.hamlet [] Sample.mixed_messages)
      as (_ & _ & _ & Hshow & _).
    split.
    + rewrite (proj2 (proj2 (Hshow blocks Hb))). vm_compute. reflexivity.
    + pose proof Hb as Hb'. vm_compute in Hb'. injection Hb' as <-.
      split; reflexivity.
  - vm_compute in Hb. discriminate Hb.
Defined.

(** C2.  For a user who gets emails and has unread messages among the
    events, [handle_missedmessage_emails] goes through the buckets in
    ascending order of the greatest message id of each bucket, every bucket
    once, and each bucket it gets through puts exactly one email on the
    queue, in that order; it gets through all of them unless the emitter
    raises, and when the emitter returns for every bucket it returns with
    one email per bucket.  Buckets whose greatest ids are 50, 10 and 30 are
    sent in the order 10, 30, 50. *)
Theorem handle_missedmessage_emails_order :
  (forall (E : Collaborators) (R : Rendering) (user_profile_id : Z)
          (events : list Event) (user_profile : UserProfile),
      let message_ids := message_ids_of events in
      let messages := unread_messages E user_profile message_ids in
      get_user_profile_by_id E user_profile_id = Some user_profile ->
      is_bot user_profile = false ->
      enable_offline_email_notifications user_profile = true ->
      messages <> [] ->
      exists messages_by_bucket message_count_by_bucket bucket_tups,
        prepare_buckets E user_profile messages
        = Ok (messages_by_bucket, message_count_by_bucket, bucket_tups) /\
        handle_missedmessage_emails E R user_profile_id events
        = send_buckets E R user_profile message_ids messages_by_bucket
            message_count_by_bucket bucket_tups /\
        NoDup (map fst bucket_tups) /\
        Permutation (map fst bucket_tups) (PyDict.keys (bucket_messages E messages)) /\
        Sorted (fun a b => snd a <= snd b) bucket_tups /\
        (forall bucket_tup max_message_id,
            In (bucket_tup, max_message_id) bucket_tups ->
            exists msg_list,
              PyDict.get BucketTup_eqb bucket_tup messages_by_bucket = Some msg_list /\
              (exists msg, In msg msg_list /\ message_id msg = max_message_id) /\
              (forall msg, In msg msg_list -> message_id msg <= max_message_id)) /\
        (forall effects outcome,
            handle_missedmessage_emails E R user_profile_id events = (effects, outcome) ->
            exists sent rest,
              bucket_tups = (sent ++ rest)%list /\
              Forall2
                (BucketerFacts.bucket_email E R user_profile message_ids
                   messages_by_bucket message_count_by_bucket)
                sent (published effects) /\
              (outcome = Ok tt -> rest = [])) /\
        ((forall bucket_tup max_message_id msg_list message_count,
             In (bucket_tup, max_message_id) bucket_tups ->
             PyDict.get BucketTup_eqb bucket_tup messages_by_bucket = Some msg_list ->
             PyDict.get BucketTup_eqb bucket_tup message_count_by_bucket
             = Some message_count ->
             returns
               (missed_message_email E R user_profile
                  (PyDict.values (unique_messages message_ids msg_list))
                  message_count)) ->
         exists effects,
           handle_missedmessage_emails E R user_profile_id events = (effects, Ok tt) /\
           Forall2
             (BucketerFacts.bucket_email E R user_profile message_ids
                messages_by_bucket message_count_by_bucket)
             bucket_tups (published effects))) /\
  (forall a b c : BucketTup,
      Py.sorted snd [(a, 50); (b, 10); (c, 30)] = [(b, 10); (c, 30); (a, 50)]).
Proof.
  split; [|reflexivity].
  intros E R user_profile_id events user_profile message_ids messages Hu Hb He Hne.
  destruct (BucketerFacts.prepare_buckets_ok E user_profile messages)
    as (mbb & counts & tups & Hp).
  exists mbb, counts, tups.
  pose proof (BucketerFacts.handle_sends E R user_profile_id events user_profile
                mbb counts tups Hu Hb He Hne Hp) as Hh.
  destruct (BucketerFacts.prepared_order E user_profile messages mbb counts tups Hp)
    as (Hperm & Hasc & Hmax).
  split; [exact Hp|]. split; [exact Hh|]. split.
  { apply (Permutation_NoDup (Permutation_sym Hperm)).
    apply BucketerFacts.bucket_keys_NoDup. }
  split; [exact Hperm|]. split; [exact Hasc|]. split.
  { intros k id Hin. destruct (Hmax k id Hin) as (l' & c & Hg & _ & Hm & Hle).
    exists l'. auto. }
  split.
  { intros effects outcome H. rewrite Hh in H.
    apply (BucketerFacts.send_buckets_published E R user_profile message_ids
             mbb counts tups effects outcome H). }
  intros Hret. rewrite Hh. apply BucketerFacts.send_buckets_returns.
  intros k id Hin. destruct (Hmax k id Hin) as (l' & c & Hg & Hc & _).
  exists l', c. split; [exact Hg|]. split; [exact Hc|].
  apply (Hret k id l' c Hin Hg Hc).
Qed.

(** Three topics whose latest messages are 50, 10 and 30: the emails go out
    for the topics b, c, a. *)
Lemma handle_missedmessage_emails_order_witness :
  let E := Sample.server [Sample.hamlet] Sample.three_topics (fun _ => []) in
  let events := map Sample.mention_of Sample.three_topics in
  exists messages_by_bucket message_count_by_bucket bucket_tups,
    prepare_buckets E Sample.hamlet
      (unread_messages E Sample.hamlet (message_ids_of events))
    = Ok (messages_by_bucket, message_count_by_bucket, bucket_tups) /\
    handle_missedmessage_emails E Sample.rendering 10 events
    = send_buckets E Sample.rendering Sample.hamlet (message_ids_of events)
        messages_by_bucket message_count_by_bucket bucket_tups /\
    Sorted (fun a b => snd a <= snd b) bucket_tups /\
    map snd bucket_tups = [10; 30; 50] /\
    map (fun email => lookup (context email) "topic_name")
      (published (fst (handle_missedmessage_emails E Sample.rendering 10 events)))
    = [Some (VStr "b"); Some (VStr "c"); Some (VStr "a")].
Proof.
  intros E events.
  destruct (proj1 handle_missedmessage_emails_order E Sample.rendering 10 events
              Sample.hamlet eq_refl eq_refl eq_refl)
    as (mbb & counts & tups & H1 & H2 & _ & _ & H3 & _).
  - vm_compute. discriminate.
  - exists mbb, counts, tups. split; [exact H1|]. split; [exact H2|].
    split; [exact H3|]. split.
    + vm_compute in H1. injection H1 as _ _ <-. reflexivity.
    + vm_compute. reflexivity.
Defined.

(** C3.  The bucketer files every fetched message under exactly one key:
    (recipient id, sender id) for a direct message, (recipient id,
    lower-cased topic) for every other recipient type.  The keys are distinct,
    each bucket holds exactly the messages of its key, in the order in which
    they were fetched, and the buckets together hold every message once.
    Five stream messages of one stream, three in topic alpha and two in topic
    beta, give two buckets with counts 3 and 2. *)
Theorem bucket_messages_partition :
  forall (E : Collaborators) (messages : list Message),
    let messages_by_bucket := bucket_messages E messages in
    (forall msg,
        bucket_of E msg
        = match recipient_type (recipient msg) with
          | PERSONAL => (message_recipient_id msg, inl (sender_id msg))
          | _ => (message_recipient_id msg, inr (lower E (topic_name msg)))
          end) /\
    NoDup (PyDict.keys messages_by_bucket) /\
    (forall key msgs,
        In (key, msgs) messages_by_bucket <->
        msgs = filter (BucketerFacts.in_bucket E key) messages /\ msgs <> []) /\
    (forall msg, In msg messages ->
                 exists msgs, In (bucket_of E msg, msgs) messages_by_bucket /\ In msg msgs) /\
    Permutation (List.concat (PyDict.values messages_by_bucket)) messages /\
    (let alpha_beta :=
       [Sample.stream_message 1 Sample.othello "alpha" 5;
        Sample.stream_message 2 Sample.iago "beta" 6;
        Sample.stream_message 3 Sample.othello "Alpha" 7;
        Sample.stream_message 4 Sample.iago "BETA" 8;
        Sample.stream_message 5 Sample.cordelia "alpha" 9] in
     count_by_bucket
       (bucket_messages (Sample.server [Sample.hamlet] alpha_beta (fun _ => []))
          alpha_beta)
     = [((100, inr "alpha"), 3); ((100, inr "beta"), 2)]).
Proof.
  intros E messages messages_by_bucket. split; [reflexivity|].
  split; [apply BucketerFacts.bucket_keys_NoDup|]. split.
  { intros key msgs. split; [apply BucketerFacts.bucket_entry|].
    intros [-> Hne].
    apply (DictFacts.get_some_in BucketTup_eqb DictFacts.BucketTup_eqb_eq).
    unfold messages_by_bucket. rewrite BucketerFacts.bucket_get.
    destruct (filter (BucketerFacts.in_bucket E key) messages); [congruence|reflexivity]. }
  split; [apply BucketerFacts.bucket_covers|].
  split; [apply BucketerFacts.bucket_values_perm|].
  vm_compute. reflexivity.
Qed.

(** C4.  The count of a bucket, handed to the emitter and put into the email
    as [message_count], is the number of fetched unread messages under the
    key of the bucket: it is taken before the context messages are added,
    which follow the unread messages in the list handed to the emitter. *)
Theorem message_count_excludes_context :
  forall (E : Collaborators) (R : Rendering) (user_profile : UserProfile)
         (messages : list Message) (message_ids : list (Z * TriggerInfo))
         messages_by_bucket message_count_by_bucket bucket_tups,
    prepare_buckets E user_profile messages
    = Ok (messages_by_bucket, message_count_by_bucket, bucket_tups) ->
    forall bucket_tup max_message_id,
      In (bucket_tup, max_message_id) bucket_tups ->
      let unread := filter (BucketerFacts.in_bucket E bucket_tup) messages in
      exists msg_list message_count context_messages,
        PyDict.get BucketTup_eqb bucket_tup messages_by_bucket = Some msg_list /\
        PyDict.get BucketTup_eqb bucket_tup message_count_by_bucket = Some message_count /\
        message_count = Z.of_nat (List.length unread) /\
        msg_list = (unread ++ context_messages)%list /\
        (forall email ut g,
            missed_message_email E R user_profile
              (PyDict.values (unique_messages message_ids msg_list)) message_count
            = Ok (email, ut, g) ->
            lookup (context email) "message_count"
            = Some (VInt (Z.of_nat (List.length unread)))).
Proof.
  intros E R user_profile messages message_ids mbb counts tups Hp k id Hin unread.
  destruct (BucketerFacts.prepared_order E user_profile messages mbb counts tups Hp)
    as (_ & _ & Hmax).
  destruct (Hmax k id Hin) as (l' & c & Hg & Hc & _ & _).
  destruct (BucketerFacts.prepared_messages E _ _ _ _ _ _ _ Hp Hg) as (msg & _ & _ & Hl).
  pose proof (BucketerFacts.prepared_count E _ _ _ _ _ _ _ Hp Hc) as Hcount.
  exists l', c. eexists. split; [exact Hg|]. split; [exact Hc|].
  split; [exact Hcount|]. split; [exact Hl|].
  intros email ut g He. fold unread in Hcount. rewrite <- Hcount.
  apply (EmitterFacts.email_message_count E R _ _ _ _ _ _ He).
Qed.

(** Two unread messages of one topic with one context message: the bucket
    holds three messages and its count is 2. *)
Lemma message_count_excludes_context_witness :
  let E := Sample.server [Sample.hamlet] Sample.two_unread Sample.earlier_message in
  exists messages_by_bucket message_count_by_bucket bucket_tups msg_list,
    prepare_buckets E Sample.hamlet Sample.two_unread
    = Ok (messages_by_bucket, message_count_by_bucket, bucket_tups) /\
    PyDict.get BucketTup_eqb (100, inr "alpha") messages_by_bucket = Some msg_list /\
    List.length msg_list = 3%nat /\
    PyDict.get BucketTup_eqb (100, inr "alpha") message_count_by_bucket = Some 2.
Proof.
  intros E.
  destruct (prepare_buckets E Sample.hamlet Sample.two_unread) as [[[mbb counts] tups]|e] eqn:Hp.
  - assert (Hin : In ((100, inr "alpha"), 9) tups).
    { pose proof Hp as Hp'. vm_compute in Hp'. injection Hp' as _ _ <-.
      left. reflexivity. }
    destruct (message_count_excludes_context E Sample.rendering Sample.hamlet Sample.two_unread
                [] mbb counts tups Hp (100, inr "alpha") 9 Hin)
      as (l & c & ctx & Hg & Hc & Hcount & Hl & _).
    exists mbb, counts, tups, l. split; [reflexivity|]. split; [exact Hg|].
    split.
    + pose proof Hp as Hp'. vm_compute in Hp'. injection Hp' as <- _ _.
      vm_compute in Hg. injection Hg as <-. reflexivity.
    + rewrite Hc, Hcount. reflexivity.
  - vm_compute in Hp. discriminate Hp.
Defined.

(** C5.  The participant summary of a group conversation is "A and B" for
    two other participants, "A, B, and C" for three, and "A, B, and N others"
    with the first two names and N the number of others less two for more
    than three; four others give "A, B, and 2 others".  The emitter puts this
    summary into the email of a group conversation when the content may be
    shown. *)
Theorem huddle_display_name_rules :
  (forall a b, huddle_display_name [a; b] = a ++ " and " ++ b) /\
  (forall a b c, huddle_display_name [a; b; c] = a ++ ", " ++ b ++ ", and " ++ c) /\
  (forall a b others,
      (2 <= List.length others)%nat ->
      huddle_display_name (a :: b :: others)
      = a ++ ", " ++ b ++ ", and "
        ++ Py.str_of_int (Z.of_nat (List.length (a :: b :: others)) - 2) ++ " others") /\
  huddle_display_name ["A"; "B"; "C"; "D"] = "A, B, and 2 others" /\
  (forall E R user_profile first others message_count email ut g users,
      message_content_allowed_in_missedmessage_emails user_profile = true ->
      recipient_type (recipient (mm_message first)) = HUDDLE ->
      get_display_recipient E (recipient (mm_message first)) = DisplayUsers users ->
      missed_message_email E R user_profile (first :: others) message_count
      = Ok (email, ut, g) ->
      lookup (context email) "huddle_display_name"
      = Some (VStr (huddle_display_name
                      (map dr_full_name
                         (filter (fun r => negb (Z.eqb (dr_id r) (user_id user_profile)))
                            users))))).
Proof.
  split; [reflexivity|]. split; [reflexivity|]. split.
  { intros a b others H. unfold huddle_display_name.
    destruct others as [|c [|d others]]; simpl in H; try lia.
    cbn [List.length Nat.eqb firstn Py.join]. rewrite !PyFacts.append_assoc.
    reflexivity. }
  split; [reflexivity|].
  intros. eapply EmitterFacts.email_huddle_display_name; eassumption.
Qed.

(** Four other participants. *)
Lemma huddle_display_name_rules_witness :
  huddle_display_name ["Othello"; "Iago"; "Cordelia"; "Prospero"]
  = "Othello, Iago, and 2 others".
Proof.
  exact (proj1 (proj2 (proj2 huddle_display_name_rules))
           "Othello" "Iago" ["Cordelia"; "Prospero"] (le_n 2)).
Defined.

(** C6.  When the user has switched message content off for their email
    notifications, or the organization has done so for its users, the
    emitter does not depend on the content rewriters; it returns, whatever
    the content of the messages, once the checks that come before the
    content are passed (one recipient and topic; for a stream, a stream that
    exists and a first message that is a mention or a stream notification;
    for a group, its roster); and the email it puts on the queue has an
    empty message list, an empty sender string and one flag per policy
    telling which one disabled the content, at least one of them set. *)
Theorem content_disabled_email :
  forall (E : Collaborators) (R : Rendering) (user_profile : UserProfile)
         (missed_messages : list MissedMessage) (message_count : Z),
    message_content_in_email_notifications user_profile = false \/
    message_content_allowed_in_email_notifications (realm user_profile) = false ->
    (forall R' : Rendering,
        do_send_missedmessage_events_reply_in_zulip E R' user_profile
          missed_messages message_count
        = do_send_missedmessage_events_reply_in_zulip E R user_profile
            missed_messages message_count) /\
    (forall first others,
        missed_messages = first :: others ->
        List.length (recipients_of E missed_messages) = 1%nat ->
        match recipient_type (recipient (mm_message first)) with
        | PERSONAL => True
        | HUDDLE =>
            exists users,
              get_display_recipient E (recipient (mm_message first))
              = DisplayUsers users
        | STREAM =>
            (exists stream,
                get_stream E (type_id (recipient (mm_message first))) = Some stream) /\
            (mm_trigger first = Some "mentioned" \/
             mm_trigger first = Some "wildcard_mentioned" \/
             mm_trigger first = Some "stream_email_notify")
        end ->
        exists effects,
          do_send_missedmessage_events_reply_in_zulip E R user_profile
            missed_messages message_count = (effects, Ok tt)) /\
    (forall effects,
        do_send_missedmessage_events_reply_in_zulip E R user_profile
          missed_messages message_count = (effects, Ok tt) ->
        exists email,
          published effects = [email] /\
          lookup (context email) "messages" = Some (VMessages []) /\
          lookup (context email) "sender_str" = Some (VStr "") /\
          lookup (context email) "show_message_content" = Some (VBool false) /\
          lookup (context email) "message_content_disabled_by_user"
          = Some (VBool (negb (message_content_in_email_notifications user_profile))) /\
          lookup (context email) "message_content_disabled_by_realm"
          = Some (VBool (negb (message_content_allowed_in_email_notifications
                                 (realm user_profile)))) /\
          negb (message_content_in_email_notifications user_profile)
          || negb (message_content_allowed_in_email_notifications (realm user_profile))
          = true).
Proof.
  intros E R user_profile missed_messages message_count Hoff.
  assert (Hc : message_content_allowed_in_missedmessage_emails user_profile = false).
  { unfold message_content_allowed_in_missedmessage_emails.
    destruct Hoff as [-> | ->]; [apply andb_false_r|reflexivity]. }
  split.
  { intros R'. unfold do_send_missedmessage_events_reply_in_zulip.
    rewrite (EmitterFacts.email_without_content_rendering E R' R _ _ _ Hc).
    reflexivity. }
  split.
  { intros first others -> Hlen Hcase.
    destruct (EmitterFacts.returns_ok _
                (EmitterFacts.email_without_content_returns E R user_profile first
                   others message_count Hc Hlen Hcase))
      as [[[email ut] g] He].
    unfold do_send_missedmessage_events_reply_in_zulip. rewrite He.
    eexists. reflexivity. }
  intros effects H.
  apply EmitterFacts.emitter_effects in H as (email & ut & g & He & ->).
  exists email. split; [reflexivity|].
  destruct (EmitterFacts.email_without_content E R _ _ _ _ _ _ Hc He)
    as (H1 & H2 & H3 & H4 & H5).
  repeat (split; [assumption|]).
  destruct Hoff as [-> | ->]; [reflexivity|apply orb_true_r].
Qed.

(** A direct message, with rewriters that always raise, to a user who has
    switched content off in an organization that allows it, and to a user of
    an organization that keeps content out of emails: either way the email
    goes out, empty, and the flags tell who disabled the content. *)
Lemma content_disabled_email_witness :
  let E := Sample.server [Sample.hamlet] [] (fun _ => []) in
  (exists effects email,
      do_send_missedmessage_events_reply_in_zulip E Sample.broken_rendering
        Sample.discreet_hamlet Sample.one_direct 1
      = (effects, Ok tt) /\
      published effects = [email] /\
      lookup (context email) "messages" = Some (VMessages []) /\
      lookup (context email) "sender_str" = Some (VStr "") /\
      lookup (context email) "show_message_content" = Some (VBool false) /\
      lookup (context email) "message_content_disabled_by_user" = Some (VBool true) /\
      lookup (context email) "message_content_disabled_by_realm" = Some (VBool false)) /\
  (exists effects email,
      do_send_missedmessage_events_reply_in_zulip E Sample.broken_rendering
        Sample.quiet_hamlet Sample.one_direct 1
      = (effects, Ok tt) /\
      published effects = [email] /\
      lookup (context email) "messages" = Some (VMessages []) /\
      lookup (context email) "sender_str" = Some (VStr "") /\
      lookup (context email) "show_message_content" = Some (VBool false) /\
      lookup (context email) "message_content_disabled_by_user" = Some (VBool false) /\
      lookup (context email) "message_content_disabled_by_realm" = Some (VBool true)).
Proof.
  intros E. split.
  - destruct (content_disabled_email E Sample.broken_rendering Sample.discreet_hamlet
                Sample.one_direct 1 (or_introl eq_refl))
      as (_ & Hreturns & Hemail).
    destruct (Hreturns _ _ eq_refl eq_refl I) as [effects Hd].
    destruct (Hemail effects Hd) as (email & Hp & Hm & Hs & Hshow & Hu & Hr & _).
    exists effects, email. auto 10.
  - destruct (content_disabled_email E Sample.broken_rendering Sample.quiet_hamlet
                Sample.one_direct 1 (or_intror eq_refl))
      as (_ & Hreturns & Hemail).
    destruct (Hreturns _ _ eq_refl eq_refl I) as [effects Hd].
    destruct (Hemail effects Hd) as (email & Hp & Hm & Hs & Hshow & Hu & Hr & _).
    exists effects, email. auto 10.
Defined.

(** C7.  The inline-image step of [relative_to_full_url].  When the fragment
    has exactly one child element and the [class] attribute of that element
    reads [message_inline_image], and this container holds an anchor with an
    [href], the container is replaced by a paragraph that holds one
    hyperlink: its [href] and its text are the image URL, it opens in a new
    tab, and it keeps the title of the anchor when there is one; the root
    and its text stay.  In every other case (no child, several children, or
    one child whose [class] attribute is missing or reads otherwise) every
    element below the root that lists [message_inline_image] among its
    classes is deleted with its whole subtree (the text after it stays),
    nothing of that class is left, and the step does not raise. *)
Theorem rewrite_inline_images_policy :
  (forall fragment inner a image_link,
      Html.children fragment = [inner] ->
      Html.get inner "class" = Some "message_inline_image" ->
      Html.find inner "a" = Some a ->
      Html.get a "href" = Some image_link ->
      exists link,
        Html.rewrite_inline_images fragment
        = Ok (Html.set_children fragment
                [Html.Element (Html.ident inner) "p" [] None [link] None]) /\
        Html.tag link = "a" /\
        Html.get link "href" = Some image_link /\
        Html.get link "target" = Some "_blank" /\
        Html.get link "title" = Html.get a "title" /\
        Html.text link = Some image_link /\
        Html.children link = []) /\
  (forall fragment,
      (forall inner,
          Html.children fragment = [inner] ->
          Html.get inner "class" <> Some "message_inline_image") ->
      NoDup (Html.idents fragment) ->
      Html.has_class "message_inline_image" fragment = false ->
      Html.rewrite_inline_images fragment
      = Ok (Html.prune "message_inline_image" fragment) /\
      Html.find_class "message_inline_image"
        (Html.prune "message_inline_image" fragment) = []) /\
  (forall name e,
      Html.has_class name e = true <->
      exists classes,
        Html.get e "class" = Some classes /\ In name (Html.class_names classes)).
Proof.
  split; [|split].
  - intros fragment inner a image_link Hk Hcl Ha Hl.
    unfold Html.rewrite_inline_images, Html.sole_inline_image.
    rewrite Hk, Hcl. cbn [String.eqb Ascii.eqb Bool.eqb]. rewrite Ha, Hl.
    eexists. split; [reflexivity|]. unfold Html.A, Html.get. cbn [Html.attrib Html.tag].
    repeat split.
    destruct (PyDict.get String.eqb "title" (Html.attrib a)); reflexivity.
  - intros fragment Hother Hnd Hc.
    assert (Hs : Html.sole_inline_image fragment = None).
    { unfold Html.sole_inline_image.
      destruct (Html.children fragment) as [|inner [|second rest]] eqn:Hk;
        try reflexivity.
      destruct (Html.get inner "class") as [c|] eqn:Hcl; [|reflexivity].
      destruct (String.eqb_spec c "message_inline_image") as [->|]; [|reflexivity].
      exfalso. apply (Hother inner eq_refl). exact Hcl. }
    unfold Html.rewrite_inline_images. rewrite Hs.
    destruct fragment as [id tg at_ tx cs tl].
    assert (Hf : Html.find_class "message_inline_image" (Html.Element id tg at_ tx cs tl)
                 = flat_map (Html.find_class "message_inline_image") cs).
    { cbn [Html.find_class]. rewrite Hc. reflexivity. }
    split.
    + rewrite Hf, HtmlFacts.drop_trees_ok.
      * f_equal. apply (HtmlFacts.drops_prune "message_inline_image"
                          (Html.Element id tg at_ tx cs tl) Hnd).
      * cbn [Html.ident]. intros Hin.
        apply HtmlFacts.find_class_forest_idents in Hin.
        inversion Hnd; subst. contradiction.
    + pose proof (HtmlFacts.prune_clean "message_inline_image"
                    (Html.Element id tg at_ tx cs tl)) as Hclean.
      pose proof (HtmlFacts.has_class_prune "message_inline_image" "message_inline_image"
                    (Html.Element id tg at_ tx cs tl)) as Hhc.
      destruct (Html.prune "message_inline_image" (Html.Element id tg at_ tx cs tl))
        as [id' tg' at' tx' cs' tl'].
      cbn [Html.find_class]. rewrite Hhc, Hc. exact Hclean.
  - intros name e. unfold Html.has_class.
    destruct (Html.get e "class") as [classes|]; split.
    + intros H. exists classes. split; [reflexivity|].
      apply existsb_exists in H as (x & Hin & Hx).
      apply String.eqb_eq in Hx. subst x. exact Hin.
    + intros (classes' & Hg & Hin). injection Hg as <-.
      apply existsb_exists. exists name. split; [exact Hin|apply String.eqb_refl].
    + discriminate.
    + intros (classes' & Hg & _). discriminate Hg.
Qed.

(** A message that is one image preview; the same after some text; a
    message that is one preview whose class attribute names a second class;
    and a message with text and two previews, one of them nested and with a
    second class name. *)
Lemma rewrite_inline_images_policy_witness :
  (exists link,
      Html.rewrite_inline_images Sample.image_only
      = Ok (Html.Element 0 "div" [] None
              [Html.Element 1 "p" [] None [link] None] None) /\
      Html.tag link = "a" /\
      Html.get link "href" = Some "https://example.com/logo.png" /\
      Html.get link "title" = Some "logo.png" /\
      Html.text link = Some "https://example.com/logo.png") /\
  (exists link,
      Html.rewrite_inline_images Sample.image_after_text
      = Ok (Html.Element 0 "div" [] (Some "Look: ")
              [Html.Element 1 "p" [] None [link] None] None) /\
      Html.get link "href" = Some "https://example.com/logo.png" /\
      Html.get link "title" = None) /\
  Html.rewrite_inline_images Sample.video_only
  = Ok (Html.Element 0 "div" [] None [] None) /\
  Html.rewrite_inline_images Sample.text_and_images
  = Ok (Html.Element 0 "div" [] None
          [Html.Element 1 "p" [] (Some "See this") [] (Some " and ");
           Html.Element 5 "blockquote" [] (Some "that") [] None]
          None).
Proof.
  split; [|split; [|split]].
  - destruct (proj1 rewrite_inline_images_policy Sample.image_only
                (Html.Element 1 "div" [("class", "message_inline_image")] None
                   [Html.Element 2 "a"
                      [("href", "https://example.com/logo.png"); ("title", "logo.png")]
                      None
                      [Html.Element 3 "img" [("src", "/thumbnail/logo.png")] None [] None]
                      None]
                   None)
                (Html.Element 2 "a"
                   [("href", "https://example.com/logo.png"); ("title", "logo.png")]
                   None
                   [Html.Element 3 "img" [("src", "/thumbnail/logo.png")] None [] None]
                   None)
                "https://example.com/logo.png" eq_refl eq_refl eq_refl eq_refl)
      as (link & H & Htag & Hhref & _ & Htitle & Htext & _).
    exists link. split; [exact H|]. auto.
  - destruct (proj1 rewrite_inline_images_policy Sample.image_after_text
                (Html.Element 1 "div" [("class", "message_inline_image")] None
                   [Html.Element 2 "a" [("href", "https://example.com/logo.png")] None
                      [Html.Element 3 "img" [("src", "/thumbnail/logo.png")] None [] None]
                      None]
                   None)
                (Html.Element 2 "a" [("href", "https://example.com/logo.png")] None
                   [Html.Element 3 "img" [("src", "/thumbnail/logo.png")] None [] None]
                   None)
                "https://example.com/logo.png" eq_refl eq_refl eq_refl eq_refl)
      as (link & H & _ & Hhref & _ & Htitle & _).
    exists link. split; [exact H|]. auto.
  - destruct (proj1 (proj2 rewrite_inline_images_policy) Sample.video_only)
      as (H & _).
    + intros inner Hk. injection Hk as <-. discriminate.
    + repeat (constructor; [simpl; intuition discriminate|]). constructor.
    + reflexivity.
    + rewrite H. vm_compute. reflexivity.
  - destruct (proj1 (proj2 rewrite_inline_images_policy) Sample.text_and_images)
      as (H & _).
    + intros inner Hk. discriminate Hk.
    + repeat (constructor; [simpl; intuition discriminate|]). constructor.
    + reflexivity.
    + rewrite H. vm_compute. reflexivity.
Defined.

(** C8.  A fence line that opens no spoiler and stands outside every
    spoiler is dropped by [fix_spoilers_in_text], although it lies outside
    any spoiler region: of a fenced block that is no spoiler only the inner
    line is left, whatever the fence pattern and the language. *)
Theorem fix_spoilers_in_text_drops_code_fences :
  forall (FENCE_RE_match : string -> option PlainText.FenceMatch)
         (gettext : string -> string -> string) (language : string)
         (opening code closing : string) (m1 m2 : PlainText.FenceMatch),
    Forall (fun l => Py.contains_char Py.LF l = false) [opening; code; closing] ->
    FENCE_RE_match opening = Some m1 ->
    Py.str_eq_opt "spoiler" (PlainText.lang m1) = false ->
    FENCE_RE_match code = None ->
    FENCE_RE_match closing = Some m2 ->
    Py.str_eq_opt "spoiler" (PlainText.lang m2) = false ->
    PlainText.fix_spoilers_in_text FENCE_RE_match gettext
      (Py.join Py.nl [opening; code; closing]) language
    = code.
Proof.
  intros FENCE_RE_match gettext language opening code closing m1 m2
    Hlines H1 L1 Hc H2 L2.
  unfold PlainText.fix_spoilers_in_text.
  rewrite PyFacts.split_join; [|discriminate|exact Hlines].
  cbn [fold_left].
  rewrite (PlainTextFacts.fence_line_outside_dropped FENCE_RE_match gettext language
             [] opening m1 H1 L1).
  rewrite (PlainTextFacts.plain_line_outside_kept FENCE_RE_match gettext language
             [] code Hc).
  rewrite (PlainTextFacts.fence_line_outside_dropped FENCE_RE_match gettext language
             _ closing m2 H2 L2).
  cbn [app Py.join]. reflexivity.
Qed.

(** A code block, with the fence pattern of the markdown processor. *)
Lemma fix_spoilers_in_text_drops_code_fences_witness :
  PlainText.fix_spoilers_in_text PlainText.FENCE_RE PlainText.gettext_untranslated
    Sample.code_text "en"
  = "print(1)".
Proof.
  apply (fix_spoilers_in_text_drops_code_fences PlainText.FENCE_RE
           PlainText.gettext_untranslated "en" "```python" "print(1)" "```"
           (PlainText.mkFenceMatch "```" (Some "python"))
           (PlainText.mkFenceMatch "```" None));
    try reflexivity.
  repeat constructor.
Defined.

(** C9.  [fix_spoilers_in_text] is idempotent: for every text and language,
    redacting an already redacted text changes nothing, as long as the fence
    pattern only matches lines that begin with a fence character and reports
    a non-empty fence, and the translated spoiler title is a single line. *)
Theorem fix_spoilers_in_text_idempotent :
  forall (FENCE_RE_match : string -> option PlainText.FenceMatch)
         (gettext : string -> string -> string) (language : string),
    (forall line m,
        FENCE_RE_match line = Some m ->
        PlainText.fence m <> "" /\
        exists c rest, line = String c rest /\ PlainText.is_fence_char c = true) ->
    Py.contains_char Py.LF (PlainText.spoiler_title gettext language) = false ->
    forall content,
      PlainText.fix_spoilers_in_text FENCE_RE_match gettext
        (PlainText.fix_spoilers_in_text FENCE_RE_match gettext content language) language
      = PlainText.fix_spoilers_in_text FENCE_RE_match gettext content language.
Proof.
  intros FENCE_RE_match gettext language Hf Ht content.
  apply PlainTextFacts.fix_spoilers_in_text_twice; assumption.
Qed.

(** A text with a spoiler and a code block: the first pass redacts it, the
    second changes nothing. *)
Lemma fix_spoilers_in_text_idempotent_witness :
  let once :=
    PlainText.fix_spoilers_in_text PlainText.FENCE_RE PlainText.gettext_untranslated
      Sample.spoiler_text "en" in
  once
  = Py.join Py.nl
      ["before"; "```spoiler header text"; "(Open Zulip to see the spoiler content)";
       "```"; "x = 1"] /\
  PlainText.fix_spoilers_in_text PlainText.FENCE_RE PlainText.gettext_untranslated
    once "en"
  = once.
Proof.
  split; [vm_compute; reflexivity|].
  apply (fix_spoilers_in_text_idempotent PlainText.FENCE_RE
           PlainText.gettext_untranslated "en").
  - exact PlainTextFacts.FENCE_RE_fence_ok.
  - reflexivity.
Defined.



End Claims.

(** * More of the module *)

(** ** The plain-text rewriters *)

Module PlainTextMore.

Import PlainText PlainTextFacts.

Section Loop.

Variable FENCE_RE_match : string -> option FenceMatch.
Variable gettext : string -> string -> string.
Variable language : string.

Local Abbreviation emitted := (emitted FENCE_RE_match gettext language).
Local Abbreviation redaction := (redaction_line gettext language).

(** Lines that are no fences, outside a spoiler, pass through. *)
Lemma emitted_plain_lines (pre rest : list string) :
  Forall (fun l => FENCE_RE_match l = None) pre ->
  emitted None (pre ++ rest) = (pre ++ emitted None rest)%list.
Proof.
  induction 1 as [|l pre Hl Hpre IH]; [reflexivity|].
  cbn [app PlainTextFacts.emitted]. unfold line_effect. rewrite Hl. cbn [Py.truthy negb app].
  rewrite IH. reflexivity.
Qed.

(** A line that neither closes the open spoiler nor opens another one. *)
Definition stays_inside (f : string) (l : string) : Prop :=
  match FENCE_RE_match l with
  | None => True
  | Some m => Py.str_eq_opt "spoiler" (lang m) = false /\ String.eqb (fence m) f = false
  end.

(** Inside an open spoiler such lines vanish. *)
Lemma emitted_hidden_lines (f : string) (body rest : list string) :
  f <> "" ->
  Forall (stays_inside f) body ->
  emitted (Some f) (body ++ rest) = emitted (Some f) rest.
Proof.
  intros Hf. induction 1 as [|l body Hl Hbody IH]; [reflexivity|].
  cbn [app PlainTextFacts.emitted]. unfold line_effect. unfold stays_inside in Hl.
  destruct (FENCE_RE_match l) as [m|].
  - destruct Hl as [Hs Hne]. rewrite Hs. cbn [Py.str_eq_opt]. rewrite Hne.
    cbn [app]. exact IH.
  - rewrite (fence_state_truthy f Hf). cbn [negb app]. exact IH.
Qed.

Lemma emitted_opening (opening : string) (m : FenceMatch) (rest : list string) :
  FENCE_RE_match opening = Some m ->
  Py.str_eq_opt "spoiler" (lang m) = true ->
  emitted None (opening :: rest)
  = opening :: redaction :: emitted (Some (fence m)) rest.
Proof.
  intros Hm Hs. cbn [PlainTextFacts.emitted]. unfold line_effect. rewrite Hm, Hs.
  reflexivity.
Qed.

Lemma emitted_closing (f closing : string) (m : FenceMatch) (rest : list string) :
  FENCE_RE_match closing = Some m ->
  Py.str_eq_opt "spoiler" (lang m) = false ->
  fence m = f ->
  emitted (Some f) (closing :: rest) = closing :: emitted None rest.
Proof.
  intros Hm Hs <-. cbn [PlainTextFacts.emitted]. unfold line_effect. rewrite Hm, Hs.
  cbn [Py.str_eq_opt]. rewrite String.eqb_refl. reflexivity.
Qed.

(** No line closes the spoiler that is open when the loop reaches it: a
    fence line that opens no spoiler never carries the fence of the spoiler
    opened last, which is [f] at the start. *)
Fixpoint never_closed (f : string) (rest : list string) : bool :=
  match rest with
  | [] => true
  | l :: rest' =>
      match FENCE_RE_match l with
      | Some m =>
          if Py.str_eq_opt "spoiler" (lang m) then never_closed (fence m) rest'
          else negb (String.eqb (fence m) f) && never_closed f rest'
      | None => never_closed f rest'
      end
  end.

(** The lines that open a spoiler, each followed by the redaction line. *)
Fixpoint later_openers (rest : list string) : list string :=
  match rest with
  | [] => []
  | l :: rest' =>
      match FENCE_RE_match l with
      | Some m =>
          if Py.str_eq_opt "spoiler" (lang m)
          then l :: redaction :: later_openers rest'
          else later_openers rest'
      | None => later_openers rest'
      end
  end.

(** Inside a spoiler that is never closed only further openers show. *)
Lemma emitted_never_closed (f : string) (rest : list string) :
  (forall l m, FENCE_RE_match l = Some m -> fence m <> "") ->
  f <> "" ->
  never_closed f rest = true ->
  emitted (Some f) rest = later_openers rest.
Proof.
  intros Hne. revert f.
  induction rest as [|l rest IH]; intros f Hf H; [reflexivity|].
  cbn [never_closed] in H. cbn [PlainTextFacts.emitted later_openers].
  unfold line_effect.
  destruct (FENCE_RE_match l) as [m|] eqn:Hm.
  - destruct (Py.str_eq_opt "spoiler" (lang m)).
    + cbn [app]. rewrite (IH (fence m) (Hne l m Hm) H). reflexivity.
    + apply andb_true_iff in H as [Hf' H]. apply negb_true_iff in Hf'.
      cbn [Py.str_eq_opt]. rewrite Hf'. cbn [app]. apply (IH f Hf H).
  - rewrite (fence_state_truthy f Hf). cbn [negb app]. apply (IH f Hf H).
Qed.

(** Every emitted line is a line that came in, or the redaction line. *)
Lemma emitted_from_input (lines : list string) (open_fence : option string) (l : string) :
  In l (emitted open_fence lines) -> In l lines \/ l = redaction.
Proof.
  revert open_fence. induction lines as [|x lines IH]; intros open_fence; [tauto|].
  cbn [PlainTextFacts.emitted]. unfold line_effect.
  destruct (FENCE_RE_match x) as [m|].
  - destruct (Py.str_eq_opt "spoiler" (lang m)).
    + cbn [app]. intros [<-|[<-|H]]; [left; left; reflexivity|right; reflexivity|].
      destruct (IH _ H); [left; right; assumption|right; assumption].
    + destruct (Py.str_eq_opt (fence m) open_fence); cbn [app].
      * intros [<-|H]; [left; left; reflexivity|].
        destruct (IH _ H); [left; right; assumption|right; assumption].
      * intros H. destruct (IH _ H); [left; right; assumption|right; assumption].
  - destruct (negb (Py.truthy open_fence)); cbn [app].
    + intros [<-|H]; [left; left; reflexivity|].
      destruct (IH _ H); [left; right; assumption|right; assumption].
    + intros H. destruct (IH _ H); [left; right; assumption|right; assumption].
Qed.

End Loop.

End PlainTextMore.

(** ** The message list *)

Module BuilderMore.

Import Model MessageList ListFacts MessageListFacts.

(** *** Sorting lists whose keys are distinct *)

Section Distinct.
Context {A : Type}.
Variable key : A -> Z.

Lemma ascending_head_least (x : A) (l : list A) :
  PyFacts.ascending key (x :: l) -> forall y, In y l -> key x <= key y.
Proof.
  unfold PyFacts.ascending. intros H.
  apply Sorted_StronglySorted in H; [|intros a b c; lia].
  inversion H as [|? ? _ Hall]; subst. intros y Hy.
  apply (proj1 (Forall_forall _ _) Hall y Hy).
Qed.

Lemma ascending_tail (x : A) (l : list A) :
  PyFacts.ascending key (x :: l) -> PyFacts.ascending key l.
Proof. unfold PyFacts.ascending. intros H. inversion H; assumption. Qed.

(** Two ascending arrangements of elements with distinct keys agree. *)
Lemma ascending_unique (l1 l2 : list A) :
  NoDup (map key l1) ->
  Permutation l1 l2 ->
  PyFacts.ascending key l1 -> PyFacts.ascending key l2 -> l1 = l2.
Proof.
  revert l2. induction l1 as [|x l1 IH]; intros l2 Hnd Hp H1 H2.
  - apply Permutation_nil in Hp. congruence.
  - destruct l2 as [|y l2]; [apply Permutation_sym, Permutation_nil in Hp; discriminate|].
    assert (Hxy : x = y).
    { assert (Hx : In x (y :: l2)) by (apply (Permutation_in _ Hp); left; reflexivity).
      assert (Hy : In y (x :: l1))
        by (apply (Permutation_in _ (Permutation_sym Hp)); left; reflexivity).
      destruct Hx as [Hx|Hx]; [congruence|].
      destruct Hy as [Hy|Hy]; [congruence|].
      pose proof (ascending_head_least x l1 H1 y Hy) as Le1.
      pose proof (ascending_head_least y l2 H2 x Hx) as Le2.
      assert (Hk : key x = key y) by lia.
      inversion Hnd as [|? ? Hnin _]; subst. exfalso. apply Hnin.
      rewrite Hk. apply in_map, Hy. }
    subst y. f_equal. apply IH.
    + inversion Hnd; assumption.
    + apply (Permutation_cons_inv Hp).
    + apply (ascending_tail _ _ H1).
    + apply (ascending_tail _ _ H2).
Qed.

Lemma sorted_of_permutation (l1 l2 : list A) :
  NoDup (map key l1) -> Permutation l1 l2 -> Py.sorted key l1 = Py.sorted key l2.
Proof.
  intros Hnd Hp. apply ascending_unique.
  - apply (Permutation_NoDup (Permutation_map key (PyFacts.sorted_perm key l1)) Hnd).
  - eapply Permutation_trans; [apply Permutation_sym, PyFacts.sorted_perm|].
    eapply Permutation_trans; [exact Hp|apply PyFacts.sorted_perm].
  - apply PyFacts.sorted_ascending.
  - apply PyFacts.sorted_ascending.
Qed.

End Distinct.

Section Content.

Variable E : Collaborators.
Variable R : Rendering.
Variable user : UserProfile.
Variable stream_map : list (Z * Stream).

(** The payloads of a block, and of a list of blocks, in order. *)
Definition block_payloads (b : RecipientBlock) : list Payload :=
  flat_map sb_content (rb_senders b).

Definition payloads (blocks : list RecipientBlock) : list Payload :=
  flat_map block_payloads blocks.

(** [p] is the payload of [m], rendered with or without the sender. *)
Definition payload_of_message (m : Message) (p : Payload) : Prop :=
  exists sender, build_message_payload E R user m sender = Ok p.

Lemma Forall2_flat_map {X Y X' Y' : Type} (P : X -> Y -> Prop) (Q : X' -> Y' -> Prop)
    (f : X -> list X') (g : Y -> list Y') (l1 : list X) (l2 : list Y) :
  (forall x y, P x y -> Forall2 Q (f x) (g y)) ->
  Forall2 P l1 l2 -> Forall2 Q (flat_map f l1) (flat_map g l2).
Proof.
  intros H. induction 1 as [|x y l1 l2 Hxy Hl IH]; simpl; [constructor|].
  apply Forall2_app; [apply H, Hxy|exact IH].
Qed.

Lemma flat_map_id {X : Type} (l : list (list X)) : flat_map (fun g => g) l = List.concat l.
Proof. induction l as [|g l IH]; simpl; [reflexivity|]. rewrite IH. reflexivity. Qed.

Lemma sender_run_payloads (g : list Message) (sb : SenderBlock) :
  shows_sender_run E R user g sb -> Forall2 payload_of_message g (sb_content sb).
Proof.
  unfold shows_sender_run. destruct g as [|m rest]; [tauto|].
  destruct (sb_content sb) as [|p ps]; [tauto|].
  intros (_ & Hp & Hrest). constructor.
  - eexists. exact Hp.
  - clear Hp. induction Hrest as [|a b la lb Hab _ IH]; constructor; [|exact IH].
    eexists. exact Hab.
Qed.

Lemma run_payloads (g : list Message) (b : RecipientBlock) :
  shows_run E R user stream_map g b -> Forall2 payload_of_message g (block_payloads b).
Proof.
  unfold shows_run. destruct g as [|m rest]; [tauto|]. intros [_ H].
  rewrite <- (concat_runs sender_string String.eqb (m :: rest)) at 1.
  rewrite <- flat_map_id. unfold block_payloads.
  apply (Forall2_flat_map _ _ _ _ _ _ sender_run_payloads H).
Qed.

Lemma runs_payloads (messages : list Message) (blocks : list RecipientBlock) :
  Forall2 (shows_run E R user stream_map)
    (runs (grouping_of E) Grouping_eqb messages) blocks ->
  Forall2 payload_of_message messages (payloads blocks).
Proof.
  intros H.
  rewrite <- (concat_runs (grouping_of E) Grouping_eqb messages) at 1.
  rewrite <- flat_map_id. unfold payloads.
  apply (Forall2_flat_map _ _ _ _ _ _ run_payloads H).
Qed.

End Content.

End BuilderMore.

(** ** The email of the emitter *)

Module EmitterMore.

Import Model MissedMessages EmitterFacts.

(** Reading one field of the email that [H] speaks of. *)
Ltac read_field H f :=
  apply (f_equal (fun r => match r with
                           | Ok (e, _, _) => Some (f e)
                           | Raised _ => None
                           end)) in H;
  cbn beta iota in H; injection H as H; rewrite <- H; reflexivity.

Section Facts.

Variable E : Collaborators.

(** Template and addressee of the email. *)
Lemma email_addressee (R : Rendering) (user_profile : UserProfile)
    (missed_messages : list MissedMessage) (message_count : Z)
    (email : EmailDict) ut g :
  missed_message_email E R user_profile missed_messages message_count = Ok (email, ut, g) ->
  template_prefix email = "zerver/emails/missed_message" /\
  to_user_ids email = [user_id user_profile].
Proof.
  intros H. unfold missed_message_email in H. cbv zeta in H.
  open_head H; split;
    match goal with
    | |- ?f email = _ => read_field H f
    end.
Qed.


(** Sender name and address of the email: the defaults, or one of the
    senders of the messages when emails are sent as the user. *)
Lemma email_from (R : Rendering) (user_profile : UserProfile)
    (missed_messages : list MissedMessage) (message_count : Z)
    (email : EmailDict) ut g :
  missed_message_email E R user_profile missed_messages message_count = Ok (email, ut, g) ->
  (from_name email = gettext E (default_language user_profile) "Zulip notifications" /\
   from_address email = NOREPLY E) \/
  (SEND_MISSED_MESSAGE_EMAILS_AS_USER E = true /\
   exists m, In m missed_messages /\
             from_name email = full_name (sender (mm_message m)) /\
             from_address email = Model.email (sender (mm_message m))).
Proof.
  intros H. unfold missed_message_email in H. cbv zeta in H.
  open_head H;
    first
         [ left; split;
           match goal with
           | |- ?f email = _ => read_field H f
           end
         | right; split; [reflexivity|];
           match goal with
           | Hs : set_of user_eqb ?l = [?s] |- _ =>
               let Hin := fresh "Hin" in
               let x := fresh "x" in
               let Hx := fresh "Hx" in
               assert (Hin : In s l)
                 by (apply (DictFacts.set_of_subset user_eqb); rewrite Hs; left; reflexivity);
               apply in_map_iff in Hin as (x & Hx & Hin);
               try (apply filter_In in Hin as [Hin _]);
               exists x; split; [exact Hin|]; rewrite Hx; split;
               match goal with
               | |- ?f email = _ => read_field H f
               end
           end ].
Qed.

(** The reply-to header of the email. *)
Lemma email_reply_to (R : Rendering) (user_profile : UserProfile)
    (first : MissedMessage) (others : list MissedMessage) (message_count : Z)
    (email : EmailDict) ut g :
  missed_message_email E R user_profile (first :: others) message_count
  = Ok (email, ut, g) ->
  let reply_to_address := create_missed_message_address E user_profile (mm_message first) in
  reply_to_email email
  = format_address E
      (if String.eqb reply_to_address (NOREPLY E) then "" else "Zulip")
      reply_to_address.
Proof.
  intros H reply_to_address. unfold missed_message_email in H. cbv zeta in H.
  open_head H; read_field H reply_to_email.
Qed.

(** Stream messages none of which is a mention or a stream notification are
    refused. *)
Lemma stream_without_trigger_raises (R : Rendering) (user_profile : UserProfile)
    (first : MissedMessage) (others : list MissedMessage) (message_count : Z)
    (stream : Stream) :
  List.length (recipients_of E (first :: others)) = 1%nat ->
  recipient_type (recipient (mm_message first)) = STREAM ->
  get_stream E (type_id (recipient (mm_message first))) = Some stream ->
  Forall (fun m => mm_trigger m <> Some "mentioned" /\
                   mm_trigger m <> Some "wildcard_mentioned" /\
                   mm_trigger m <> Some "stream_email_notify")
    (first :: others) ->
  missed_message_email E R user_profile (first :: others) message_count
  = Raised (AssertionError "Invalid messages!").
Proof.
  intros Hlen Ht Hs Hall. unfold missed_message_email.
  apply Nat.eqb_eq in Hlen. rewrite Hlen. cbv zeta. cbn [negb].
  unfold MessageList.get_narrow_url. rewrite Ht, Hs. cbn [rbind].
  assert (Hno : forall t,
             t = "mentioned" \/ t = "wildcard_mentioned" \/ t = "stream_email_notify" ->
             existsb (opt_string_eqb (Some t))
               (set_of opt_string_eqb (map mm_trigger (first :: others))) = false).
  { intros t Ht'. apply not_true_is_false. intros Hex.
    apply existsb_exists in Hex as (x & Hx & Heq).
    apply DictFacts.set_of_subset in Hx. apply in_map_iff in Hx as (m & <- & Hm).
    apply (proj1 (Forall_forall _ _) Hall) in Hm as (H1 & H2 & H3).
    destruct (mm_trigger m) as [tr|]; [|discriminate].
    cbn [opt_string_eqb] in Heq. apply String.eqb_eq in Heq. subst tr.
    destruct Ht' as [->|[->| ->]]; congruence. }
  rewrite !Hno by tauto. reflexivity.
Qed.


(** The hint that one can reply by email: the three places that set it, in
    the order in which they are passed. *)
Lemma email_reply_to_zulip (R : Rendering) (user_profile : UserProfile)
    (missed_messages : list MissedMessage) (message_count : Z)
    (email : EmailDict) ut g :
  missed_message_email E R user_profile missed_messages message_count = Ok (email, ut, g) ->
  (EMAIL_GATEWAY_PATTERN E = "" ->
   lookup (context email) "reply_to_zulip" = Some (VBool false)) /\
  (message_content_allowed_in_missedmessage_emails user_profile = false ->
   lookup (context email) "reply_to_zulip" = Some (VBool false)) /\
  (from_address email <> NOREPLY E ->
   lookup (context email) "reply_to_zulip" = Some (VBool false)) /\
  (SEND_MISSED_MESSAGE_EMAILS_AS_USER E = false ->
   message_content_allowed_in_missedmessage_emails user_profile = true ->
   lookup (context email) "reply_to_zulip"
   = Some (VBool (negb (String.eqb (EMAIL_GATEWAY_PATTERN E) "")))).
Proof.
  intros H. split; [|split; [|split]].
  - intros Hp. unfold missed_message_email in H. rewrite Hp in H. cbv zeta in H.
    open_head H; read_entry H "reply_to_zulip".
  - intros Hc. unfold missed_message_email in H. rewrite Hc in H. cbv zeta in H.
    cbn [negb] in H. open_head H; read_entry H "reply_to_zulip".
  - intros Hfrom. unfold missed_message_email in H. cbv zeta in H.
    open_head H;
      first
        [ exfalso; apply Hfrom; read_field H from_address
        | read_entry H "reply_to_zulip" ].
  - intros Hs Hc. unfold missed_message_email in H. rewrite Hs, Hc in H. cbv zeta in H.
    cbn [negb] in H. open_head H; read_entry H "reply_to_zulip".
Qed.


(** With message content allowed, the message list of the email is what
    [build_message_list] makes of the messages. *)
Lemma email_with_content (R : Rendering) (user_profile : UserProfile)
    (missed_messages : list MissedMessage) (message_count : Z)
    (email : EmailDict) ut g :
  message_content_allowed_in_missedmessage_emails user_profile = true ->
  missed_message_email E R user_profile missed_messages message_count = Ok (email, ut, g) ->
  exists blocks,
    MessageList.build_message_list E R user_profile [] (map mm_message missed_messages)
    = Ok blocks /\
    lookup (context email) "messages" = Some (VMessages blocks) /\
    lookup (context email) "show_message_content" = Some (VBool true).
Proof.
  intros Hc H. unfold missed_message_email in H. rewrite Hc in H.
  cbv zeta in H. cbn [negb] in H.
  open_head H;
    match goal with
    | Hb : MessageList.build_message_list _ _ _ _ _ = Ok ?b |- _ =>
        exists b; split; [first [exact Hb|reflexivity]|]
    end;
    split;
    match goal with
    | |- lookup _ ?k = _ => read_entry H k
    end.
Qed.

(** A message list that cannot be built leaves no email. *)
Lemma email_content_raises (R : Rendering) (user_profile : UserProfile)
    (missed_messages : list MissedMessage) (message_count : Z) (e : Exn) :
  message_content_allowed_in_missedmessage_emails user_profile = true ->
  MessageList.build_message_list E R user_profile [] (map mm_message missed_messages)
  = Raised e ->
  exists e',
    missed_message_email E R user_profile missed_messages message_count = Raised e'.
Proof.
  intros Hc Hb.
  destruct (missed_message_email E R user_profile missed_messages message_count)
    as [[[email ut] g]|e'] eqn:H; [|eauto].
  destruct (email_with_content R _ _ _ _ _ _ Hc H) as (blocks & Hb' & _). congruence.
Qed.

End Facts.

End EmitterMore.

(** ** Events and entries *)

Module BucketerMore.

Import Model MissedMessages DictFacts BucketerFacts.

(** *** Dictionaries built entry by entry *)

Section Built.
Context {X V : Type}.
Variable key : X -> Z.
Variable val : X -> V.

(** [{key(x): val(x) for x in l}], and the loop that does the same. *)
Definition dict_of (l : list X) : list (Z * V) :=
  fold_left (fun d x => PyDict.set Z.eqb (key x) (val x) d) l [].

Lemma dict_of_snoc (l : list X) (x : X) :
  dict_of (l ++ [x]) = PyDict.set Z.eqb (key x) (val x) (dict_of l).
Proof. unfold dict_of. rewrite fold_left_app. reflexivity. Qed.

(** The entry of a key comes from the last element with that key. *)
Lemma get_dict_of (l : list X) (k : Z) :
  PyDict.get Z.eqb k (dict_of l)
  = option_map val (find (fun x => Z.eqb k (key x)) (rev l)).
Proof.
  induction l as [|x l IH] using rev_ind; [reflexivity|].
  rewrite dict_of_snoc, (get_set Z.eqb Z.eqb_eq), rev_unit. cbn [find].
  destruct (Z.eqb k (key x)); [reflexivity|exact IH].
Qed.

Lemma keys_dict_of_NoDup (l : list X) : NoDup (PyDict.keys (dict_of l)).
Proof.
  induction l as [|x l IH] using rev_ind; [constructor|].
  rewrite dict_of_snoc, keys_set.
  destruct (PyDict.get Z.eqb (key x) (dict_of l)) eqn:Eg; [exact IH|].
  apply (get_none Z.eqb Z.eqb_eq) in Eg.
  apply NoDup_app_remove_l with (l := []). simpl.
  apply Permutation_NoDup with (l := key x :: PyDict.keys (dict_of l)).
  - apply Permutation_cons_append.
  - constructor; assumption.
Qed.

Lemma in_keys_dict_of (l : list X) (k : Z) :
  In k (PyDict.keys (dict_of l)) <-> In k (map key l).
Proof.
  induction l as [|x l IH] using rev_ind; [simpl; tauto|].
  rewrite dict_of_snoc, keys_set, map_app, in_app_iff. cbn [map In].
  destruct (PyDict.get Z.eqb (key x) (dict_of l)) eqn:Eg.
  - rewrite IH. split; [tauto|]. intros [H|[<-|[]]]; [exact H|].
    apply IH. apply (get_some_in Z.eqb Z.eqb_eq) in Eg.
    apply (in_map fst) in Eg. exact Eg.
  - rewrite in_app_iff, IH. simpl. tauto.
Qed.

(** Every entry sits under the key of the element it was made from. *)
Lemma in_dict_of (l : list X) (k : Z) (v : V) :
  In (k, v) (dict_of l) -> exists x, In x l /\ key x = k /\ val x = v.
Proof.
  intros Hin. apply (in_get_some Z.eqb Z.eqb_eq) in Hin; [|apply keys_dict_of_NoDup].
  rewrite get_dict_of in Hin.
  destruct (find (fun x => Z.eqb k (key x)) (rev l)) as [x|] eqn:Ef; [|discriminate].
  apply find_some in Ef as [Hx Hk]. apply Z.eqb_eq in Hk.
  exists x. split; [apply in_rev, Hx|]. split; [congruence|].
  simpl in Hin. congruence.
Qed.

End Built.

Lemma min_by_lower {A : Type} (key : A -> Z) (l : list A) (m : A) :
  Py.min_by key l = Some m -> forall a, In a l -> key m <= key a.
Proof.
  revert m. induction l as [|x xs IH]; simpl; intros m H a Ha; [contradiction|].
  destruct (Py.min_by key xs) as [m'|] eqn:Em.
  - destruct (key x <=? key m') eqn:Le; inversion H; subst; clear H.
    + apply Z.leb_le in Le. destruct Ha as [->|Ha]; [lia|].
      specialize (IH m' eq_refl a Ha). lia.
    + apply Z.leb_gt in Le. destruct Ha as [->|Ha]; [lia|].
      apply (IH m eq_refl a Ha).
  - inversion H; subst. destruct Ha as [->|Ha]; [lia|].
    destruct xs as [|y ys]; [contradiction|]. simpl in Em.
    destruct (Py.min_by key ys) as [m'|]; [destruct (key y <=? key m')|]; discriminate.
Qed.

Lemma message_ids_of_dict (events : list Event) :
  message_ids_of events
  = dict_of event_message_id
      (fun event => mkTriggerInfo (event_trigger event)
                      (event_mentioned_user_group_id event))
      events.
Proof. reflexivity. Qed.

(** The entry that the loop of lines 634 to 643 makes for one message. *)
Definition entry_of (message_ids : list (Z * TriggerInfo)) (m : Message) : MissedMessage :=
  let message_info := PyDict.get Z.eqb (message_id m) message_ids in
  mkMissedMessage m
    (match message_info with
     | Some info => info_trigger info
     | None => None
     end)
    (match message_info with
     | Some info => info_mentioned_user_group_id info
     | None => None
     end).

Lemma unique_messages_dict (message_ids : list (Z * TriggerInfo)) (l : list Message) :
  unique_messages message_ids l = dict_of message_id (entry_of message_ids) l.
Proof. reflexivity. Qed.

End BucketerMore.

(** ** Links *)

Module HtmlMore.

Import Html HtmlFacts.

(** The tree with its attributes taken away: tags, texts and structure. *)
Fixpoint erase_attrib (e : HtmlElement) : HtmlElement :=
  match e with
  | Element i tg _ tx cs tl => Element i tg [] tx (map erase_attrib cs) tl
  end.

(** The character that [re.sub] reads as an escape in a replacement. *)
Definition backslash : ascii := ascii_of_nat 92.

Section Update.

Variable i : nat.
Variable f : HtmlElement -> HtmlElement.

(** [f] touches attributes only, and leaves [class] alone. *)
Hypothesis f_attrib : forall e, exists a,
  f e = Element (ident e) (tag e) a (text e) (children e) (tail e) /\
  PyDict.get String.eqb "class" a = get e "class".

Lemma update_element_unfold (id : nat) tg a tx cs tl :
  update_element i f (Element id tg a tx cs tl)
  = if Nat.eqb id i
    then f (Element id tg a tx (map (update_element i f) cs) tl)
    else Element id tg a tx (map (update_element i f) cs) tl.
Proof. reflexivity. Qed.

Lemma update_element_shape (e : HtmlElement) :
  exists a,
    update_element i f e
    = Element (ident e) (tag e) a (text e) (map (update_element i f) (children e))
        (tail e) /\
    PyDict.get String.eqb "class" a = get e "class".
Proof.
  destruct e as [id tg a tx cs tl]. rewrite update_element_unfold.
  destruct (Nat.eqb id i).
  - destruct (f_attrib (Element id tg a tx (map (update_element i f) cs) tl))
      as (a' & Hf & Hc).
    exists a'. split; [exact Hf|exact Hc].
  - exists a. split; reflexivity.
Qed.

Lemma erase_update_element (e : HtmlElement) :
  erase_attrib (update_element i f e) = erase_attrib e.
Proof.
  induction e as [id tg a tx cs tl IH] using HtmlElement_children_ind.
  destruct (update_element_shape (Element id tg a tx cs tl)) as (a' & -> & _).
  cbn [ident tag text children tail erase_attrib]. f_equal.
  rewrite map_map. apply map_ext_in. intros k Hk.
  apply (proj1 (Forall_forall _ _) IH k Hk).
Qed.

Lemma idents_update_element (e : HtmlElement) :
  idents (update_element i f e) = idents e.
Proof.
  induction e as [id tg a tx cs tl IH] using HtmlElement_children_ind.
  destruct (update_element_shape (Element id tg a tx cs tl)) as (a' & -> & _).
  cbn [ident tag text children tail idents]. f_equal.
  rewrite flat_map_concat_map, map_map, <- flat_map_concat_map.
  induction IH as [|k rest Hk _ IHrest]; [reflexivity|].
  cbn [flat_map]. rewrite Hk, IHrest. reflexivity.
Qed.

Lemma class_update_element (e : HtmlElement) :
  get (update_element i f e) "class" = get e "class".
Proof.
  destruct (update_element_shape e) as (a' & -> & Hc). exact Hc.
Qed.

Lemma has_class_update_element (name : string) (e : HtmlElement) :
  has_class name (update_element i f e) = has_class name e.
Proof. unfold has_class. rewrite class_update_element. reflexivity. Qed.

Lemma sole_inline_image_update_element (e : HtmlElement) :
  sole_inline_image e = None -> sole_inline_image (update_element i f e) = None.
Proof.
  destruct (update_element_shape e) as (a' & -> & _).
  destruct e as [id tg a tx cs tl]. unfold sole_inline_image.
  cbn [children ident tag text tail].
  destruct cs as [|k [|k' rest]]; try reflexivity.
  cbn [map]. rewrite class_update_element.
  destruct (get k "class") as [c|]; [|reflexivity].
  destruct (String.eqb c "message_inline_image"); [discriminate|reflexivity].
Qed.

End Update.

(** What lines 64 to 72 do to the element of a narrow link. *)
Definition retarget (attr link' : string) (e : HtmlElement) : HtmlElement :=
  let e := set e attr link' in
  match get e "title" with
  | Some _ => set e "title" link'
  | None => e
  end.

Lemma retarget_attrib (attr link' : string) :
  attr <> "class" ->
  forall e, exists a,
    retarget attr link' e
    = Element (ident e) (tag e) a (text e) (children e) (tail e) /\
    PyDict.get String.eqb "class" a = get e "class".
Proof.
  intros Hattr [id tg a tx cs tl]. unfold retarget, set, get. cbn [attrib].
  assert (Hc : PyDict.get String.eqb "class" (PyDict.set String.eqb attr link' a)
               = PyDict.get String.eqb "class" a).
  { rewrite (DictFacts.get_set String.eqb String.eqb_eq).
    destruct (String.eqb_spec "class" attr); [congruence|reflexivity]. }
  destruct (PyDict.get String.eqb "title" (PyDict.set String.eqb attr link' a)).
  - eexists. split; [reflexivity|].
    rewrite (DictFacts.get_set String.eqb String.eqb_eq). cbn. exact Hc.
  - eexists. split; [reflexivity|exact Hc].
Qed.

(** The same, without the condition on the attribute, for the structure. *)
Lemma retarget_structure (attr link' : string) (e : HtmlElement) :
  exists a, retarget attr link' e
            = Element (ident e) (tag e) a (text e) (children e) (tail e).
Proof.
  destruct e as [id tg a tx cs tl]. unfold retarget, set, get. cbn [attrib].
  destruct (PyDict.get String.eqb "title" (PyDict.set String.eqb attr link' a));
    eexists; reflexivity.
Qed.

Lemma erase_update_structure (i : nat) (f : HtmlElement -> HtmlElement) :
  (forall e, exists a, f e = Element (ident e) (tag e) a (text e) (children e) (tail e)) ->
  forall e, erase_attrib (update_element i f e) = erase_attrib e.
Proof.
  intros Hf e.
  induction e as [id tg a tx cs tl IH] using HtmlElement_children_ind.
  rewrite update_element_unfold.
  assert (Hcs : map erase_attrib (map (update_element i f) cs) = map erase_attrib cs).
  { rewrite map_map. apply map_ext_in. intros k Hk.
    apply (proj1 (Forall_forall _ _) IH k Hk). }
  destruct (Nat.eqb id i).
  - destruct (Hf (Element id tg a tx (map (update_element i f) cs) tl)) as (a' & ->).
    cbn [ident tag text children tail erase_attrib]. rewrite Hcs. reflexivity.
  - cbn [erase_attrib]. rewrite Hcs. reflexivity.
Qed.

Section Links.

Variable iterlinks : HtmlElement -> list (nat * string * string).

Lemma rewrite_narrow_links_fold (fragment : HtmlElement) (base_url : string) :
  rewrite_narrow_links iterlinks fragment base_url
  = fold_left
      (fun fr link_info =>
         match narrow_link base_url (snd link_info) with
         | Some link' =>
             update_element (fst (fst link_info))
               (retarget (snd (fst link_info)) link') fr
         | None => fr
         end)
      (iterlinks fragment) fragment.
Proof.
  unfold rewrite_narrow_links. generalize (iterlinks fragment) as links.
  intros links. generalize fragment as fr.
  induction links as [|[[elem attr] link] links IH]; intros fr; [reflexivity|].
  cbn [fold_left fst snd]. destruct (narrow_link base_url link); apply IH.
Qed.

End Links.

Lemma strip_prefix_spec (p s r : string) :
  strip_prefix p s = Some r <-> s = (p ++ r)%string.
Proof.
  revert s. induction p as [|c p IH]; intros s; simpl.
  - split; [intros H; inversion H; reflexivity|intros ->; reflexivity].
  - destruct s as [|d s]; [split; discriminate|].
    destruct (Ascii.eqb_spec c d) as [->|Hcd].
    + rewrite IH. split; [intros ->; reflexivity|intros H; inversion H; reflexivity].
    + split; [discriminate|intros H; inversion H; congruence].
Qed.

Section Links.

Variable iterlinks : HtmlElement -> list (nat * string * string).

Lemma links_keep_structure (links : list (nat * string * string)) (base_url : string)
    (fr : HtmlElement) :
  erase_attrib
    (fold_left
       (fun fr link_info =>
          match narrow_link base_url (snd link_info) with
          | Some link' =>
              update_element (fst (fst link_info))
                (retarget (snd (fst link_info)) link') fr
          | None => fr
          end)
       links fr)
  = erase_attrib fr.
Proof.
  revert fr. induction links as [|[[elem attr] link] links IH]; intros fr; [reflexivity|].
  cbn [fold_left fst snd]. rewrite IH.
  destruct (narrow_link base_url link); [|reflexivity].
  apply erase_update_structure. apply retarget_structure.
Qed.

(** The classes and identities that the inline-image step looks at are not
    touched as long as no link sits in a [class] attribute. *)
Lemma links_keep_classes (links : list (nat * string * string)) (base_url : string)
    (fr : HtmlElement) :
  (forall elem attr link, In (elem, attr, link) links -> attr <> "class") ->
  let fr' :=
    fold_left
      (fun fr link_info =>
         match narrow_link base_url (snd link_info) with
         | Some link' =>
             update_element (fst (fst link_info))
               (retarget (snd (fst link_info)) link') fr
         | None => fr
         end)
      links fr in
  idents fr' = idents fr /\
  (forall name, has_class name fr' = has_class name fr) /\
  (sole_inline_image fr = None -> sole_inline_image fr' = None).
Proof.
  revert fr. induction links as [|[[elem attr] link] links IH]; intros fr Hattr;
    [repeat split; auto|].
  cbn [fold_left fst snd].
  assert (Ha : attr <> "class") by (apply (Hattr elem attr link); left; reflexivity).
  assert (Hrest : forall elem attr link, In (elem, attr, link) links -> attr <> "class").
  { intros e0 a0 l0 Hin. apply (Hattr e0 a0 l0). right. exact Hin. }
  destruct (narrow_link base_url link) as [link'|]; [|apply IH, Hrest].
  destruct (IH (update_element elem (retarget attr link') fr) Hrest) as (H1 & H2 & H3).
  split; [|split].
  - rewrite H1. apply idents_update_element. apply retarget_attrib, Ha.
  - intros name. rewrite H2. apply has_class_update_element. apply retarget_attrib, Ha.
  - intros Hs. apply H3. apply sole_inline_image_update_element; [|exact Hs].
    apply retarget_attrib, Ha.
Qed.

End Links.

(** The second branch of the inline-image step, from its parts. *)
Lemma inline_images_pruned (fragment : HtmlElement) :
  sole_inline_image fragment = None ->
  NoDup (idents fragment) ->
  has_class "message_inline_image" fragment = false ->
  rewrite_inline_images fragment = Ok (prune "message_inline_image" fragment).
Proof.
  intros Hs Hnd Hc. unfold rewrite_inline_images. rewrite Hs.
  destruct fragment as [id tg at_ tx cs tl].
  assert (Hf : find_class "message_inline_image" (Element id tg at_ tx cs tl)
               = flat_map (find_class "message_inline_image") cs).
  { cbn [find_class]. rewrite Hc. reflexivity. }
  rewrite Hf, drop_trees_ok.
  - f_equal. apply (drops_prune "message_inline_image" (Element id tg at_ tx cs tl) Hnd).
  - cbn [ident]. intros Hin. apply find_class_forest_idents in Hin.
    inversion Hnd; subst. contradiction.
Qed.

Lemma pruned_clean (name : string) (fragment : HtmlElement) :
  has_class name fragment = false ->
  find_class name (prune name fragment) = [].
Proof.
  intros Hc. pose proof (prune_clean name fragment) as Hclean.
  pose proof (has_class_prune name name fragment) as Hhc.
  destruct (prune name fragment) as [id' tg' at' tx' cs' tl'].
  cbn [find_class]. rewrite Hhc, Hc. exact Hclean.
Qed.

End HtmlMore.

(** ** The migration *)

Module MigrationFacts.

Import Migration.

(** The value that a row holds after the migration. *)
Definition migrated (v : Z) : Z :=
  if Z.eqb v 4 then 100
  else if Z.eqb v 2 then 200
  else if Z.eqb v 1 then 400
  else if Z.eqb v 3 then 600
  else v.

Definition migrate_row {A : Type} (r : Row A) : Row A :=
  mkRow (fields r) (migrated (invited_as r)).

Lemma four_updates {A : Type} (rows : list (Row A)) :
  filter_update 3 600 (filter_update 1 400 (filter_update 2 200 (filter_update 4 100 rows)))
  = map migrate_row rows.
Proof.
  unfold filter_update. rewrite !map_map. apply map_ext. intros [f v].
  unfold migrate_row, migrated. cbn [invited_as fields].
  destruct (Z.eqb_spec v 4) as [->|H4]; [reflexivity|].
  cbn [invited_as fields].
  destruct (Z.eqb_spec v 2) as [->|H2]; [reflexivity|].
  cbn [invited_as fields].
  destruct (Z.eqb_spec v 1) as [->|H1]; [reflexivity|].
  cbn [invited_as fields].
  destruct (Z.eqb_spec v 3) as [->|H3]; reflexivity.
Qed.

Lemma migrated_twice (v : Z) : migrated (migrated v) = migrated v.
Proof.
  unfold migrated.
  destruct (Z.eqb_spec v 4) as [->|H4]; [reflexivity|].
  destruct (Z.eqb_spec v 2) as [->|H2]; [reflexivity|].
  destruct (Z.eqb_spec v 1) as [->|H1]; [reflexivity|].
  destruct (Z.eqb_spec v 3) as [->|H3]; [reflexivity|].
  destruct (Z.eqb_spec v 4); [contradiction|].
  destruct (Z.eqb_spec v 2); [contradiction|].
  destruct (Z.eqb_spec v 1); [contradiction|].
  destruct (Z.eqb_spec v 3); [contradiction|reflexivity].
Qed.

Lemma migrated_injective (a b : Z) :
  ~ In a [100; 200; 400; 600] -> ~ In b [100; 200; 400; 600] ->
  migrated a = migrated b -> a = b.
Proof.
  unfold migrated. simpl. intros Ha Hb.
  destruct (Z.eqb_spec a 4), (Z.eqb_spec a 2), (Z.eqb_spec a 1), (Z.eqb_spec a 3),
    (Z.eqb_spec b 4), (Z.eqb_spec b 2), (Z.eqb_spec b 1), (Z.eqb_spec b 3);
    intros H; lia.
Qed.

End MigrationFacts.

(** ** The welcome emails *)

Module WelcomeFacts.

Import Model Welcome EmitterFacts.

Lemma welcome_email_envelope (E : Collaborators) (S : Settings) (user : Account)
    (realm_creation : bool) (day1 : FutureEmail) :
  welcome_email E S user realm_creation = Ok day1 ->
  fe_template_prefix day1 = "zerver/emails/followup_day1" /\
  fe_realm day1 = realm (profile user) /\
  fe_to_user_ids day1 = [user_id (profile user)] /\
  fe_delay day1 = None /\
  (WELCOME_EMAIL_SENDER S = None ->
   fe_from_name day1 = None /\ fe_from_address day1 = support_placeholder S).
Proof.
  intros H. unfold welcome_email in H. cbv zeta in H.
  open_head H; inversion H; subst; cbn; repeat split; try reflexivity;
    intros; try discriminate;
    match goal with
    | Hx : (_, _) = (_, _) |- _ => inversion Hx; subst; reflexivity
    | _ => idtac
    end.
Qed.

End WelcomeFacts.

(** ** Emoji *)

Module EmojiFacts.

Import Html HtmlFacts Emoji.

Lemma get_del_attrib (e : HtmlElement) (name : string) :
  get (del_attrib e name) name = None.
Proof.
  destruct e as [i tg a tx cs tl]. unfold get, del_attrib. cbn [attrib].
  induction a as [|[k v] a IH]; [reflexivity|].
  cbn [filter fst]. destruct (String.eqb k name) eqn:Ek; cbn [negb]; [exact IH|].
  cbn [PyDict.get]. rewrite String.eqb_sym, Ek. exact IH.
Qed.

Lemma has_class_restyle (name : string) (e : HtmlElement) :
  has_class name (restyle e) = false.
Proof.
  unfold has_class, restyle.
  assert (H : get (set (del_attrib e "class") "style" "height: 20px;") "class" = None).
  { pose proof (get_del_attrib e "class") as Hd.
    destruct (del_attrib e "class") as [i tg a tx cs tl]. unfold get, set in *.
    cbn [attrib] in *. rewrite (DictFacts.get_set String.eqb String.eqb_eq).
    cbn. exact Hd. }
  rewrite H. reflexivity.
Qed.

Lemma restyle_structure (e : HtmlElement) :
  exists a, restyle e = Element (ident e) (tag e) a (text e) (children e) (tail e).
Proof. destruct e as [i tg a tx cs tl]. eexists. reflexivity. Qed.

Lemma filter_flat_map {X Y : Type} (p : Y -> bool) (f : X -> list Y) (l : list X) :
  filter p (flat_map f l) = flat_map (fun x => filter p (f x)) l.
Proof.
  induction l as [|x l IH]; [reflexivity|].
  cbn [flat_map]. rewrite filter_app, IH. reflexivity.
Qed.

(** Restyling the element of identity [i] takes it off the list of the
    class. *)
Lemma find_class_restyled (name : string) (i : nat) (e : HtmlElement) :
  find_class name (update_element i restyle e)
  = filter (fun j => negb (Nat.eqb j i)) (find_class name e).
Proof.
  induction e as [id tg a tx cs tl IH] using HtmlElement_children_ind.
  rewrite HtmlMore.update_element_unfold.
  assert (Hcs : flat_map (find_class name) (map (update_element i restyle) cs)
                = filter (fun j => negb (Nat.eqb j i)) (flat_map (find_class name) cs)).
  { rewrite filter_flat_map, flat_map_concat_map, map_map, <- flat_map_concat_map.
    induction IH as [|k rest Hk _ IHrest]; [reflexivity|].
    cbn [flat_map]. rewrite Hk, IHrest. reflexivity. }
  cbn [find_class]. rewrite filter_app, <- Hcs.
  destruct (Nat.eqb id i) eqn:Ei.
  - destruct (restyle_structure
                (Element id tg a tx (map (update_element i restyle) cs) tl)) as (a' & Hr).
    pose proof (has_class_restyle name
                  (Element id tg a tx (map (update_element i restyle) cs) tl)) as Hc.
    rewrite Hr in *. cbn [ident tag text children tail] in *.
    cbn [find_class]. rewrite Hc. cbn [app].
    destruct (has_class name (Element id tg a tx cs tl)); cbn [filter];
      [rewrite Ei|]; reflexivity.
  - cbn [find_class].
    assert (Hh : has_class name
                   (Element id tg a tx (map (update_element i restyle) cs) tl)
                 = has_class name (Element id tg a tx cs tl)) by reflexivity.
    rewrite Hh. destruct (has_class name (Element id tg a tx cs tl)); cbn [filter app];
      [rewrite Ei|]; reflexivity.
Qed.

Lemma find_class_restyled_all (name : string) (L : list nat) (e : HtmlElement) :
  find_class name (fold_left (fun fr i => update_element i restyle fr) L e)
  = filter (fun j => negb (existsb (Nat.eqb j) L)) (find_class name e).
Proof.
  revert e. induction L as [|i L IH]; intros e.
  - cbn [fold_left existsb negb]. symmetry. apply forallb_filter_id.
    apply forallb_forall. reflexivity.
  - cbn [fold_left]. rewrite IH, find_class_restyled.
    induction (find_class name e) as [|j l IHl]; [reflexivity|].
    cbn [filter existsb]. destruct (Nat.eqb j i); cbn [negb orb filter]; [exact IHl|].
    destruct (existsb (Nat.eqb j) L); cbn [negb]; [exact IHl|]. rewrite IHl. reflexivity.
Qed.

Lemma filter_out_own {X : Type} (eqb : X -> X -> bool) (l : list X) :
  (forall a, eqb a a = true) ->
  filter (fun j => negb (existsb (eqb j) l)) l = [].
Proof.
  intros Hrefl.
  assert (H : forall l', incl l' l -> filter (fun j => negb (existsb (eqb j) l)) l' = []).
  { induction l' as [|x l' IH]; intros Hincl; [reflexivity|].
    cbn [filter].
    assert (Hx : existsb (eqb x) l = true).
    { apply existsb_exists. exists x. split; [apply Hincl; left; reflexivity|apply Hrefl]. }
    rewrite Hx. cbn [negb]. apply IH. intros y Hy. apply Hincl. right. exact Hy. }
  apply H. apply incl_refl.
Qed.

(** Without an element of class [emoji] there is no emoji span. *)
Lemma select_span_emoji_none (e : HtmlElement) :
  find_class "emoji" e = [] -> select_span_emoji e = [].
Proof.
  induction e as [id tg a tx cs tl IH] using HtmlElement_children_ind.
  cbn [find_class select_span_emoji]. intros H.
  apply app_eq_nil in H as [Hroot Hcs].
  assert (Hsel : flat_map select_span_emoji cs = []).
  { clear Hroot. induction IH as [|k rest Hk _ IHrest]; [reflexivity|].
    cbn [flat_map] in *. apply app_eq_nil in Hcs as [H1 H2].
    rewrite (Hk H1), (IHrest H2). reflexivity. }
  rewrite Hsel, app_nil_r.
  unfold has_class in Hroot.
  destruct (get (Element id tg a tx cs tl) "class") as [classes|]; [|reflexivity].
  destruct (existsb (String.eqb "emoji") (class_names classes)); [discriminate|].
  rewrite andb_false_r. reflexivity.
Qed.


(** *** The first loop *)

(** The images of the selected spans, each made with the next new
    identity, under the identity of its span. *)
Fixpoint images (fresh : nat) (base_url emojiset : string)
    (selected : list (HtmlElement * string)) : Result (list (nat * HtmlElement)) :=
  match selected with
  | [] => Ok []
  | (elem, classes) :: rest =>
      img_elem <- make_emoji_img_elem fresh base_url emojiset elem classes ;;
      imgs <- images (S fresh) base_url emojiset rest ;;
      Ok ((ident elem, img_elem) :: imgs)
  end.

(** The tree with every element that has an image replaced by it; what is
    inside a replaced element goes with it. *)
Fixpoint with_images (imgs : list (nat * HtmlElement)) (e : HtmlElement) : HtmlElement :=
  match e with
  | Element id tg a tx cs tl =>
      Element id tg a tx
        (map (fun k => match PyDict.get Nat.eqb (ident k) imgs with
                       | Some img => img
                       | None => with_images imgs k
                       end) cs)
        tl
  end.

Lemma ident_with_images (imgs : list (nat * HtmlElement)) (e : HtmlElement) :
  ident (with_images imgs e) = ident e.
Proof. destruct e; reflexivity. Qed.

Lemma with_images_nil (e : HtmlElement) : with_images [] e = e.
Proof.
  induction e as [id tg a tx cs tl IH] using HtmlElement_children_ind.
  cbn [with_images PyDict.get]. f_equal.
  induction IH as [|k rest Hk _ IHrest]; [reflexivity|].
  cbn [map]. rewrite Hk, IHrest. reflexivity.
Qed.

(** An image is a leaf with a new identity. *)
Definition image_from (fresh : nat) (img : HtmlElement) : Prop :=
  children img = [] /\ (fresh <= ident img)%nat.

Lemma make_emoji_img_elem_leaf (fresh : nat) (base_url emojiset : string)
    (elem : HtmlElement) (classes : string) (img : HtmlElement) :
  make_emoji_img_elem fresh base_url emojiset elem classes = Ok img ->
  image_from fresh img.
Proof.
  unfold make_emoji_img_elem.
  destruct (search_emoji_code classes); [|discriminate].
  destruct (text elem); [|discriminate].
  destruct (get elem "title"); [|discriminate].
  intros H. inversion H; subst. split; [reflexivity|apply Nat.le_refl].
Qed.

Lemma replace_below_leaf (i : nat) (new e : HtmlElement) :
  children e = [] -> replace_below i new e = e.
Proof. destruct e as [id tg a tx cs tl]. cbn [children]. intros ->. reflexivity. Qed.

(** One replacement more. *)
Lemma replace_with_images (n0 i : nat) (img : HtmlElement)
    (imgs : list (nat * HtmlElement)) (e : HtmlElement) :
  (i < n0)%nat ->
  PyDict.get Nat.eqb i imgs = None ->
  Forall (fun entry => image_from n0 (snd entry)) imgs ->
  replace_below i img (with_images imgs e) = with_images (imgs ++ [(i, img)]) e.
Proof.
  intros Hi Hnone Himgs.
  induction e as [id tg a tx cs tl IH] using HtmlElement_children_ind.
  cbn [with_images replace_below]. f_equal. rewrite map_map.
  apply map_ext_in. intros k Hk.
  rewrite (DictFacts.get_app Nat.eqb).
  destruct (PyDict.get Nat.eqb (ident k) imgs) as [img'|] eqn:Eg.
  - apply (DictFacts.get_some_in Nat.eqb Nat.eqb_eq) in Eg.
    apply (proj1 (Forall_forall _ _) Himgs) in Eg. destruct Eg as [Hleaf Hfresh].
    cbn [snd] in *.
    destruct (Nat.eqb_spec (ident img') i) as [Heq|_]; [lia|].
    apply replace_below_leaf, Hleaf.
  - rewrite ident_with_images. cbn [PyDict.get].
    destruct (Nat.eqb (ident k) i); [reflexivity|].
    apply (proj1 (Forall_forall _ _) IH k Hk).
Qed.

Lemma images_fresh (fresh : nat) (base_url emojiset : string)
    (selected : list (HtmlElement * string)) (imgs : list (nat * HtmlElement)) :
  images fresh base_url emojiset selected = Ok imgs ->
  Forall (fun entry => image_from fresh (snd entry)) imgs /\
  map fst imgs = map (fun s => ident (fst s)) selected.
Proof.
  revert fresh imgs. induction selected as [|[elem classes] rest IH]; intros fresh imgs H.
  - inversion H; subst. split; [constructor|reflexivity].
  - cbn [images] in H.
    destruct (make_emoji_img_elem fresh base_url emojiset elem classes) as [img|e] eqn:Ei;
      [|discriminate].
    cbn [rbind] in H.
    destruct (images (S fresh) base_url emojiset rest) as [imgs'|e] eqn:Er; [|discriminate].
    inversion H; subst. destruct (IH _ _ Er) as [Hf Hk].
    split.
    + constructor; [exact (make_emoji_img_elem_leaf _ _ _ _ _ _ Ei)|].
      refine (Forall_impl _ _ Hf). intros entry [Hl Hle]. split; [exact Hl|lia].
    + cbn [map fst]. rewrite Hk. reflexivity.
Qed.

Lemma emoji_step_unfold (base_url emojiset : string) (root fresh : nat)
    (fragment elem : HtmlElement) (classes : string) :
  emoji_step base_url emojiset root (fragment, fresh) (elem, classes)
  = (img_elem <- make_emoji_img_elem fresh base_url emojiset elem classes ;;
     if Nat.eqb (ident elem) root then Raised AttributeError
     else Ok (replace_below (ident elem) img_elem fragment, S fresh)).
Proof. reflexivity. Qed.

(** The first loop, from any point on. *)
Lemma emoji_loop (base_url emojiset : string) (root n0 : nat) (e : HtmlElement)
    (selected : list (HtmlElement * string)) :
  forall (fresh : nat) (done : list (nat * HtmlElement)),
    (n0 <= fresh)%nat ->
    Forall (fun s => (ident (fst s) < n0)%nat /\ ident (fst s) <> root) selected ->
    NoDup (map (fun s => ident (fst s)) selected) ->
    (forall s, In s selected -> PyDict.get Nat.eqb (ident (fst s)) done = None) ->
    Forall (fun entry => image_from n0 (snd entry)) done ->
    match images fresh base_url emojiset selected with
    | Ok imgs =>
        rfold (emoji_step base_url emojiset root) selected (with_images done e, fresh)
        = Ok (with_images (done ++ imgs) e, (fresh + List.length selected)%nat)
    | Raised err =>
        rfold (emoji_step base_url emojiset root) selected (with_images done e, fresh)
        = Raised err
    end.
Proof.
  induction selected as [|[elem classes] rest IH]; intros fresh done Hfresh Hsel Hnd Hdone Himgs.
  - cbn [images rfold List.length]. rewrite app_nil_r, Nat.add_0_r. reflexivity.
  - cbn [images rfold]. rewrite emoji_step_unfold.
    destruct (make_emoji_img_elem fresh base_url emojiset elem classes) as [img|err] eqn:Ei;
      [|reflexivity].
    cbn [rbind].
    inversion Hsel as [|? ? [Hlt Hroot] Hsel']; subst. cbn [fst] in *.
    destruct (Nat.eqb_spec (ident elem) root) as [Heq|_]; [contradiction|].
    cbn [rbind].
    rewrite (replace_with_images n0 (ident elem) img done e Hlt
               (Hdone (elem, classes) (or_introl eq_refl)) Himgs).
    inversion Hnd as [|? ? Hnotin Hnd']; subst.
    specialize (IH (S fresh) (done ++ [(ident elem, img)])%list).
    assert (H1 : (n0 <= S fresh)%nat) by lia.
    assert (H2 : forall s, In s rest ->
                   PyDict.get Nat.eqb (ident (fst s)) (done ++ [(ident elem, img)]) = None).
    { intros s Hs. rewrite (DictFacts.get_app Nat.eqb).
      rewrite (Hdone s (or_intror Hs)). cbn [PyDict.get].
      destruct (Nat.eqb_spec (ident (fst s)) (ident elem)) as [Heq|_]; [|reflexivity].
      exfalso. apply Hnotin. rewrite <- Heq.
      apply (in_map (fun s => ident (fst s)) rest s Hs). }
    assert (H3 : Forall (fun entry => image_from n0 (snd entry))
                   (done ++ [(ident elem, img)])).
    { apply Forall_app. split; [exact Himgs|]. constructor; [|constructor].
      destruct (make_emoji_img_elem_leaf _ _ _ _ _ _ Ei) as [Hl Hle].
      split; [exact Hl|cbn [snd]; lia]. }
    specialize (IH H1 Hsel' Hnd' H2 H3).
    destruct (images (S fresh) base_url emojiset rest) as [imgs|err] eqn:Er.
    + cbn [rbind]. rewrite IH, <- app_assoc. cbn [app List.length].
      rewrite Nat.add_succ_r. reflexivity.
    + cbn [rbind]. exact IH.
Qed.

(** The identities of the selected spans are identities of the tree. *)
Lemma max_ident_root (e : HtmlElement) : (ident e <= max_ident e)%nat.
Proof.
  destruct e as [id tg a tx cs tl]. cbn [ident max_ident].
  induction cs as [|k cs IH]; cbn [fold_right]; lia.
Qed.

Lemma max_ident_child (id : nat) tg a tx (cs : list HtmlElement) tl (k : HtmlElement) :
  In k cs -> (max_ident k <= max_ident (Element id tg a tx cs tl))%nat.
Proof.
  cbn [max_ident]. induction cs as [|c cs IH]; [contradiction|].
  intros [->|Hk]; cbn [fold_right]; [lia|]. specialize (IH Hk). lia.
Qed.

Lemma select_span_emoji_bound (e : HtmlElement) (s : HtmlElement * string) :
  In s (select_span_emoji e) -> (ident (fst s) <= max_ident e)%nat.
Proof.
  induction e as [id tg a tx cs tl IH] using HtmlElement_children_ind.
  cbn [select_span_emoji]. intros Hin. apply in_app_iff in Hin as [Hin|Hin].
  - destruct (get (Element id tg a tx cs tl) "class") as [classes|]; [|contradiction].
    destruct (String.eqb tg "span" && existsb (String.eqb "emoji") (class_names classes));
      [|contradiction].
    destruct Hin as [<-|[]]. apply max_ident_root.
  - apply in_flat_map in Hin as (k & Hk & Hin).
    pose proof (proj1 (Forall_forall _ _) IH k Hk Hin) as Hle.
    pose proof (max_ident_child id tg a tx cs tl k Hk). lia.
Qed.


(** *** The pattern of the emoji code *)

(** No white-space character begins inside [code] when [rest] follows
    it. *)
Fixpoint space_free (code rest : string) : bool :=
  match code with
  | EmptyString => true
  | String _ code' => negb (is_re_space (code ++ rest)) && space_free code' rest
  end.

Lemma non_space_run_stops (rest : string) :
  rest = "" \/ is_re_space rest = true -> non_space_run rest = "".
Proof.
  intros [->|H]; [reflexivity|].
  destruct rest as [|c rest]; [reflexivity|].
  cbn [non_space_run]. rewrite H. reflexivity.
Qed.

Lemma non_space_run_code (code rest : string) :
  space_free code rest = true ->
  rest = "" \/ is_re_space rest = true ->
  non_space_run (code ++ rest) = code.
Proof.
  intros Hcode Hrest. induction code as [|c code IH].
  - apply non_space_run_stops, Hrest.
  - cbn [space_free] in Hcode. apply andb_true_iff in Hcode as [Hc Hcode].
    apply negb_true_iff in Hc. cbn [append] in Hc |- *.
    cbn [non_space_run]. rewrite Hc, (IH Hcode). reflexivity.
Qed.

(** The class attribute of an emoji span as the markup writes it: [emoji],
    then [emoji-] and the code. *)
Lemma search_emoji_code_markup (code rest : string) :
  code <> "" ->
  space_free code rest = true ->
  rest = "" \/ is_re_space rest = true ->
  search_emoji_code ("emoji emoji-" ++ code ++ rest) = Some code.
Proof.
  intros Hne Hcode Hrest.
  cbn -[non_space_run String.eqb is_re_space].
  rewrite (non_space_run_code code rest Hcode Hrest).
  destruct (String.eqb_spec code ""); [contradiction|reflexivity].
Qed.

Lemma strip_prefix_dash (s : string) :
  Py.contains_char "-" s = false -> strip_prefix "emoji-" s = None.
Proof.
  intros H.
  destruct (strip_prefix "emoji-" s) as [r|] eqn:E; [|reflexivity].
  apply HtmlMore.strip_prefix_spec in E. subst s.
  cbn in H. discriminate H.
Qed.

Lemma search_emoji_code_no_dash (classes : string) :
  Py.contains_char "-" classes = false -> search_emoji_code classes = None.
Proof.
  induction classes as [|c classes IH]; [reflexivity|]. intros H.
  cbn [search_emoji_code]. rewrite (strip_prefix_dash _ H).
  apply IH. cbn [Py.contains_char] in H. apply orb_false_iff in H as [_ H]. exact H.
Qed.

(** [emoji-] with no code after it is no match. *)
Lemma search_emoji_code_no_code (rest : string) :
  rest = "" \/ is_re_space rest = true ->
  Py.contains_char "-" rest = false ->
  search_emoji_code ("emoji emoji-" ++ rest) = None.
Proof.
  intros Hrest Hdash.
  cbn -[non_space_run String.eqb is_re_space].
  rewrite (non_space_run_stops rest Hrest). cbn [String.eqb].
  apply search_emoji_code_no_dash, Hdash.
Qed.

End EmojiFacts.

(** * Further properties of the code *)

(** ** The plain-text rewriters *)

Module TextBehaviour.


Import PlainText.

(** X1.  [add_quote_prefix_in_text] puts the quote prefix before every line
    of the text and changes nothing else: the lines of the result are the
    lines of the text, each after "> ", so there are as many; and two texts
    with the same result are the same text. *)
Theorem add_quote_prefix_in_text_lines :
  (forall content,
      Py.split (add_quote_prefix_in_text content)
      = map (fun line => "> " ++ line) (Py.split content)) /\
  (forall a b, add_quote_prefix_in_text a = add_quote_prefix_in_text b -> a = b).
Proof.
  assert (H : forall content,
             Py.split (add_quote_prefix_in_text content)
             = map (fun line => "> " ++ line) (Py.split content)).
  { intros content. unfold add_quote_prefix_in_text. apply PyFacts.split_join.
    - pose proof (PyFacts.split_not_nil content). destruct (Py.split content); [congruence|discriminate].
    - apply Forall_map.
      refine (Forall_impl _ _ (PyFacts.split_lines_no_LF content)).
      intros l Hl. rewrite PyFacts.contains_char_app, Hl. reflexivity. }
  split; [exact H|].
  intros a b Hab. apply (f_equal Py.split) in Hab. rewrite !H in Hab.
  assert (Hs : Py.split a = Py.split b).
  { revert Hab. generalize (Py.split a) (Py.split b).
    induction l as [|x l IH]; intros [|y l']; simpl; intros E; try discriminate; [reflexivity|].
    inversion E; subst. f_equal. apply IH. assumption. }
  rewrite <- (PyFacts.join_split a), <- (PyFacts.join_split b), Hs. reflexivity.
Qed.


(** X2.  A spoiler that is opened and closed is redacted: in a text that is
    lines without fences, the opening fence of a spoiler, lines that neither
    close this fence nor open another spoiler, the closing fence, and again
    lines without fences, [fix_spoilers_in_text] keeps the lines before and
    after and the two fences, and puts the redaction line for everything in
    between. *)
Theorem fix_spoilers_in_text_hides_spoiler :
  forall (FENCE_RE_match : string -> option FenceMatch)
         (gettext : string -> string -> string) (language : string)
         (pre body post : list string) (opening closing : string)
         (m_open m_close : FenceMatch),
    Forall (fun l => Py.contains_char Py.LF l = false)
      (pre ++ opening :: body ++ closing :: post) ->
    Forall (fun l => FENCE_RE_match l = None) pre ->
    FENCE_RE_match opening = Some m_open ->
    lang m_open = Some "spoiler" ->
    fence m_open <> "" ->
    Forall (PlainTextMore.stays_inside FENCE_RE_match (fence m_open)) body ->
    FENCE_RE_match closing = Some m_close ->
    fence m_close = fence m_open ->
    Py.str_eq_opt "spoiler" (lang m_close) = false ->
    Forall (fun l => FENCE_RE_match l = None) post ->
    fix_spoilers_in_text FENCE_RE_match gettext
      (Py.join Py.nl (pre ++ opening :: body ++ closing :: post)) language
    = Py.join Py.nl
        (pre ++ opening :: redaction_line gettext language :: closing :: post).
Proof.
  intros FENCE_RE_match gettext language pre body post opening closing m_open m_close
    Hlines Hpre Hopen Hlang Hf Hbody Hclose Hsame Hnot Hpost.
  rewrite PlainTextFacts.fix_spoilers_in_text_emitted.
  rewrite PyFacts.split_join; [|destruct pre; discriminate|exact Hlines].
  rewrite PlainTextMore.emitted_plain_lines by exact Hpre.
  rewrite (PlainTextMore.emitted_opening _ _ _ opening m_open) by
    (try exact Hopen; rewrite Hlang; reflexivity).
  rewrite PlainTextMore.emitted_hidden_lines by assumption.
  rewrite (PlainTextMore.emitted_closing _ _ _ (fence m_open) closing m_close)
    by assumption.
  rewrite <- (app_nil_r post) at 1.
  rewrite PlainTextMore.emitted_plain_lines by exact Hpost.
  cbn [PlainTextFacts.emitted]. rewrite app_nil_r. reflexivity.
Qed.

(** A spoiler with a fenced block of another fence inside. *)
Lemma fix_spoilers_in_text_hides_spoiler_witness :
  fix_spoilers_in_text FENCE_RE gettext_untranslated
    (Py.join Py.nl
       ["before"; "```spoiler header text"; "secret"; "~~~~"; "more"; "~~~~"; "```";
        "after"])
    "en"
  = Py.join Py.nl
      ["before"; "```spoiler header text"; "(Open Zulip to see the spoiler content)";
       "```"; "after"].
Proof.
  apply (fix_spoilers_in_text_hides_spoiler FENCE_RE gettext_untranslated "en"
           MoreSamples.spoiler_lines_before MoreSamples.spoiler_lines_inside
           MoreSamples.spoiler_lines_after "```spoiler header text" "```"
           (mkFenceMatch "```" (Some "spoiler")) (mkFenceMatch "```" None));
    try reflexivity; try discriminate;
    repeat (constructor; try reflexivity);
    unfold PlainTextMore.stays_inside; vm_compute; repeat split.
Defined.



(** X4.  A text none of whose lines is a fence comes back from
    [fix_spoilers_in_text] as it is. *)
Theorem fix_spoilers_in_text_without_fences :
  forall (FENCE_RE_match : string -> option FenceMatch)
         (gettext : string -> string -> string) (language content : string),
    Forall (fun l => FENCE_RE_match l = None) (Py.split content) ->
    fix_spoilers_in_text FENCE_RE_match gettext content language = content.
Proof.
  intros FENCE_RE_match gettext language content H.
  rewrite PlainTextFacts.fix_spoilers_in_text_emitted.
  rewrite <- (app_nil_r (Py.split content)) at 1.
  rewrite PlainTextMore.emitted_plain_lines by exact H.
  cbn [PlainTextFacts.emitted]. rewrite app_nil_r. apply PyFacts.join_split.
Qed.

(** Two plain lines. *)
Lemma fix_spoilers_in_text_without_fences_witness :
  fix_spoilers_in_text FENCE_RE gettext_untranslated
    (Py.join Py.nl ["hello"; "world"]) "en"
  = Py.join Py.nl ["hello"; "world"].
Proof.
  apply (fix_spoilers_in_text_without_fences FENCE_RE gettext_untranslated "en").
  repeat (constructor; try reflexivity).
Defined.

(** X5.  [fix_spoilers_in_text] writes nothing of its own but the redaction
    line: every line of its output is a line of the text or the redaction
    line. *)
Theorem fix_spoilers_in_text_lines_from_input :
  forall (FENCE_RE_match : string -> option FenceMatch)
         (gettext : string -> string -> string) (language content : string),
    exists output,
      fix_spoilers_in_text FENCE_RE_match gettext content language
      = Py.join Py.nl output /\
      forall line, In line output ->
                   In line (Py.split content) \/ line = redaction_line gettext language.
Proof.
  intros FENCE_RE_match gettext language content.
  exists (PlainTextFacts.emitted FENCE_RE_match gettext language None (Py.split content)).
  split; [apply PlainTextFacts.fix_spoilers_in_text_emitted|].
  intros line. apply PlainTextMore.emitted_from_input.
Qed.

End TextBehaviour.

(** ** The message list and its links *)

Module MessageListBehaviour.


Import Model MessageList.

(** X6.  When [build_message_list] returns, the payloads of its blocks, read
    block after block and sender after sender, are the payloads of the
    messages in the order of their send time, one for each message: none is
    left out and none comes twice. *)
Theorem build_message_list_every_message_once :
  forall (E : Collaborators) (R : Rendering) (user : UserProfile)
         (stream_map : list (Z * Stream)) (messages : list Message)
         (blocks : list RecipientBlock),
    build_message_list E R user stream_map messages = Ok blocks ->
    Forall2 (BuilderMore.payload_of_message E R user)
      (Py.sorted date_sent messages) (BuilderMore.payloads blocks) /\
    List.length (BuilderMore.payloads blocks) = List.length messages.
Proof.
  intros E R user stream_map messages blocks Hb. unfold build_message_list in Hb.
  pose proof (MessageListFacts.render_loop_shows E R user stream_map _ [] [] blocks
                (Forall2_nil _) Hb) as Hs.
  cbn [app] in Hs. apply BuilderMore.runs_payloads in Hs.
  split; [exact Hs|].
  rewrite <- (ListFacts.Forall2_length_eq _ _ _ Hs). apply PyFacts.sorted_length.
Qed.

(** Four messages in three blocks: four payloads. *)
Lemma build_message_list_every_message_once_witness :
  exists blocks,
    build_message_list (Sample.server [Sample.hamlet] Sample.four_messages (fun _ => []))
      Sample.rendering Sample.hamlet [] Sample.four_messages = Ok blocks /\
    List.length (BuilderMore.payloads blocks) = 4%nat.
Proof.
  destruct (build_message_list
              (Sample.server [Sample.hamlet] Sample.four_messages (fun _ => []))
              Sample.rendering Sample.hamlet [] Sample.four_messages)
    as [blocks|e] eqn:Hb.
  - exists blocks. split; [reflexivity|].
    apply (proj2 (build_message_list_every_message_once _ _ _ _ _ _ Hb)).
  - vm_compute in Hb. discriminate Hb.
Defined.

(** X7.  [build_message_list] does not depend on the order in which messages
    with distinct send times are handed over. *)
Theorem build_message_list_order_insensitive :
  forall (E : Collaborators) (R : Rendering) (user : UserProfile)
         (stream_map : list (Z * Stream)) (messages messages' : list Message),
    NoDup (map date_sent messages) ->
    Permutation messages messages' ->
    build_message_list E R user stream_map messages
    = build_message_list E R user stream_map messages'.
Proof.
  intros E R user stream_map messages messages' Hnd Hp. unfold build_message_list.
  rewrite (BuilderMore.sorted_of_permutation date_sent messages messages' Hnd Hp).
  reflexivity.
Qed.

(** The four messages, and the same in reverse. *)
Lemma build_message_list_order_insensitive_witness :
  build_message_list (Sample.server [Sample.hamlet] Sample.four_messages (fun _ => []))
    Sample.rendering Sample.hamlet [] Sample.four_messages
  = build_message_list (Sample.server [Sample.hamlet] Sample.four_messages (fun _ => []))
      Sample.rendering Sample.hamlet [] (rev Sample.four_messages).
Proof.
  apply build_message_list_order_insensitive.
  - repeat (constructor; [simpl; intuition discriminate|]). constructor.
  - apply Permutation_rev.
Defined.

(** X8.  The optional arguments of [get_narrow_url]: an argument that does
    not belong to the recipient type of the message fails the assertion
    (any of them for a direct message, a stream for a group, a display
    recipient for a stream); the display recipient or the stream that the
    function would look up itself gives the URL it gives unaided; and a
    stream message whose stream does not exist raises [DoesNotExist]. *)
Theorem get_narrow_url_optional_arguments :
  forall (E : Collaborators) (user_profile : UserProfile) (message : Message),
    (forall display_recipient stream,
        match recipient_type (recipient message) with
        | PERSONAL => display_recipient <> None \/ stream <> None
        | HUDDLE => stream <> None
        | STREAM => display_recipient <> None
        end ->
        get_narrow_url E user_profile message display_recipient stream
        = Raised (AssertionError "")) /\
    (recipient_type (recipient message) = HUDDLE ->
     get_narrow_url E user_profile message
       (Some (get_display_recipient E (recipient message))) None
     = get_narrow_url E user_profile message None None) /\
    (forall stream,
        recipient_type (recipient message) = STREAM ->
        get_stream E (type_id (recipient message)) = Some stream ->
        get_narrow_url E user_profile message None (Some stream)
        = get_narrow_url E user_profile message None None) /\
    (recipient_type (recipient message) = STREAM ->
     get_stream E (type_id (recipient message)) = None ->
     get_narrow_url E user_profile message None None = Raised DoesNotExist).
Proof.
  intros E user_profile message. unfold get_narrow_url. repeat split.
  - intros dr st H. destruct (recipient_type (recipient message)).
    + destruct st, dr; try reflexivity. destruct H; congruence.
    + destruct dr; [reflexivity|congruence].
    + destruct st; [reflexivity|congruence].
  - intros ->. reflexivity.
  - intros stream -> ->. reflexivity.
  - intros -> ->. reflexivity.
Qed.

(** X9.  The link in the header of a block is the narrow URL of its message:
    with a stream map that agrees with the stream table, the header that
    [message_header] returns carries the URL that [get_narrow_url] gives for
    the message without further arguments, around the plain header for a
    direct or group message, and after the link to the stream for a stream
    message. *)
Theorem message_header_links_to_narrow :
  forall (E : Collaborators) (user : UserProfile) (stream_map : list (Z * Stream))
         (message : Message) (header : Header),
    (forall id stream, PyDict.get Z.eqb id stream_map = Some stream ->
                       get_stream E id = Some stream) ->
    message_header E user stream_map message = Ok header ->
    exists narrow_link,
      get_narrow_url E user message None None = Ok narrow_link /\
      match recipient_type (recipient message) with
      | STREAM =>
          exists stream,
            get_stream E (type_id (recipient message)) = Some stream /\
            h_plain header = stream_name stream ++ " > " ++ topic_name message /\
            h_html header
            = "<a href='" ++ stream_narrow_url E (realm user) stream ++ "'>"
              ++ stream_name stream ++ "</a> > <a href='" ++ narrow_link ++ "'>"
              ++ topic_name message ++ "</a>"
      | _ =>
          h_html header
          = "<a style='color: #ffffff;' href='" ++ narrow_link ++ "'>"
            ++ h_plain header ++ "</a>"
      end.
Proof.
  intros E user stream_map message header Hmap. unfold message_header, get_narrow_url.
  destruct (recipient_type (recipient message)) eqn:Ht.
  - cbn [rbind]. intros H. inversion H; subst. eexists. split; reflexivity.
  - destruct (PyDict.get Z.eqb (type_id (recipient message)) stream_map) as [s|] eqn:Eg.
    + rewrite (Hmap _ _ Eg). cbn [rbind]. intros H. inversion H; subst.
      eexists. split; [reflexivity|]. exists s. repeat split.
    + destruct (get_stream E (type_id (recipient message))) as [s|]; [|discriminate].
      cbn [rbind]. intros H. inversion H; subst.
      eexists. split; [reflexivity|]. exists s. repeat split.
  - destruct (get_display_recipient E (recipient message)) as [n|users]; [discriminate|].
    cbn [rbind]. intros H. inversion H; subst. eexists. split; reflexivity.
Qed.

(** The header of a stream message. *)
Lemma message_header_links_to_narrow_witness :
  let E := Sample.server [Sample.hamlet] [] (fun _ => []) in
  let message := Sample.stream_message 1 Sample.othello "alpha" 5 in
  exists header narrow_link,
    message_header E Sample.hamlet [] message = Ok header /\
    get_narrow_url E Sample.hamlet message None None = Ok narrow_link /\
    narrow_link = "http://zulip.example.com/#narrow/stream/Denmark/topic/alpha" /\
    h_html header
    = "<a href='http://zulip.example.com/#narrow/stream/Denmark'>Denmark</a> > <a href='http://zulip.example.com/#narrow/stream/Denmark/topic/alpha'>alpha</a>".
Proof.
  intros E message.
  destruct (message_header E Sample.hamlet [] message) as [header|e] eqn:Hh.
  - destruct (message_header_links_to_narrow E Sample.hamlet [] message header)
      as (narrow_link & Hn & stream & Hs & _ & Hhtml).
    + intros id stream H. discriminate H.
    + exact Hh.
    + exists header, narrow_link. split; [reflexivity|]. split; [exact Hn|].
      vm_compute in Hn. injection Hn as <-. split; [reflexivity|].
      vm_compute in Hs. injection Hs as <-. rewrite Hhtml. reflexivity.
  - vm_compute in Hh. discriminate Hh.
Defined.

End MessageListBehaviour.

(** ** The bucketer *)

Module BucketerBehaviour.


Import Model MessageList MissedMessages.

(** X10.  The events are kept by message id, one entry for each id: the
    ids of the entries are those of the events, without repeats, and the
    trigger kept for an id is that of the last event for it. *)
Theorem message_ids_of_last_event_wins :
  forall (events : list Event) (message_id : Z),
    NoDup (PyDict.keys (message_ids_of events)) /\
    (In message_id (PyDict.keys (message_ids_of events))
     <-> In message_id (map event_message_id events)) /\
    PyDict.get Z.eqb message_id (message_ids_of events)
    = option_map
        (fun event => mkTriggerInfo (event_trigger event)
                        (event_mentioned_user_group_id event))
        (find (fun event => Z.eqb message_id (event_message_id event)) (rev events)).
Proof.
  intros events message_id. rewrite BucketerMore.message_ids_of_dict.
  split; [apply BucketerMore.keys_dict_of_NoDup|].
  split; [apply BucketerMore.in_keys_dict_of|apply BucketerMore.get_dict_of].
Qed.

(** X11.  The entries handed to the emitter for a bucket hold every message
    id of the bucket once; each entry is a message of the bucket with the
    trigger and the user group that the events give for its id, and with
    neither when no event speaks of it, as for a context message. *)
Theorem unique_messages_one_entry_per_message :
  forall (message_ids : list (Z * TriggerInfo)) (msg_list : list Message),
    let entries := PyDict.values (unique_messages message_ids msg_list) in
    NoDup (map (fun entry => message_id (mm_message entry)) entries) /\
    (forall m, In m msg_list ->
               exists entry, In entry entries /\
                             message_id (mm_message entry) = message_id m) /\
    (forall entry,
        In entry entries ->
        In (mm_message entry) msg_list /\
        match PyDict.get Z.eqb (message_id (mm_message entry)) message_ids with
        | Some info =>
            mm_trigger entry = info_trigger info /\
            mm_mentioned_user_group_id entry = info_mentioned_user_group_id info
        | None => mm_trigger entry = None /\ mm_mentioned_user_group_id entry = None
        end).
Proof.
  intros message_ids msg_list entries. subst entries.
  rewrite BucketerMore.unique_messages_dict.
  set (d := BucketerMore.dict_of message_id (BucketerMore.entry_of message_ids) msg_list).
  assert (Hentry : forall k v, In (k, v) d ->
                     exists m, In m msg_list /\ message_id m = k /\
                               BucketerMore.entry_of message_ids m = v).
  { intros k v. apply BucketerMore.in_dict_of. }
  assert (Hkeys : map (fun entry => message_id (mm_message entry)) (PyDict.values d)
                  = PyDict.keys d).
  { unfold PyDict.values, PyDict.keys. rewrite map_map. apply map_ext_in.
    intros [k v] Hin. destruct (Hentry k v Hin) as (m & _ & <- & <-). reflexivity. }
  split; [|split].
  - rewrite Hkeys. apply BucketerMore.keys_dict_of_NoDup.
  - intros m Hm.
    assert (Hk : In (message_id m) (PyDict.keys d)).
    { apply BucketerMore.in_keys_dict_of. apply in_map, Hm. }
    rewrite <- Hkeys in Hk. apply in_map_iff in Hk as (entry & He & Hin). eauto.
  - intros entry Hin. unfold PyDict.values in Hin.
    apply in_map_iff in Hin as ([k v] & <- & Hin).
    destruct (Hentry k v Hin) as (m & Hm & _ & <-). cbn [snd].
    unfold BucketerMore.entry_of. cbn [mm_message mm_trigger mm_mentioned_user_group_id].
    split; [exact Hm|].
    destruct (PyDict.get Z.eqb (message_id m) message_ids); split; reflexivity.
Qed.


(** X12.  When [handle_missedmessage_emails] has nothing to send: an unknown
    user raises [DoesNotExist]; a bot gets one warning in the log and no
    email; a user with email notifications off gets nothing; and so does a
    user for whom every message of the events is read, deleted or without
    a row for this user. *)
Theorem handle_missedmessage_emails_nothing_to_send :
  forall (E : Collaborators) (R : Rendering) (user_profile_id : Z) (events : list Event),
    (get_user_profile_by_id E user_profile_id = None ->
     handle_missedmessage_emails E R user_profile_id events = ([], Raised DoesNotExist)) /\
    (forall user_profile,
        get_user_profile_by_id E user_profile_id = Some user_profile ->
        (is_bot user_profile = true ->
         handle_missedmessage_emails E R user_profile_id events
         = ([LogWarning "Send-email event found for bot user %s. Skipping."
               user_profile_id], Ok tt)) /\
        (is_bot user_profile = false ->
         enable_offline_email_notifications user_profile = false ->
         handle_missedmessage_emails E R user_profile_id events = ([], Ok tt)) /\
        (is_bot user_profile = false ->
         (forall m, In m (all_messages E) ->
                    In (message_id m) (map event_message_id events) ->
                    usermessage_read E (user_id user_profile) (message_id m) <> Some false \/
                    content m = "(deleted)") ->
         handle_missedmessage_emails E R user_profile_id events = ([], Ok tt))).
Proof.
  intros E R user_profile_id events. unfold handle_missedmessage_emails. split.
  - intros ->. reflexivity.
  - intros user_profile ->. split; [|split].
    + intros ->. reflexivity.
    + intros -> ->. reflexivity.
    + intros -> Hread.
      destruct (enable_offline_email_notifications user_profile); [|reflexivity].
      cbn [negb].
      assert (Hnone : unread_messages E user_profile (message_ids_of events) = []).
      { unfold unread_messages.
        destruct (filter _ (all_messages E)) as [|m rest] eqn:Ef; [reflexivity|].
        assert (Hin : In m (m :: rest)) by (left; reflexivity).
        rewrite <- Ef in Hin. apply filter_In in Hin as [Hm Hp].
        apply andb_true_iff in Hp as [Hp Hdel]. apply andb_true_iff in Hp as [Hunread Hev].
        apply existsb_exists in Hev as (k & Hk & Heq). apply Z.eqb_eq in Heq. subst k.
        rewrite BucketerMore.message_ids_of_dict in Hk.
        apply BucketerMore.in_keys_dict_of in Hk.
        destruct (Hread m Hm Hk) as [Hr|Hd].
        - destruct (usermessage_read E (user_id user_profile) (message_id m)) as [[|]|];
            try discriminate. congruence.
        - rewrite Hd in Hdel. discriminate. }
      rewrite Hnone. reflexivity.
Qed.

(** X13.  Every email that [handle_missedmessage_emails] puts on the queue
    is a missed-message email addressed to the user of the events and to
    nobody else, and counts at least one message. *)
Theorem handle_missedmessage_emails_emails_for_user :
  forall (E : Collaborators) (R : Rendering) (user_profile_id : Z) (events : list Event)
         (user_profile : UserProfile) (effects : list Effect) (outcome : Result unit),
    get_user_profile_by_id E user_profile_id = Some user_profile ->
    handle_missedmessage_emails E R user_profile_id events = (effects, outcome) ->
    Forall
      (fun email =>
         template_prefix email = "zerver/emails/missed_message" /\
         to_user_ids email = [user_id user_profile] /\
         exists message_count,
           lookup (context email) "message_count" = Some (VInt message_count) /\
           1 <= message_count)
      (published effects).
Proof.
  intros E R user_profile_id events user_profile effects outcome Hu.
  unfold handle_missedmessage_emails. rewrite Hu.
  destruct (is_bot user_profile).
  { intros H. inversion H; subst. constructor. }
  destruct (enable_offline_email_notifications user_profile); cbn [negb].
  2:{ intros H. inversion H; subst. constructor. }
  destruct (unread_messages E user_profile (message_ids_of events)) as [|m0 rest] eqn:Eu.
  { intros H. inversion H; subst. constructor. }
  rewrite <- Eu.
  destruct (prepare_buckets E user_profile
              (unread_messages E user_profile (message_ids_of events)))
    as [[[mbb counts] tups]|e] eqn:Hp.
  2:{ intros H. inversion H; subst. constructor. }
  intros H.
  destruct (BucketerFacts.send_buckets_published E R user_profile _ mbb counts tups
              effects outcome H) as (sent & rest' & _ & Hf & _).
  apply Forall_forall. intros email Hin.
  destruct (BucketerFacts.Forall2_in_r _ _ _ _ Hf Hin) as (tup & _ & Hb).
  destruct Hb as (l & c & ut & g & Hl & Hc & Hemail).
  destruct (EmitterMore.email_addressee E R _ _ _ _ _ _ Hemail) as [Ht Hto].
  split; [exact Ht|]. split; [exact Hto|].
  exists c. split; [apply (EmitterFacts.email_message_count E R _ _ _ _ _ _ Hemail)|].
  rewrite (BucketerFacts.prepared_count E _ _ _ _ _ _ _ Hp Hc).
  destruct (BucketerFacts.prepared_messages E _ _ _ _ _ _ _ Hp Hl) as (msg & Hne & _).
  destruct (filter (BucketerFacts.in_bucket E (fst tup)) _); [congruence|].
  cbn [List.length]. lia.
Qed.

(** Three topics, three emails, all for user 10. *)
Lemma handle_missedmessage_emails_emails_for_user_witness :
  let E := Sample.server [Sample.hamlet] Sample.three_topics (fun _ => []) in
  let events := map Sample.mention_of Sample.three_topics in
  let emails := published (fst (handle_missedmessage_emails E Sample.rendering 10 events)) in
  List.length emails = 3%nat /\
  Forall
    (fun email =>
       template_prefix email = "zerver/emails/missed_message" /\
       to_user_ids email = [10] /\
       exists message_count,
         lookup (context email) "message_count" = Some (VInt message_count) /\
         1 <= message_count)
    emails.
Proof.
  intros E events emails. split; [vm_compute; reflexivity|].
  apply (handle_missedmessage_emails_emails_for_user E Sample.rendering 10 events
           Sample.hamlet
           (fst (handle_missedmessage_emails E Sample.rendering 10 events))
           (snd (handle_missedmessage_emails E Sample.rendering 10 events))
           eq_refl).
  apply surjective_pairing.
Defined.

(** X14.  The messages of a bucket are its unread messages followed, when
    the earliest of them is a stream message, by the context messages of
    that one which the user may see; a bucket of direct or group messages
    gets no context. *)
Theorem prepare_buckets_context_for_streams :
  forall (E : Collaborators) (user_profile : UserProfile) (messages : list Message)
         messages_by_bucket message_count_by_bucket bucket_tups
         (bucket_tup : BucketTup) (msg_list : list Message),
    prepare_buckets E user_profile messages
    = Ok (messages_by_bucket, message_count_by_bucket, bucket_tups) ->
    PyDict.get BucketTup_eqb bucket_tup messages_by_bucket = Some msg_list ->
    let unread := filter (BucketerFacts.in_bucket E bucket_tup) messages in
    exists earliest,
      In earliest unread /\
      (forall m, In m unread -> date_sent earliest <= date_sent m) /\
      msg_list
      = (unread
         ++ match recipient_type (recipient earliest) with
            | STREAM =>
                bulk_access_messages E user_profile (get_context_for_message E earliest)
            | _ => []
            end)%list.
Proof.
  intros E user_profile messages mbb counts tups k l Hp Hg unread.
  destruct (BucketerFacts.prepared_messages E _ _ _ _ _ _ _ Hp Hg)
    as (msg & Hne & Hmin & Hl).
  exists msg. split; [apply (PyFacts.min_by_in _ _ _ Hmin)|]. split.
  - apply (BucketerMore.min_by_lower _ _ _ Hmin).
  - rewrite Hl. unfold is_stream_message, RecipientType_eqb.
    destruct (recipient_type (recipient msg)); reflexivity.
Qed.

(** Two unread messages of a topic, and the message before the earlier one
    as context. *)
Lemma prepare_buckets_context_for_streams_witness :
  let E := Sample.server [Sample.hamlet] Sample.two_unread Sample.earlier_message in
  exists messages_by_bucket message_count_by_bucket bucket_tups msg_list,
    prepare_buckets E Sample.hamlet Sample.two_unread
    = Ok (messages_by_bucket, message_count_by_bucket, bucket_tups) /\
    PyDict.get BucketTup_eqb (100, inr "alpha") messages_by_bucket = Some msg_list /\
    map message_id msg_list = [7; 9; 6].
Proof.
  intros E.
  destruct (prepare_buckets E Sample.hamlet Sample.two_unread)
    as [[[mbb counts] tups]|e] eqn:Hp.
  - destruct (PyDict.get BucketTup_eqb (100, inr "alpha") mbb) as [l|] eqn:Hg.
    + exists mbb, counts, tups, l. split; [reflexivity|]. split; [exact Hg|].
      destruct (prepare_buckets_context_for_streams E Sample.hamlet Sample.two_unread
                  mbb counts tups (100, inr "alpha") l Hp Hg)
        as (earliest & Hin & Hmin & ->).
      destruct Hin as [<-|[<-|[]]].
      * reflexivity.
      * exfalso. specialize (Hmin (Sample.stream_message 7 Sample.othello "alpha" 70)
                               (or_introl eq_refl)).
        vm_compute in Hmin. apply Hmin. reflexivity.
    + pose proof Hp as Hp'. vm_compute in Hp'. injection Hp' as <- _ _.
      vm_compute in Hg. discriminate Hg.
  - vm_compute in Hp. discriminate Hp.
Defined.

End BucketerBehaviour.

(** ** The emitter *)

Module EmitterBehaviour.


Import Model MessageList MissedMessages.

(** X15.  The email of the emitter comes from the notification address under
    the translated name, or, when emails are sent as the user, from the
    sender of one of the messages; its reply-to address is the missed-message
    address of the first message, named Zulip unless that address is the
    no-reply address. *)
Theorem emitter_sender_and_reply_to :
  forall (E : Collaborators) (R : Rendering) (user_profile : UserProfile)
         (first : MissedMessage) (others : list MissedMessage) (message_count : Z)
         (effects : list Effect),
    do_send_missedmessage_events_reply_in_zulip E R user_profile (first :: others)
      message_count = (effects, Ok tt) ->
    exists email,
      published effects = [email] /\
      ((from_name email = gettext E (default_language user_profile) "Zulip notifications" /\
        from_address email = NOREPLY E) \/
       (SEND_MISSED_MESSAGE_EMAILS_AS_USER E = true /\
        exists m, In m (first :: others) /\
                  from_name email = full_name (sender (mm_message m)) /\
                  from_address email = Model.email (sender (mm_message m)))) /\
      (let reply_to_address :=
         create_missed_message_address E user_profile (mm_message first) in
       reply_to_email email
       = format_address E
           (if String.eqb reply_to_address (NOREPLY E) then "" else "Zulip")
           reply_to_address).
Proof.
  intros E R user_profile first others message_count effects H.
  apply EmitterFacts.emitter_effects in H as (email & ut & g & He & ->).
  exists email. split; [reflexivity|]. split.
  - apply (EmitterMore.email_from E R _ _ _ _ _ _ He).
  - apply (EmitterMore.email_reply_to E R _ _ _ _ _ _ _ He).
Qed.

(** A direct message: the email comes from the notification address. *)
Lemma emitter_sender_and_reply_to_witness :
  let E := Sample.server [Sample.hamlet] [] (fun _ => []) in
  exists effects email,
    do_send_missedmessage_events_reply_in_zulip E Sample.rendering Sample.hamlet
      MoreSamples.one_direct_message 1 = (effects, Ok tt) /\
    published effects = [email] /\
    from_address email = "noreply@example.com" /\
    reply_to_email email = "Zulip <mm@example.com>".
Proof.
  intros E.
  destruct (do_send_missedmessage_events_reply_in_zulip E Sample.rendering Sample.hamlet
              MoreSamples.one_direct_message 1) as [effects outcome] eqn:Hd.
  assert (Ho : outcome = Ok tt).
  { pose proof Hd as Hd'. vm_compute in Hd'. injection Hd' as _ <-. reflexivity. }
  subst outcome.
  destruct (emitter_sender_and_reply_to E Sample.rendering Sample.hamlet _ _ 1 effects Hd)
    as (email & Hp & Hfrom & Hreply).
  exists effects, email. split; [reflexivity|]. split; [exact Hp|]. split.
  - destruct Hfrom as [[_ Hf]|[Hs _]]; [exact Hf|discriminate Hs].
  - exact Hreply.
Defined.

(** X16.  Stream messages none of which is a mention, a wildcard mention or a
    stream notification are refused: the emitter raises "Invalid messages!"
    and does nothing. *)
Theorem emitter_refuses_stream_messages_without_trigger :
  forall (E : Collaborators) (R : Rendering) (user_profile : UserProfile)
         (first : MissedMessage) (others : list MissedMessage) (message_count : Z)
         (stream : Stream),
    List.length (recipients_of E (first :: others)) = 1%nat ->
    recipient_type (recipient (mm_message first)) = STREAM ->
    get_stream E (type_id (recipient (mm_message first))) = Some stream ->
    Forall (fun m => mm_trigger m <> Some "mentioned" /\
                     mm_trigger m <> Some "wildcard_mentioned" /\
                     mm_trigger m <> Some "stream_email_notify")
      (first :: others) ->
    do_send_missedmessage_events_reply_in_zulip E R user_profile (first :: others)
      message_count
    = ([], Raised (AssertionError "Invalid messages!")).
Proof.
  intros E R user_profile first others message_count stream Hlen Ht Hs Hall.
  unfold do_send_missedmessage_events_reply_in_zulip.
  rewrite (EmitterMore.stream_without_trigger_raises E R user_profile first others
             message_count stream Hlen Ht Hs Hall).
  reflexivity.
Qed.

(** A stream message that is there for no reason. *)
Lemma emitter_refuses_stream_messages_without_trigger_witness :
  do_send_missedmessage_events_reply_in_zulip
    (Sample.server [Sample.hamlet] [] (fun _ => [])) Sample.rendering Sample.hamlet
    MoreSamples.stray_stream_message 1
  = ([], Raised (AssertionError "Invalid messages!")).
Proof.
  apply (emitter_refuses_stream_messages_without_trigger
           (Sample.server [Sample.hamlet] [] (fun _ => [])) Sample.rendering
           Sample.hamlet _ _ 1 (mkStream 1 "Denmark")); try reflexivity.
  repeat constructor; discriminate.
Defined.

(** X17.  The email says that one can reply to it only when the three places
    that set the flag agree: it is off without an email gateway, off when
    message content is disabled, off when the email goes out under the
    sender's address, and otherwise follows the gateway setting. *)
Theorem emitter_reply_to_zulip_flag :
  forall (E : Collaborators) (R : Rendering) (user_profile : UserProfile)
         (missed_messages : list MissedMessage) (message_count : Z)
         (effects : list Effect),
    do_send_missedmessage_events_reply_in_zulip E R user_profile missed_messages
      message_count = (effects, Ok tt) ->
    exists email,
      published effects = [email] /\
      (EMAIL_GATEWAY_PATTERN E = "" ->
       lookup (context email) "reply_to_zulip" = Some (VBool false)) /\
      (message_content_allowed_in_missedmessage_emails user_profile = false ->
       lookup (context email) "reply_to_zulip" = Some (VBool false)) /\
      (from_address email <> NOREPLY E ->
       lookup (context email) "reply_to_zulip" = Some (VBool false)) /\
      (SEND_MISSED_MESSAGE_EMAILS_AS_USER E = false ->
       message_content_allowed_in_missedmessage_emails user_profile = true ->
       lookup (context email) "reply_to_zulip"
       = Some (VBool (negb (String.eqb (EMAIL_GATEWAY_PATTERN E) "")))).
Proof.
  intros E R user_profile missed_messages message_count effects H.
  apply EmitterFacts.emitter_effects in H as (email & ut & g & He & ->).
  exists email. split; [reflexivity|].
  apply (EmitterMore.email_reply_to_zulip E R _ _ _ _ _ _ He).
Qed.

(** With a gateway and content allowed, the email can be replied to. *)
Lemma emitter_reply_to_zulip_flag_witness :
  let E := Sample.server [Sample.hamlet] [] (fun _ => []) in
  exists effects email,
    do_send_missedmessage_events_reply_in_zulip E Sample.rendering Sample.hamlet
      MoreSamples.one_direct_message 1 = (effects, Ok tt) /\
    published effects = [email] /\
    lookup (context email) "reply_to_zulip" = Some (VBool true).
Proof.
  intros E.
  destruct (do_send_missedmessage_events_reply_in_zulip E Sample.rendering Sample.hamlet
              MoreSamples.one_direct_message 1) as [effects outcome] eqn:Hd.
  assert (Ho : outcome = Ok tt).
  { pose proof Hd as Hd'. vm_compute in Hd'. injection Hd' as _ <-. reflexivity. }
  subst outcome.
  destruct (emitter_reply_to_zulip_flag E Sample.rendering Sample.hamlet _ 1 effects Hd)
    as (email & Hp & _ & _ & _ & Hr).
  exists effects, email. split; [reflexivity|]. split; [exact Hp|].
  apply (Hr eq_refl eq_refl).
Defined.


(** X18.  With message content allowed, the message list of the email is
    what [build_message_list] makes of the messages handed over, with one
    payload for each of them; and when the list cannot be built, the emitter
    raises and no email is queued. *)
Theorem emitter_message_list :
  forall (E : Collaborators) (R : Rendering) (user_profile : UserProfile)
         (missed_messages : list MissedMessage) (message_count : Z),
    message_content_allowed_in_missedmessage_emails user_profile = true ->
    (forall effects,
        do_send_missedmessage_events_reply_in_zulip E R user_profile missed_messages
          message_count = (effects, Ok tt) ->
        exists email blocks,
          published effects = [email] /\
          build_message_list E R user_profile [] (map mm_message missed_messages)
          = Ok blocks /\
          lookup (context email) "messages" = Some (VMessages blocks) /\
          lookup (context email) "show_message_content" = Some (VBool true) /\
          List.length (BuilderMore.payloads blocks) = List.length missed_messages) /\
    (forall e,
        build_message_list E R user_profile [] (map mm_message missed_messages)
        = Raised e ->
        exists e',
          do_send_missedmessage_events_reply_in_zulip E R user_profile missed_messages
            message_count = ([], Raised e')).
Proof.
  intros E R user_profile missed_messages message_count Hc. split.
  - intros effects H.
    apply EmitterFacts.emitter_effects in H as (email & ut & g & He & ->).
    destruct (EmitterMore.email_with_content E R _ _ _ _ _ _ Hc He)
      as (blocks & Hb & Hm & Hs).
    exists email, blocks. split; [reflexivity|]. split; [exact Hb|].
    split; [exact Hm|]. split; [exact Hs|].
    unfold build_message_list in Hb.
    pose proof (MessageListFacts.render_loop_shows E R user_profile [] _ [] [] blocks
                  (Forall2_nil _) Hb) as Hshow.
    cbn [app] in Hshow. apply BuilderMore.runs_payloads in Hshow.
    rewrite <- (ListFacts.Forall2_length_eq _ _ _ Hshow), PyFacts.sorted_length.
    apply length_map.
  - intros e Hb.
    destruct (EmitterMore.email_content_raises E R _ _ message_count _ Hc Hb) as [e' He].
    exists e'. unfold do_send_missedmessage_events_reply_in_zulip. rewrite He.
    reflexivity.
Qed.

(** A direct message: one block with one payload. *)
Lemma emitter_message_list_witness :
  let E := Sample.server [Sample.hamlet] [] (fun _ => []) in
  exists effects email blocks,
    do_send_missedmessage_events_reply_in_zulip E Sample.rendering Sample.hamlet
      MoreSamples.one_direct_message 1 = (effects, Ok tt) /\
    published effects = [email] /\
    lookup (context email) "messages" = Some (VMessages blocks) /\
    List.length (BuilderMore.payloads blocks) = 1%nat.
Proof.
  intros E.
  destruct (do_send_missedmessage_events_reply_in_zulip E Sample.rendering Sample.hamlet
              MoreSamples.one_direct_message 1) as [effects outcome] eqn:Hd.
  assert (Ho : outcome = Ok tt).
  { pose proof Hd as Hd'. vm_compute in Hd'. injection Hd' as _ <-. reflexivity. }
  subst outcome.
  destruct (proj1 (emitter_message_list E Sample.rendering Sample.hamlet
                     MoreSamples.one_direct_message 1 eq_refl) effects Hd)
    as (email & blocks & Hp & _ & Hm & _ & Hl).
  exists effects, email, blocks. auto.
Defined.

End EmitterBehaviour.

(** ** The migration of the invitation roles *)

Module MigrationBehaviour.


Import Migration.

(** X19.  The migration gives every row of both tables the new value of its
    role (owner 4 to 100, administrator 2 to 200, member 1 to 400, guest 3 to
    600) and leaves every other value and column alone: no row is changed
    twice although the statements run one after the other.  Run again, it
    changes nothing, and rows that differed before still differ, as long as
    none held a new value before. *)
Theorem update_invite_as_dict_values_retags_each_row_once :
  forall (A B : Type) (db : Tables A B),
    let db' := mkTables (map MigrationFacts.migrate_row (PreregistrationUser db))
                 (map MigrationFacts.migrate_row (MultiuseInvite db)) in
    update_invite_as_dict_values db = Ok db' /\
    update_invite_as_dict_values db' = Ok db' /\
    (forall a b : Z,
        ~ In a [100; 200; 400; 600] -> ~ In b [100; 200; 400; 600] ->
        MigrationFacts.migrated a = MigrationFacts.migrated b -> a = b) /\
    MigrationFacts.migrated 4 = 100 /\ MigrationFacts.migrated 2 = 200 /\
    MigrationFacts.migrated 1 = 400 /\ MigrationFacts.migrated 3 = 600 /\
    (forall v, ~ In v [1; 2; 3; 4] -> MigrationFacts.migrated v = v).
Proof.
  intros A B db db'.
  assert (Hrun : forall (A' B' : Type) (t : Tables A' B'),
             update_invite_as_dict_values t
             = Ok (mkTables (map MigrationFacts.migrate_row (PreregistrationUser t))
                     (map MigrationFacts.migrate_row (MultiuseInvite t)))).
  { intros A' B' t. unfold update_invite_as_dict_values, update_role, item.
    cbn [OLD_INVITE_AS_DICT NEW_INVITE_AS_DICT PyDict.get String.eqb Ascii.eqb Bool.eqb
         rbind].
    rewrite !MigrationFacts.four_updates. reflexivity. }
  split; [apply Hrun|]. split.
  - rewrite Hrun. unfold db'. cbn [PreregistrationUser MultiuseInvite].
    rewrite !map_map. f_equal. f_equal; apply map_ext; intros [f v];
      unfold MigrationFacts.migrate_row; cbn [fields invited_as];
      rewrite MigrationFacts.migrated_twice; reflexivity.
  - split; [exact MigrationFacts.migrated_injective|].
    repeat (split; [reflexivity|]).
    intros v Hv. unfold MigrationFacts.migrated. simpl in Hv.
    destruct (Z.eqb_spec v 4); [lia|]. destruct (Z.eqb_spec v 2); [lia|].
    destruct (Z.eqb_spec v 1); [lia|]. destruct (Z.eqb_spec v 3); [lia|reflexivity].
Qed.

End MigrationBehaviour.

(** ** The welcome emails *)

Module WelcomeBehaviour.


Import Model Welcome.

(** X20.  [followup_day2_email_delay] is one, two or three days less one
    hour, and the day that many days after the day of signing up, in the
    time zone of the user (UTC when none is set), is never a Saturday or a
    Sunday; an unknown time zone raises. *)
Theorem followup_day2_email_delay_lands_on_weekday :
  forall (S : Settings) (user : Account),
    let user_tz := if String.eqb (timezone user) "" then "UTC" else timezone user in
    (forall signup_day,
        local_isoweekday S (date_joined user) user_tz = Ok signup_day ->
        1 <= signup_day <= 7 ->
        exists days_to_delay,
          followup_day2_email_delay S user = Ok (days_to_delay * 86400 - 3600) /\
          1 <= days_to_delay <= 3 /\
          1 <= (signup_day - 1 + days_to_delay) mod 7 + 1 <= 5) /\
    (forall e,
        local_isoweekday S (date_joined user) user_tz = Raised e ->
        followup_day2_email_delay S user = Raised e).
Proof.
  intros S user user_tz. unfold followup_day2_email_delay. fold user_tz. split.
  - intros d -> Hd. cbn [rbind]. unfold timedelta.
    assert (Hcases : d = 1 \/ d = 2 \/ d = 3 \/ d = 4 \/ d = 5 \/ d = 6 \/ d = 7) by lia.
    destruct Hcases as [->|[->|[->|[->|[->|[->| ->]]]]]]; cbn [Z.eqb Pos.eqb];
      eexists; (split; [reflexivity|]); split; try lia;
      vm_compute; split; discriminate.
  - intros e ->. reflexivity.
Qed.

(** X21.  [enqueue_welcome_emails] schedules the day-1 email first and
    without delay, whenever its preparation does not raise; the day-2 email
    follows, with the same sender, recipient and context, exactly when no
    other account has the delivery address of the user; and when the delay
    of the day-2 email cannot be computed, the day-1 email is scheduled all
    the same and the error is raised after it. *)
Theorem enqueue_welcome_emails_schedule :
  forall (E : Collaborators) (S : Settings) (user : Account) (realm_creation : bool)
         (emails : list FutureEmail) (outcome : Result unit),
    enqueue_welcome_emails E S user realm_creation = (emails, outcome) ->
    match emails with
    | [] => exists e, outcome = Raised e
    | day1 :: rest =>
        fe_template_prefix day1 = "zerver/emails/followup_day1" /\
        fe_realm day1 = realm (profile user) /\
        fe_to_user_ids day1 = [user_id (profile user)] /\
        fe_delay day1 = None /\
        ((other_account_count S user <> 0 /\ rest = [] /\ outcome = Ok tt) \/
         (other_account_count S user = 0 /\
          ((exists delay,
               followup_day2_email_delay S user = Ok delay /\
               rest = [mkFutureEmail "zerver/emails/followup_day2" (fe_realm day1)
                         (fe_to_user_ids day1) (fe_from_name day1)
                         (fe_from_address day1) (fe_context day1) (Some delay)] /\
               outcome = Ok tt) \/
           (exists e,
               followup_day2_email_delay S user = Raised e /\
               rest = [] /\ outcome = Raised e))))
    end.
Proof.
  intros E S user realm_creation emails outcome. unfold enqueue_welcome_emails.
  destruct (welcome_email E S user realm_creation) as [day1|e] eqn:Hw.
  2:{ intros H. inversion H; subst. eauto. }
  destruct (WelcomeFacts.welcome_email_envelope E S user realm_creation day1 Hw)
    as (Ht & Hr & Hto & Hd & _).
  destruct (Z.eqb_spec (other_account_count S user) 0) as [H0|H0].
  - destruct (followup_day2_email_delay S user) as [delay|e] eqn:Hf;
      intros H; inversion H; subst; repeat (split; [assumption|]); right;
      (split; [assumption|]); [left|right]; eauto.
  - intros H; inversion H; subst. repeat (split; [assumption|]). left. auto.
Qed.

(** A newcomer alone with the address gets both emails, the second after 23
    hours; with a twin under the same address, only the first. *)
Lemma enqueue_welcome_emails_schedule_witness :
  let E := Sample.server [Sample.hamlet] [] (fun _ => []) in
  (exists day1,
      enqueue_welcome_emails E (MoreSamples.settings [MoreSamples.newcomer])
        MoreSamples.newcomer false
      = ([day1;
          mkFutureEmail "zerver/emails/followup_day2" (fe_realm day1)
            (fe_to_user_ids day1) (fe_from_name day1) (fe_from_address day1)
            (fe_context day1) (Some 82800)],
         Ok tt) /\
      fe_template_prefix day1 = "zerver/emails/followup_day1") /\
  (exists day1,
      enqueue_welcome_emails E
        (MoreSamples.settings [MoreSamples.newcomer; MoreSamples.twin])
        MoreSamples.newcomer false
      = ([day1], Ok tt)).
Proof.
  intros E. split.
  - destruct (enqueue_welcome_emails E (MoreSamples.settings [MoreSamples.newcomer])
                MoreSamples.newcomer false) as [emails outcome] eqn:He.
    pose proof (enqueue_welcome_emails_schedule E _ _ _ emails outcome He) as H.
    destruct emails as [|day1 rest].
    + vm_compute in He. discriminate He.
    + destruct H as (Ht & _ & _ & _ & [(Hn & _)|(_ & [(delay & Hf & -> & ->)|(e & Hf & _)])]).
      * exfalso. apply Hn. reflexivity.
      * vm_compute in Hf. injection Hf as <-. exists day1. split; [reflexivity|exact Ht].
      * vm_compute in Hf. discriminate Hf.
  - destruct (enqueue_welcome_emails E
                (MoreSamples.settings [MoreSamples.newcomer; MoreSamples.twin])
                MoreSamples.newcomer false) as [emails outcome] eqn:He.
    pose proof (enqueue_welcome_emails_schedule E _ _ _ emails outcome He) as H.
    destruct emails as [|day1 rest].
    + vm_compute in He. discriminate He.
    + destruct H as (_ & _ & _ & _ & [(_ & -> & ->)|(H0 & _)]).
      * exists day1. reflexivity.
      * vm_compute in H0. discriminate H0.
Defined.

End WelcomeBehaviour.

(** ** Links and inline images *)

Module LinkBehaviour.


Import Html.

(** X22.  Rewriting the narrow links changes attribute values and nothing
    else: tags, texts, tails and the structure of the tree stay, whatever
    links [iterlinks] reports.  (Here and below the base URL holds no
    backslash.) *)
Theorem rewrite_narrow_links_keeps_structure :
  forall (iterlinks : HtmlElement -> list (nat * string * string))
         (fragment : HtmlElement) (base_url : string),
    Py.contains_char HtmlMore.backslash base_url = false ->
    HtmlMore.erase_attrib (rewrite_narrow_links iterlinks fragment base_url)
    = HtmlMore.erase_attrib fragment.
Proof.
  intros iterlinks fragment base_url _. rewrite HtmlMore.rewrite_narrow_links_fold.
  apply HtmlMore.links_keep_structure.
Qed.

(** The fragment with a narrow link and an image preview. *)
Lemma rewrite_narrow_links_keeps_structure_witness :
  HtmlMore.erase_attrib
    (rewrite_narrow_links MoreSamples.hrefs MoreSamples.link_and_image
       "http://zulip.example.com")
  = HtmlMore.erase_attrib MoreSamples.link_and_image.
Proof. apply rewrite_narrow_links_keeps_structure. reflexivity. Defined.

(** X23.  A link is rewritten exactly when it starts with [#narrow/] or
    [/#narrow/]; it then becomes the base URL, [/#narrow/] and the rest of
    the link.  Every other link, an absolute one among them, is left to
    [make_links_absolute]. *)
Theorem narrow_link_rewrites_narrow_prefix_only :
  forall (base_url link : string),
    Py.contains_char HtmlMore.backslash base_url = false ->
    (forall rest, link = "/#narrow/" ++ rest ->
                  narrow_link base_url link = Some (base_url ++ "/#narrow/" ++ rest)) /\
    (forall rest, link = "#narrow/" ++ rest ->
                  narrow_link base_url link = Some (base_url ++ "/#narrow/" ++ rest)) /\
    (forall link',
        narrow_link base_url link = Some link' ->
        exists rest,
          (link = "/#narrow/" ++ rest \/ link = "#narrow/" ++ rest) /\
          link' = base_url ++ "/#narrow/" ++ rest).
Proof.
  intros base_url link _. unfold narrow_link. repeat split.
  - intros rest H. apply HtmlMore.strip_prefix_spec in H. rewrite H. reflexivity.
  - intros rest H.
    destruct (strip_prefix "/#narrow/" link) as [r|] eqn:E1.
    + apply HtmlMore.strip_prefix_spec in E1. rewrite H in E1. discriminate.
    + apply HtmlMore.strip_prefix_spec in H. rewrite H. reflexivity.
  - intros link'.
    destruct (strip_prefix "/#narrow/" link) as [r|] eqn:E1.
    + intros H. inversion H; subst. apply HtmlMore.strip_prefix_spec in E1. eauto.
    + destruct (strip_prefix "#narrow/" link) as [r|] eqn:E2; [|discriminate].
      intros H. inversion H; subst. apply HtmlMore.strip_prefix_spec in E2. eauto.
Qed.

(** A narrow link, and a link to an upload. *)
Lemma narrow_link_rewrites_narrow_prefix_only_witness :
  narrow_link "http://zulip.example.com" "#narrow/stream/1-Denmark"
  = Some "http://zulip.example.com/#narrow/stream/1-Denmark" /\
  narrow_link "http://zulip.example.com" "/user_uploads/1/logo.png" = None.
Proof.
  split.
  - apply (proj1 (proj2 (narrow_link_rewrites_narrow_prefix_only
                           "http://zulip.example.com" "#narrow/stream/1-Denmark"
                           eq_refl))
             "stream/1-Denmark" eq_refl).
  - destruct (narrow_link "http://zulip.example.com" "/user_uploads/1/logo.png")
      as [link'|] eqn:E; [|reflexivity].
    destruct (proj2 (proj2 (narrow_link_rewrites_narrow_prefix_only
                              "http://zulip.example.com" "/user_uploads/1/logo.png"
                              eq_refl)) link' E)
      as (rest & [H|H] & _); discriminate H.
Defined.

(** X24.  [relative_to_full_url] does not raise on a fragment whose elements
    are distinct and that is more than one inline image: narrow links are
    rewritten, then every inline image container is removed, then the
    remaining links are made absolute; no container is left. *)
Theorem relative_to_full_url_scrubs_inline_images :
  forall (iterlinks : HtmlElement -> list (nat * string * string))
         (make_links_absolute : string -> HtmlElement -> HtmlElement)
         (fragment : HtmlElement) (base_url : string),
    Py.contains_char HtmlMore.backslash base_url = false ->
    (forall elem attr link, In (elem, attr, link) (iterlinks fragment) ->
                            attr <> "class") ->
    NoDup (idents fragment) ->
    has_class "message_inline_image" fragment = false ->
    sole_inline_image fragment = None ->
    let scrubbed :=
      prune "message_inline_image" (rewrite_narrow_links iterlinks fragment base_url) in
    relative_to_full_url iterlinks make_links_absolute fragment base_url
    = Ok (make_links_absolute base_url scrubbed) /\
    find_class "message_inline_image" scrubbed = [].
Proof.
  intros iterlinks make_links_absolute fragment base_url _ Hattr Hnd Hc Hs scrubbed.
  subst scrubbed. unfold relative_to_full_url.
  rewrite HtmlMore.rewrite_narrow_links_fold.
  destruct (HtmlMore.links_keep_classes (iterlinks fragment) base_url fragment Hattr)
    as (Hid & Hcl & Hsole).
  split.
  - rewrite HtmlMore.inline_images_pruned.
    + reflexivity.
    + apply Hsole, Hs.
    + rewrite Hid. exact Hnd.
    + rewrite Hcl. exact Hc.
  - apply HtmlMore.pruned_clean. rewrite Hcl. exact Hc.
Qed.

(** A narrow link in a paragraph, then an image preview with text after it. *)
Lemma relative_to_full_url_scrubs_inline_images_witness :
  relative_to_full_url MoreSamples.hrefs (fun _ fragment => fragment)
    MoreSamples.link_and_image "http://zulip.example.com"
  = Ok (Element 0 "div" [] None
          [Element 1 "p" [] (Some "See ")
             [Element 2 "a"
                [("href", "http://zulip.example.com/#narrow/stream/1-Denmark");
                 ("title", "http://zulip.example.com/#narrow/stream/1-Denmark")]
                (Some "Denmark") [] None]
             (Some "!")]
          None).
Proof.
  destruct (relative_to_full_url_scrubs_inline_images MoreSamples.hrefs
              (fun _ fragment => fragment) MoreSamples.link_and_image
              "http://zulip.example.com") as [H _].
  - reflexivity.
  - intros elem attr link Hin. vm_compute in Hin.
    destruct Hin as [Hin|[Hin|[]]]; inversion Hin; discriminate.
  - repeat (constructor; [simpl; intuition discriminate|]). constructor.
  - reflexivity.
  - reflexivity.
  - rewrite H. vm_compute. reflexivity.
Defined.

End LinkBehaviour.

(** ** Emoji *)

Module EmojiBehaviour.


Import Html Emoji.

(** X25.  The first loop of [fix_emojis] puts an image in the place of every
    emoji span that is not inside another one, made from the span with the
    next new identity, and leaves the rest of the tree alone; the second
    loop then restyles what still carries the class.  This holds for a
    fragment whose emoji spans are distinct elements and whose root is none
    of them; when the image of a span cannot be made, [fix_emojis] raises
    what the first such span raises. *)
Theorem fix_emojis_replaces_spans :
  forall (fragment : HtmlElement) (base_url emojiset : string),
    let selected := select_span_emoji fragment in
    NoDup (map (fun s => ident (fst s)) selected) ->
    ~ In (ident fragment) (map (fun s => ident (fst s)) selected) ->
    match EmojiFacts.images (S (max_ident fragment)) base_url emojiset selected with
    | Ok imgs =>
        let replaced := EmojiFacts.with_images imgs fragment in
        fix_emojis fragment base_url emojiset
        = Ok (fold_left (fun fr i => update_element i restyle fr)
                (find_class "emoji" replaced) replaced)
    | Raised e => fix_emojis fragment base_url emojiset = Raised e
    end.
Proof.
  intros fragment base_url emojiset selected Hnd Hroot.
  pose proof (EmojiFacts.emoji_loop base_url emojiset (ident fragment)
                (S (max_ident fragment)) fragment selected (S (max_ident fragment)) []
                (Nat.le_refl _)) as H.
  rewrite EmojiFacts.with_images_nil in H.
  assert (Hsel : Forall (fun s => (ident (fst s) < S (max_ident fragment))%nat /\
                                  ident (fst s) <> ident fragment) selected).
  { apply Forall_forall. intros s Hs. split.
    - pose proof (EmojiFacts.select_span_emoji_bound fragment s Hs). lia.
    - intros Heq. apply Hroot. rewrite <- Heq.
      apply (in_map (fun s => ident (fst s)) selected s Hs). }
  specialize (H Hsel Hnd (fun s _ => eq_refl) (Forall_nil _)).
  unfold fix_emojis. fold selected.
  destruct (EmojiFacts.images (S (max_ident fragment)) base_url emojiset selected)
    as [imgs|e]; rewrite H; reflexivity.
Qed.

(** A grinning face between two words, and an image of a realm emoji. *)
Lemma fix_emojis_replaces_spans_witness :
  fix_emojis MoreSamples.smile "http://zulip.example.com" "google"
  = Ok (Element 0 "div" [] None
          [Element 1 "p" [] (Some "Hi ")
             [Element 4 "img"
                [("alt", ":grinning:");
                 ("src",
                  "http://zulip.example.com/static/generated/emoji/images-google-64/1f600.png");
                 ("title", "grinning"); ("style", "height: 20px;")]
                None [] (Some " there ");
              Element 3 "img"
                [("src", "/user_avatars/1/emoji/zulip.png"); ("style", "height: 20px;")]
                None [] None]
             None]
          None).
Proof.
  pose proof (fix_emojis_replaces_spans MoreSamples.smile "http://zulip.example.com"
                "google") as H.
  cbv zeta in H.
  destruct (EmojiFacts.images (S (max_ident MoreSamples.smile)) "http://zulip.example.com"
              "google" (select_span_emoji MoreSamples.smile)) as [imgs|e] eqn:Hi.
  - rewrite H.
    + vm_compute in Hi. injection Hi as <-. vm_compute. reflexivity.
    + repeat (constructor; [simpl; intuition discriminate|]). constructor.
    + simpl. intuition discriminate.
  - vm_compute in Hi. discriminate Hi.
Defined.

(** X26.  When [fix_emojis] returns, no element of the fragment carries the
    class [emoji] any more. *)
Theorem fix_emojis_leaves_no_emoji_class :
  forall (fragment fixed : HtmlElement) (base_url emojiset : string),
    fix_emojis fragment base_url emojiset = Ok fixed ->
    find_class "emoji" fixed = [].
Proof.
  intros fragment fixed base_url emojiset. unfold fix_emojis.
  destruct (rfold (emoji_step base_url emojiset (ident fragment))
              (select_span_emoji fragment) (fragment, S (max_ident fragment)))
    as [[fr n]|e]; [|discriminate].
  cbn [rbind]. intros H. inversion H; subst.
  rewrite EmojiFacts.find_class_restyled_all.
  apply EmojiFacts.filter_out_own. apply Nat.eqb_refl.
Qed.

(** The same fragment: nothing of class emoji is left. *)
Lemma fix_emojis_leaves_no_emoji_class_witness :
  exists fixed,
    fix_emojis MoreSamples.smile "http://zulip.example.com" "google" = Ok fixed /\
    find_class "emoji" MoreSamples.smile = [2; 3]%nat /\
    find_class "emoji" fixed = [].
Proof.
  destruct (fix_emojis MoreSamples.smile "http://zulip.example.com" "google")
    as [fixed|e] eqn:Hf.
  - exists fixed. split; [reflexivity|]. split; [reflexivity|].
    apply (fix_emojis_leaves_no_emoji_class _ _ _ _ Hf).
  - vm_compute in Hf. discriminate Hf.
Defined.

(** X27.  A fragment without an element of class [emoji] comes back from
    [fix_emojis] as it is. *)
Theorem fix_emojis_without_emoji :
  forall (fragment : HtmlElement) (base_url emojiset : string),
    find_class "emoji" fragment = [] ->
    fix_emojis fragment base_url emojiset = Ok fragment.
Proof.
  intros fragment base_url emojiset H. unfold fix_emojis.
  rewrite (EmojiFacts.select_span_emoji_none fragment H). cbn [rfold rbind].
  rewrite H. reflexivity.
Qed.

(** A fragment with a link and an image preview, without emoji. *)
Lemma fix_emojis_without_emoji_witness :
  fix_emojis MoreSamples.link_and_image "http://zulip.example.com" "google"
  = Ok MoreSamples.link_and_image.
Proof. apply fix_emojis_without_emoji. reflexivity. Defined.

(** X28.  The image of an emoji span.  For a class attribute that reads
    [emoji], then [emoji-] and a code (not empty, no white-space character
    in it, and nothing or white space after it, white space as Python's
    [re] reads it in a [str]: that of ASCII, the no-break space and the
    other spaces of Unicode), the image has the text of the span as [alt],
    the picture of that code in the emoji set under the base URL as [src],
    the title of the span, a height of 20px and the tail of the span; a span
    without text or title is a [KeyError].  A class attribute without a
    hyphen, or with nothing but white space after [emoji-], fails the
    assertion. *)
Theorem make_emoji_img_elem_image :
  forall (fresh : nat) (base_url emojiset : string) (emoji_span_elem : HtmlElement),
    (forall classes,
        Py.contains_char "-" classes = false ->
        make_emoji_img_elem fresh base_url emojiset emoji_span_elem classes
        = Raised (AssertionError "")) /\
    (forall rest,
        rest = "" \/ is_re_space rest = true ->
        Py.contains_char "-" rest = false ->
        make_emoji_img_elem fresh base_url emojiset emoji_span_elem
          ("emoji emoji-" ++ rest)
        = Raised (AssertionError "")) /\
    (forall code rest,
        code <> "" ->
        EmojiFacts.space_free code rest = true ->
        rest = "" \/ is_re_space rest = true ->
        make_emoji_img_elem fresh base_url emojiset emoji_span_elem
          ("emoji emoji-" ++ code ++ rest)
        = match text emoji_span_elem, get emoji_span_elem "title" with
          | Some alt, Some title =>
              Ok (Element fresh "img"
                    [("alt", alt);
                     ("src", base_url ++ "/static/generated/emoji/images-" ++ emojiset
                             ++ "-64/" ++ code ++ ".png");
                     ("title", title);
                     ("style", "height: 20px;")]
                    None [] (tail emoji_span_elem))
          | _, _ => Raised KeyError
          end).
Proof.
  intros fresh base_url emojiset emoji_span_elem. split; [|split].
  - intros classes H. unfold make_emoji_img_elem.
    rewrite (EmojiFacts.search_emoji_code_no_dash classes H). reflexivity.
  - intros rest Hrest Hdash. unfold make_emoji_img_elem.
    rewrite (EmojiFacts.search_emoji_code_no_code rest Hrest Hdash). reflexivity.
  - intros code rest Hne Hcode Hrest. unfold make_emoji_img_elem.
    rewrite (EmojiFacts.search_emoji_code_markup code rest Hne Hcode Hrest).
    reflexivity.
Qed.

(** A code that a no-break space ends, and a class attribute in which a
    no-break space follows [emoji-] at once. *)
Lemma make_emoji_img_elem_image_witness :
  make_emoji_img_elem 9 "http://zulip.example.com" "google" MoreSamples.grinning
    ("emoji emoji-1f600" ++ MoreSamples.no_break_space ++ "wide")
  = Ok (Element 9 "img"
          [("alt", ":grinning:");
           ("src",
            "http://zulip.example.com/static/generated/emoji/images-google-64/1f600.png");
           ("title", "grinning"); ("style", "height: 20px;")]
          None [] (Some " there ")) /\
  make_emoji_img_elem 9 "http://zulip.example.com" "google" MoreSamples.grinning
    ("emoji emoji-" ++ MoreSamples.no_break_space ++ "x")
  = Raised (AssertionError "").
Proof.
  destruct (make_emoji_img_elem_image 9 "http://zulip.example.com" "google"
              MoreSamples.grinning) as (_ & Hnone & Hcode).
  split.
  - apply (Hcode "1f600" (MoreSamples.no_break_space ++ "wide")).
    + discriminate.
    + reflexivity.
    + right. reflexivity.
  - apply (Hnone (MoreSamples.no_break_space ++ "x")).
    + right. reflexivity.
    + reflexivity.
Defined.

End EmojiBehaviour.

